(** * ai_sms: capture supervision, ingestion, fan-out and the metrics engine

    A shallow embedding of the parts of the repository that the
    specification talks about:

    - [Metrics]   : [MetricsEngine] of [src/emotion_monitor.py];
    - [Reader]    : [CaptureWorker._read_stdout] of
                    [backend/app/services/capture_worker.py];
    - [Supervisor]: [CaptureWorker.start]/[stop] and [ProcessManager] of
                    [backend/app/services/process_manager.py];
    - [Ingest]    : [insert_event], [write_to_fallback], [ingest] of
                    [backend/app/api/ingest.py] and the worker callback
                    [on_event] of [process_manager.py];
    - [Fanout]    : [ConnectionManager] and [websocket_live] of
                    [backend/app/api/ws.py].

    Python floats are modelled by the real numbers of the Standard
    Library, so rounding, infinities and NaN are outside the model;
    the statements about them are equalities that hold operation by
    operation and ranges.  [MetricsF64] repeats the engagement lines of
    [compute] on binary64 numbers, where rounding decides.
    Every outcome that is decided by the outside world (does the process
    launch, does the database accept a row, does a socket accept a
    frame) is an explicit oracle argument. *)

From Stdlib Require Import Reals Lra Lia List String Ascii Bool.
From Stdlib Require PrimFloat.
From stdpp Require Import gmap strings list pretty.

(* ===================================================================== *)
(** * The metrics engine                                                  *)
(* ===================================================================== *)

Module Metrics.

Local Open Scope R_scope.

(** ** numpy helpers *)

(** [np.clip(x, lo, hi)] is [minimum(maximum(x, lo), hi)]. *)
Definition clip (x lo hi : R) : R := Rmin (Rmax x lo) hi.

Definition rsum (l : list R) : R := fold_right Rplus 0 l.

(** [np.mean] of a one-dimensional array. *)
Definition mean (l : list R) : R := rsum l / INR (length l).

(** [np.std] of a one-dimensional array (population form, [ddof = 0]). *)
Definition std (l : list R) : R :=
  sqrt (mean (map (fun x => (x - mean l) * (x - mean l)) l)).

(** Column [j] of a two-dimensional array given by its rows. *)
Definition column (j : nat) (rows : list (list R)) : list R :=
  map (fun r => nth j r 0) rows.

Definition ncols (rows : list (list R)) : nat :=
  match rows with
  | [] => O
  | r :: _ => length r
  end.

(** [np.mean(a, axis=0)] and [np.std(a, axis=0)]. *)
Definition mean_axis0 (rows : list (list R)) : list R :=
  map (fun j => mean (column j rows)) (seq 0 (ncols rows)).

Definition std_axis0 (rows : list (list R)) : list R :=
  map (fun j => std (column j rows)) (seq 0 (ncols rows)).

(** [np.array(rows)] needs rows of one common length. *)
Definition rectangular (rows : list (list R)) : bool :=
  forallb (fun r => Nat.eqb (length r) (ncols rows)) rows.

(** ** State *)

(** One entry of the windows: the dict built by [push]. *)
Record sample := Sample {
  probs : list R;
  top : string;
  box : option (R * R * R * R);
  ear : option R;
  pose : option (R * R * R);
  ts : R
}.

Record MetricsEngine := Engine {
  short_w : nat;
  long_w : nat;
  ema_alpha : R;
  buf : list sample;
  long_buf : list sample;
  center_vel : list R;
  prev_center : option (R * R);
  eng_ema : option R
}.

(** [MetricsEngine.__init__]. *)
Definition init (sw lw : nat) (alpha : R) : MetricsEngine :=
  {| short_w := sw; long_w := lw; ema_alpha := alpha;
     buf := []; long_buf := []; center_vel := [];
     prev_center := None; eng_ema := None |}.

(** The constructor's defaults: [MetricsEngine()]. *)
Definition default_engine : MetricsEngine := init 30 300 0.2.

(** [collections.deque(maxlen=n).append(x)]: the new element goes to the
    right end and the left end is dropped until at most [n] remain. *)
Definition deque_append {A : Type} (maxlen : nat) (d : list A) (x : A) : list A :=
  drop (length (d ++ [x]) - maxlen)%nat (d ++ [x]).

(** ** push *)

(** [push] raises [IndexError] at [self.buf[-1]] when the short window
    has capacity [0]; this is [None].  [now] is [time.time()]. *)
Definition push (st : MetricsEngine) (p : list R) (t : string)
    (b : option (R * R * R * R)) (e : option R) (po : option (R * R * R))
    (now : R) : option MetricsEngine :=
  let s := Sample p t b e po now in
  let buf' := deque_append (short_w st) (buf st) s in
  match last buf' with
  | None => None
  | Some newest =>
    let long' := deque_append (long_w st) (long_buf st) newest in
    match b with
    | Some (x, y, w, h) =>
      let cx := x + w / 2 in
      let cy := y + h / 2 in
      let dist :=
        match prev_center st with
        | None => 0
        | Some (px, py) =>
          let dx := cx - px in
          let dy := cy - py in
          sqrt (dx * dx + dy * dy)
        end in
      let norm_dist := dist / Rmax 1 ((w + h) / 2) in
      Some {| short_w := short_w st; long_w := long_w st;
              ema_alpha := ema_alpha st;
              buf := buf'; long_buf := long';
              center_vel := deque_append (short_w st) (center_vel st) norm_dist;
              prev_center := Some (cx, cy);
              eng_ema := eng_ema st |}
    | None =>
      Some {| short_w := short_w st; long_w := long_w st;
              ema_alpha := ema_alpha st;
              buf := buf'; long_buf := long';
              center_vel := deque_append (short_w st) (center_vel st) 0;
              prev_center := prev_center st;
              eng_ema := eng_ema st |}
    end
  end.

(** ** compute *)

Record DerivedMetrics := Derived {
  attentiveness : R;
  positivity : R;
  engagement : R;
  boredom : R;
  frustration : R;
  volatility : R;
  distraction : R;
  fatigue : R;
  risk : R
}.

(** What a call of [compute] yields: the empty dict, an exception, or the
    dict of the nine metrics. *)
Inductive outcome :=
| Empty
| Raised
| Result (m : DerivedMetrics).

Definition is_neutral_sad (t : string) : bool :=
  (String.eqb t "Neutral" || String.eqb t "Sad")%bool.

(** [sum(1 for t in tops if t in ("Neutral", "Sad")) / len(tops)]. *)
Definition neutral_sad_fraction (tops : list string) : R :=
  INR (length (filter (fun t => is_neutral_sad t = true) tops)) / INR (length tops).

Definition set_ema (st : MetricsEngine) (e : R) : MetricsEngine :=
  {| short_w := short_w st; long_w := long_w st; ema_alpha := ema_alpha st;
     buf := buf st; long_buf := long_buf st; center_vel := center_vel st;
     prev_center := prev_center st; eng_ema := Some e |}.

(** [Att] of the newest probability vector. *)
Definition att_of (cur : list R) : R :=
  match cur with
  | [pH; pSad; pAng; pSur; pFea; pDis; pNeu] =>
    clip (0.6 * pSur + 0.35 * pNeu - 0.25 * (pSad + pAng + pFea + pDis)) 0 1
  | _ => 0
  end.

(** [Pos] of the newest probability vector. *)
Definition pos_of (cur : list R) : R :=
  match cur with
  | [pH; pSad; pAng; pSur; pFea; pDis; pNeu] =>
    clip ((pH * 1 + pNeu * 0.2 - pSad * 0.6 - pAng * 0.6 - pDis * 0.5
           - pFea * 0.4 + pSur * 0.15 + 0.6) / 1.6) 0 1
  | _ => 0
  end.

(** [Eng_raw = 0.7 * Att + 0.3 * Pos]. *)
Definition eng_raw_of (cur : list R) : R := 0.7 * att_of cur + 0.3 * pos_of cur.

(** The value stored in [self.eng_ema] by one call of [compute]. *)
Definition ema_step (alpha : R) (old : option R) (raw : R) : R :=
  match old with
  | None => raw
  | Some e => (1 - alpha) * e + alpha * raw
  end.

(** [-np.sum(mean_probs * np.log(mean_probs + 1e-12)) / np.log(len(mean_probs))]. *)
Definition entropy_ratio (mean_probs : list R) : R :=
  - rsum (map (fun m => m * ln (m + 1 / 10 ^ 12)) mean_probs)
  / ln (INR (length mean_probs)).

(** [pAng + pFea + pDis] of one row: columns 2, 4 and 5. *)
Definition neg_base (r : list R) : R := nth 2 r 0 + nth 4 r 0 + nth 5 r 0.

Definition compute (st : MetricsEngine) : MetricsEngine * outcome :=
  match last (buf st) with
  | None => (st, Empty)
  | Some newest =>
    let probs_arr := map probs (buf st) in
    let top_labels := map top (buf st) in
    let cur := probs newest in
    if negb (rectangular probs_arr && Nat.eqb (length cur) 7) then (st, Raised)
    else
      let pAng := nth 2 cur 0 in
      let pFea := nth 4 cur 0 in
      let pDis := nth 5 cur 0 in
      let Att := att_of cur in
      let Pos := pos_of cur in
      let Eng_raw := 0.7 * Att + 0.3 * Pos in
      let ema := ema_step (ema_alpha st) (eng_ema st) Eng_raw in
      let st' := set_ema st ema in
      let Eng := clip ema 0 1 in
      let neutral_sad := neutral_sad_fraction top_labels in
      let mean_probs := mean_axis0 probs_arr in
      let ent := entropy_ratio mean_probs in
      let low_var := 1 - ent in
      let Boredom := clip (neutral_sad * 0.8 + low_var * 0.2) 0 1 in
      let base := pAng + pFea + pDis in
      let prev_mean :=
        if (1 <? length probs_arr)%nat
        then mean (map neg_base (removelast probs_arr))
        else 0 in
      let trend := Rmax 0 (base - prev_mean) in
      let Fr := clip (0.6 * base + 0.4 * trend) 0 1 in
      let stds := std_axis0 probs_arr in
      let Vol := clip (mean stds / 0.5) 0 1 in
      let move := clip (mean (center_vel st) * 3) 0 1 in
      let Distraction := clip (0.6 * move + 0.4 * (1 - Att)) 0 1 in
      let ears := omap ear (buf st) in
      let Fatigue :=
        if (0 <? length ears)%nat
        then clip (1 - (mean ears - 0.10) / 0.25) 0 1
        else 0 in
      if (10 <? length (long_buf st))%nat then
        let long_tops := map top (long_buf st) in
        let lf := neutral_sad_fraction long_tops in
        let long_probs := map probs (long_buf st) in
        if negb (rectangular long_probs) then (st', Raised)
        else
          let long_vol := mean (std_axis0 long_probs) in
          let Risk := clip (0.5 * lf + 0.3 * Fr + 0.2 * clip (long_vol / 0.5) 0 1) 0 1 in
          (st', Result (Derived Att Pos Eng Boredom Fr Vol Distraction Fatigue Risk))
      else
        let Risk := clip (0.5 * Boredom + 0.3 * Fr + 0.2 * Vol) 0 1 in
        (st', Result (Derived Att Pos Eng Boredom Fr Vol Distraction Fatigue Risk))
  end.

(** ** Predicates used by the statements *)

Definition in_unit (x : R) : Prop := 0 <= x <= 1.

Definition all_in_unit (m : DerivedMetrics) : Prop :=
  in_unit (attentiveness m) /\ in_unit (positivity m) /\
  in_unit (engagement m) /\ in_unit (boredom m) /\
  in_unit (frustration m) /\ in_unit (volatility m) /\
  in_unit (distraction m) /\ in_unit (fatigue m) /\ in_unit (risk m).

(** Every sample of both windows carries a seven-class vector, and the
    velocity buffer is filled whenever the short window is. *)
Definition wf (st : MetricsEngine) : Prop :=
  Forall (fun s => length (probs s) = 7%nat) (buf st) /\
  Forall (fun s => length (probs s) = 7%nat) (long_buf st) /\
  (buf st <> [] -> center_vel st <> []).

(** The states an engine goes through: built by the constructor, then
    any sequence of [push] with seven-class vectors and [compute]. *)
Inductive reachable (sw lw : nat) (alpha : R) : MetricsEngine -> Prop :=
| reach_init : reachable sw lw alpha (init sw lw alpha)
| reach_push st p t b e po now st' :
    reachable sw lw alpha st ->
    length p = 7%nat ->
    push st p t b e po now = Some st' ->
    reachable sw lw alpha st'
| reach_compute st :
    reachable sw lw alpha st ->
    reachable sw lw alpha (fst (compute st)).

(** ** Window statistics in the specification's words *)

(** Standard deviation of class [j]'s probability across a window. *)
Definition class_std (j : nat) (w : list sample) : R :=
  std (map (fun s => nth j (probs s) 0) w).

(** Mean per-class standard deviation over a window of seven-class
    vectors. *)
Definition mean_class_std (w : list sample) : R :=
  mean (map (fun j => class_std j w) (seq 0 7)).

(** Fraction of a window's samples labelled Neutral or Sad. *)
Definition window_fraction (w : list sample) : R :=
  neutral_sad_fraction (map top w).

(** ** Sample data *)

Definition happy_probs : list R := [0.8; 0.04; 0.03; 0.03; 0.03; 0.03; 0.04].
Definition neutral_probs : list R := [0.05; 0.1; 0.05; 0.05; 0.05; 0.05; 0.65].

Definition happy_sample : sample := Sample happy_probs "Happy" None None None 0.
Definition neutral_sample : sample := Sample neutral_probs "Neutral" None None None 0.

(** One Happy sample pushed into a default engine. *)
Definition one_sample_engine : MetricsEngine :=
  {| short_w := 30; long_w := 300; ema_alpha := 0.2;
     buf := [happy_sample]; long_buf := [happy_sample]; center_vel := [0];
     prev_center := None; eng_ema := None |}.

(** A default engine after push(Happy), compute(), push(Neutral): the
    stored average is the raw engagement of the Happy vector, the
    newest sample is the Neutral one. *)
Definition after_first_compute : MetricsEngine :=
  {| short_w := 30; long_w := 300; ema_alpha := 0.2;
     buf := [happy_sample]; long_buf := [happy_sample]; center_vel := [0];
     prev_center := None; eng_ema := Some (eng_raw_of happy_probs) |}.

Definition two_sample_engine : MetricsEngine :=
  {| short_w := 30; long_w := 300; ema_alpha := 0.2;
     buf := [happy_sample; neutral_sample];
     long_buf := [happy_sample; neutral_sample];
     center_vel := [0; 0];
     prev_center := None; eng_ema := Some (eng_raw_of happy_probs) |}.

End Metrics.

(* ===================================================================== *)
(** * The capture worker's stdout reader                                  *)
(* ===================================================================== *)

Module Reader.

(** What [json.loads] returns: numbers keep their text. *)
#[warnings="-register-all"] Inductive json :=
| JNull
| JBool (b : bool)
| JNum (text : string)
| JStr (s : string)
| JArr (items : list json)
| JObj (fields : list (string * json)).

(** [d.setdefault(k, v)] on a dict kept as its item list. *)
Definition setdefault (k : string) (v : json) (fields : list (string * json))
  : list (string * json) :=
  if existsb (fun kv => String.eqb (fst kv) k) fields
  then fields
  else fields ++ [(k, v)].

(** A Python [str] is kept as the UTF-8 encoding of its code points.
    [str.strip()] removes the characters for which [str.isspace()]
    holds.  Within ASCII these are U+0009 to U+000D and U+001C to
    U+0020. *)
Definition is_space (c : ascii) : bool :=
  let n := nat_of_ascii c in
  ((9 <=? n) && (n <=? 13) || (28 <=? n) && (n <=? 32))%nat.

(** Beyond ASCII they are U+0085, U+00A0, U+1680, U+2000 to U+200A,
    U+2028, U+2029, U+202F, U+205F and U+3000, here by their
    encodings. *)
Definition wide_space : list (list nat) :=
  [[194; 133]; [194; 160]; [225; 154; 128]]
  ++ map (fun k => [226; 128; 128 + k]%nat) (seq 0 11)
  ++ [[226; 128; 168]; [226; 128; 169]; [226; 128; 175];
      [226; 129; 159]; [227; 128; 128]].

(** What follows [code] at the front of [l], if [l] starts with it. *)
Fixpoint starts_with (code l : list ascii) : option (list ascii) :=
  match code, l with
  | [], _ => Some l
  | c :: code', x :: l' =>
    if Ascii.eqb c x then starts_with code' l' else None
  | _ :: _, [] => None
  end.

(** [l] without the white-space character at its front, if there is
    one; [codes] are the encodings beyond ASCII. *)
Definition drop_space (codes : list (list ascii)) (l : list ascii)
  : option (list ascii) :=
  match l with
  | [] => None
  | c :: l' =>
    if is_space c then Some l'
    else
      fold_right
        (fun code found =>
           match starts_with code l with
           | Some rest => Some rest
           | None => found
           end)
        None codes
  end.

(** Every character removed takes at least one byte, so [length l]
    rounds are enough. *)
Fixpoint lstrip_rounds (codes : list (list ascii)) (n : nat) (l : list ascii)
  : list ascii :=
  match n with
  | O => l
  | S k =>
    match drop_space codes l with
    | Some l' => lstrip_rounds codes k l'
    | None => l
    end
  end.

Definition lstrip (codes : list (list ascii)) (l : list ascii) : list ascii :=
  lstrip_rounds codes (length l) l.

(** [str.strip()]: the right end is stripped on the reversed bytes,
    with the encodings reversed. *)
Definition strip (s : string) : string :=
  let codes := map (map ascii_of_nat) wide_space in
  string_of_list_ascii
    (rev (lstrip (map (@rev ascii) codes)
            (rev (lstrip codes (list_ascii_of_string s))))).

Definition is_empty (s : string) : bool :=
  match s with
  | EmptyString => true
  | _ => false
  end.

(** The fields of [CaptureWorker] the reader and the supervisor touch.
    [process] is the pid of the [Popen] object, if any. *)
Record CaptureWorker := Worker {
  device_id : string;
  process : option nat;
  is_running : bool;
  events_count : nat;
  error_count : nat;
  started_at : option nat;
  session_id : option nat
}.

(** [CaptureWorker.__init__]. *)
Definition new_worker (dev : string) : CaptureWorker :=
  {| device_id := dev; process := None; is_running := false;
     events_count := 0; error_count := 0;
     started_at := None; session_id := None |}.

Definition set_running (w : CaptureWorker) (b : bool) : CaptureWorker :=
  {| device_id := device_id w; process := process w; is_running := b;
     events_count := events_count w; error_count := error_count w;
     started_at := started_at w; session_id := session_id w |}.

Definition count_event (w : CaptureWorker) : CaptureWorker :=
  {| device_id := device_id w; process := process w;
     is_running := is_running w;
     events_count := S (events_count w); error_count := error_count w;
     started_at := started_at w; session_id := session_id w |}.

Definition count_error (w : CaptureWorker) : CaptureWorker :=
  {| device_id := device_id w; process := process w;
     is_running := is_running w;
     events_count := events_count w; error_count := S (error_count w);
     started_at := started_at w; session_id := session_id w |}.

(** What the reader thread has produced besides the counters: the events
    handed to the loop with [run_coroutine_threadsafe], oldest first,
    and the lines written to the debug log. *)
Record ReaderOut := Out {
  handed : list json;
  debug_lines : list string
}.

Section read_stdout.

(** [json.loads]: [None] is [JSONDecodeError]. *)
Variable json_loads : string -> option json.

(** Whether the event loop still takes work: on a closed loop
    [run_coroutine_threadsafe] raises [RuntimeError]. *)
Variable loop_open : bool.

(** The body of the [for] loop for one line; [None] is [break]. *)
Definition read_line (w : CaptureWorker) (o : ReaderOut) (raw : string)
  : option (CaptureWorker * ReaderOut) :=
  if is_empty raw then None
  else
    let line := strip raw in
    if is_empty line then Some (w, o)
    else
      match json_loads line with
      | None =>
        Some (w, {| handed := handed o; debug_lines := debug_lines o ++ [line] |})
      | Some (JObj fields) =>
        let event := JObj (setdefault "source_device" (JStr (device_id w)) fields) in
        if loop_open
        then Some (count_event w,
                   {| handed := handed o ++ [event]; debug_lines := debug_lines o |})
        else Some (count_error w, o)
      | Some _ => Some (count_error w, o)
      end.

Fixpoint read_lines (w : CaptureWorker) (o : ReaderOut) (lines : list string)
  : CaptureWorker * ReaderOut :=
  match lines with
  | [] => (w, o)
  | raw :: rest =>
    match read_line w o raw with
    | None => (w, o)
    | Some (w', o') => read_lines w' o' rest
    end
  end.

(** [CaptureWorker._read_stdout] over the lines the pipe yields until it
    is closed. *)
Definition read_stdout (w : CaptureWorker) (lines : list string)
  : CaptureWorker * ReaderOut :=
  match process w with
  | None => (w, Out [] [])
  | Some _ =>
    let '(w', o) := read_lines w (Out [] []) lines in
    (set_running w' false, o)
  end.

(** The event a line gives rise to, if any: the line is not blank and
    parses to a JSON object. *)
Definition event_of_line (dev : string) (raw : string) : option json :=
  if is_empty (strip raw) then None
  else
    match json_loads (strip raw) with
    | Some (JObj fields) => Some (JObj (setdefault "source_device" (JStr dev) fields))
    | _ => None
    end.

(** A line that is valid JSON but not an object: [setdefault] raises
    [AttributeError] on what it parses to. *)
Definition other_json_line (raw : string) : bool :=
  negb (is_empty (strip raw)) &&
  match json_loads (strip raw) with
  | Some (JObj _) | None => false
  | Some _ => true
  end.

(** A line that is valid JSON of any kind. *)
Definition valid_json_line (raw : string) : bool :=
  negb (is_empty (strip raw)) &&
  match json_loads (strip raw) with
  | Some _ => true
  | None => false
  end.

End read_stdout.

(** ** Sample data *)

Definition nl : string := String (ascii_of_nat 10) EmptyString.

(** A reading of [json.loads] on the three texts used in the examples;
    every other text is taken as not JSON. *)
Definition sample_loads (s : string) : option json :=
  if String.eqb s "1" then Some (JNum "1")
  else if String.eqb s "{}" then Some (JObj [])
  else if String.eqb s "null" then Some JNull
  else None.

(** A blank line, a diagnostic line, a JSON number and a JSON object. *)
Definition sample_lines : list string :=
  [nl; "model loaded" +:+ nl; "1" +:+ nl; "{}" +:+ nl].

(** U+00A0, the no-break space, and U+2028, the line separator. *)
Definition nbsp : string :=
  String (ascii_of_nat 194) (String (ascii_of_nat 160) EmptyString).

Definition line_separator : string :=
  String (ascii_of_nat 226)
    (String (ascii_of_nat 128) (String (ascii_of_nat 168) EmptyString)).

(** A line of a no-break space, a diagnostic line between no-break
    spaces, a JSON number before a line separator and a JSON object. *)
Definition wide_lines : list string :=
  [nbsp +:+ nl; nbsp +:+ "model loaded" +:+ nbsp +:+ nl;
   "1" +:+ line_separator +:+ nl; "{}" +:+ nl].

Definition started_worker : CaptureWorker :=
  {| device_id := "cam-1"; process := Some 4242%nat; is_running := true;
     events_count := 0; error_count := 0;
     started_at := Some 0%nat; session_id := Some 1%nat |}.

End Reader.

(* ===================================================================== *)
(** * The worker supervisor                                               *)
(* ===================================================================== *)

Module Supervisor.
Import Reader.

Inductive signal :=
| SIGTERM (pid : nat)
| SIGKILL (pid : nat).

(** How [terminate()] followed by [wait(timeout=5)] ends. *)
Inductive wait_outcome :=
| Exited            (* the process exits within the deadline *)
| TimedOut          (* [TimeoutExpired]: the process is killed *)
| TerminateFailed   (* [terminate()] raises *)
| WaitFailed.       (* [wait()] raises something else *)

(** [CaptureWorker.start].  [popen] is the pid of the launched process,
    or [None] when [Popen] raises; it is looked at only when the launch
    is attempted.  The third component lists the processes launched. *)
Definition start (w : CaptureWorker) (sid : nat) (popen : option nat) (now : nat)
  : CaptureWorker * bool * list nat :=
  if is_running w then (w, false, [])
  else
    match popen with
    | None => (w, false, [])
    | Some pid =>
      ({| device_id := device_id w; process := Some pid; is_running := true;
          events_count := 0; error_count := 0;
          started_at := Some now; session_id := Some sid |},
       true, [pid])
    end.

(** [CaptureWorker.stop].  The third component lists the signals sent. *)
Definition stop (w : CaptureWorker) (o : wait_outcome)
  : CaptureWorker * bool * list signal :=
  match process w with
  | None => (w, false, [])
  | Some pid =>
    if negb (is_running w) then (w, false, [])
    else
      match o with
      | Exited => (set_running w false, true, [SIGTERM pid])
      | TimedOut => (set_running w false, true, [SIGTERM pid; SIGKILL pid])
      | TerminateFailed => (set_running w false, false, [])
      | WaitFailed => (set_running w false, false, [SIGTERM pid])
      end
  end.

(** The singleton [ProcessManager] together with what it can reach: the
    worker objects by address, the registry [workers] from device id to
    worker, the processes launched so far and the signals sent so far. *)
Record ProcessManager := Manager {
  heap : gmap nat CaptureWorker;
  workers : gmap string nat;
  launched : list (string * nat);
  signals : list signal
}.

Definition empty_manager : ProcessManager :=
  {| heap := ∅; workers := ∅; launched := []; signals := [] |}.

(** [self.workers.get(device_id)]. *)
Definition get_worker (m : ProcessManager) (d : string) : option CaptureWorker :=
  workers m !! d ≫= fun r => heap m !! r.

(** [device_id in self.workers and self.workers[device_id].is_running]. *)
Definition running_for (m : ProcessManager) (d : string) : bool :=
  match get_worker m d with
  | Some w => is_running w
  | None => false
  end.

(** [ProcessManager.start_capture]: the body has no [await], so it runs
    in one piece on the event loop. *)
Definition start_capture (m : ProcessManager) (d : string) (sid : nat)
    (popen : option nat) (now : nat) : ProcessManager * bool :=
  if running_for m d then (m, false)
  else
    let r := fresh (dom (heap m)) in
    let '(w, success, pids) := start (new_worker d) sid popen now in
    ({| heap := <[r := w]> (heap m);
        workers := if success then <[d := r]> (workers m) else workers m;
        launched := launched m ++ map (fun pid => (d, pid)) pids;
        signals := signals m |},
     success).

(** [ProcessManager.stop_capture]. *)
Definition stop_capture (m : ProcessManager) (d : string) (o : wait_outcome)
  : ProcessManager * bool :=
  match workers m !! d with
  | None => (m, false)
  | Some r =>
    match heap m !! r with
    | None => (m, false)
    | Some w =>
      let '(w', success, sigs) := stop w o in
      ({| heap := <[r := w']> (heap m);
          workers := if success then delete d (workers m) else workers m;
          launched := launched m;
          signals := signals m ++ sigs |},
       success)
    end
  end.

(** The [finally] of [_read_stdout], run by the reader thread of the
    worker at address [r] when its pipe is closed. *)
Definition stdout_closed (m : ProcessManager) (r : nat) : ProcessManager :=
  {| heap := alter (fun w => set_running w false) r (heap m);
     workers := workers m;
     launched := launched m;
     signals := signals m |}.

(** What happens to a manager, in the order in which it happens. *)
Inductive action :=
| Start (d : string) (sid : nat) (popen : option nat) (now : nat)
| Stop (d : string) (o : wait_outcome)
| StdoutClosed (r : nat).

Definition step (m : ProcessManager) (a : action) : ProcessManager * option bool :=
  match a with
  | Start d sid popen now =>
    let '(m', b) := start_capture m d sid popen now in (m', Some b)
  | Stop d o =>
    let '(m', b) := stop_capture m d o in (m', Some b)
  | StdoutClosed r => (stdout_closed m r, None)
  end.

Fixpoint run (m : ProcessManager) (l : list action)
  : ProcessManager * list (option bool) :=
  match l with
  | [] => (m, [])
  | a :: l' =>
    let '(m1, b) := step m a in
    let '(m2, bs) := run m1 l' in
    (m2, b :: bs)
  end.

(** Start attempts for one device whose launches all succeed; an
    attempt is its session id, the pid [Popen] would give, and a time. *)
Definition start_attempts (d : string) (l : list (nat * nat * nat)) : list action :=
  map (fun '(sid, pid, now) => Start d sid (Some pid) now) l.

(** Repeated stop calls for one device. *)
Definition stop_attempts (d : string) (l : list wait_outcome) : list action :=
  map (Stop d) l.

Definition successes (l : list (option bool)) : nat :=
  length (filter (fun b => b = Some true) l).

(** The registry points at objects of the right device, and every
    running worker object is the registered one of its device. *)
Definition registry_ok (m : ProcessManager) : Prop :=
  (forall d r, workers m !! d = Some r ->
     exists w, heap m !! r = Some w /\ device_id w = d) /\
  (forall r w, heap m !! r = Some w -> is_running w = true ->
     workers m !! device_id w = Some r).

(** The managers a process can be in: those an empty manager gets to by
    some sequence of actions. *)
Definition reachable_manager (m : ProcessManager) : Prop :=
  exists trace, m = fst (run empty_manager trace).

(** ** Sample data *)

(** One capture started for cam-1. *)
Definition one_capture : ProcessManager :=
  fst (run empty_manager [Start "cam-1" 1 (Some 4242) 0]).

(** The capture for cam-1 was started and its process has exited: the
    reader thread of the worker at address [r] saw the pipe close. *)
Definition crashed_capture (r : nat) : ProcessManager :=
  fst (run empty_manager [Start "cam-1" 1 (Some 4242) 0; StdoutClosed r]).

End Supervisor.

(* ===================================================================== *)
(** * Ingestion                                                           *)
(* ===================================================================== *)

Module Ingest.
Import Reader.

(** [models.EventData]. *)
Record EventData := Event {
  timestamp : string;
  student_id : option string;
  face_match_confidence : option R;
  emotion : string;
  emotion_confidence : R;
  probabilities : list (string * R);
  metrics : list (string * R);
  ear : option R;
  head_pose : option (list (string * R));
  source_device : string;
  raw : option (list (string * json))
}.

(** [models.IngestRequest]: a batch, or the fields of one event. *)
Record IngestRequest := Request {
  req_events : option (list EventData);
  req_timestamp : option string;
  req_student_id : option string;
  req_face_match_confidence : option R;
  req_emotion : option string;
  req_emotion_confidence : option R;
  req_probabilities : option (list (string * R));
  req_metrics : option (list (string * R));
  req_ear : option R;
  req_head_pose : option (list (string * R));
  req_source_device : option string;
  req_raw : option (list (string * json))
}.

(** [models.IngestResponse]. *)
Record IngestResponse := Response {
  status : string;
  inserted : nat;
  message : option string
}.

(** What the endpoint answers: the response model, or an
    [HTTPException] with status 400. *)
Inductive reply :=
| Ok (r : IngestResponse)
| BadRequest (detail : string).

(** What lies outside the process: the rows of table [events] with the
    time stored for each, the lines of the fallback file, the messages
    published on the relay with their channel, and the error log. *)
Record World := Mk {
  events_table : list (Z * EventData);
  fallback_log : list EventData;
  relay : list (string * EventData);
  error_log : list string
}.

Definition empty_world : World := Mk [] [] [] [].

(** How the outside answers while one event is handled: does
    [db.execute] succeed, does the publish on the relay succeed, does
    the write to the fallback file succeed, and the clock. *)
Record Env := MkEnv {
  db_ok : bool;
  publish_ok : bool;
  fallback_ok : bool;
  utcnow : Z
}.

(** [logger.error]; the log keeps the fixed part of each message, not
    the text of the exception that follows it. *)
Definition log_error (w : World) (msg : string) : World :=
  {| events_table := events_table w; fallback_log := fallback_log w;
     relay := relay w; error_log := error_log w ++ [msg] |}.

(** [s.replace('Z', '+00:00')]. *)
Fixpoint replace_Z (s : string) : string :=
  match s with
  | EmptyString => EmptyString
  | String c s' =>
    if Ascii.eqb c "Z" then "+00:00" +:+ replace_Z s'
    else String c (replace_Z s')
  end.

(** [x or d] on an optional string. *)
Definition or_string (x : option string) (d : string) : string :=
  match x with
  | Some (String c s) => String c s
  | _ => d
  end.

(** [x or d] on an optional dict. *)
Definition or_dict {A} (x : option (list A)) : list A :=
  match x with
  | Some l => l
  | None => []
  end.

Section ingest.

(** [datetime.fromisoformat]: [None] is [ValueError]. *)
Variable fromisoformat : string -> option Z.

(** [datetime.isoformat]. *)
Variable isoformat : Z -> string.

(** [EventData] built from the payload dict: [None] is a validation
    error. *)
Variable EventData_of : list (string * json) -> option EventData.

(** [str(e)] of the validation error that [EventData(...)] raises on
    the fields of a request. *)
Variable validation_error : IngestRequest -> string.

(** [insert_event]. *)
Definition insert_event (e : Env) (w : World) (event : EventData) : World * bool :=
  if db_ok e then
    let ts :=
      match fromisoformat (replace_Z (timestamp event)) with
      | Some t => t
      | None => utcnow e
      end in
    ({| events_table := events_table w ++ [(ts, event)];
        fallback_log := fallback_log w;
        relay := relay w; error_log := error_log w |}, true)
  else (log_error w "Failed to insert event", false).

(** [publisher.publish_event]: never raises. *)
Definition publish_event (e : Env) (w : World) (device : string) (event : EventData)
  : World :=
  if publish_ok e then
    {| events_table := events_table w; fallback_log := fallback_log w;
       relay := relay w ++ [("live:" +:+ device, event)];
       error_log := error_log w |}
  else log_error w "Failed to publish to Redis".

(** [write_to_fallback]: never raises. *)
Definition write_to_fallback (e : Env) (w : World) (event : EventData) : World :=
  if fallback_ok e then
    {| events_table := events_table w;
       fallback_log := fallback_log w ++ [event];
       relay := relay w; error_log := error_log w |}
  else log_error w "Failed to write to fallback".

(** The [for event in events] loop of [ingest]; [env i] is the outside
    while the event at position [i] of the batch is handled. *)
Fixpoint ingest_loop (env : nat -> Env) (i : nat) (w : World)
    (events : list EventData) (ins failed : nat) : World * nat * nat :=
  match events with
  | [] => (w, ins, failed)
  | event :: rest =>
    let '(w1, success) := insert_event (env i) w event in
    if success then
      ingest_loop env (S i) (publish_event (env i) w1 (source_device event) event)
        rest (S ins) failed
    else
      ingest_loop env (S i) (write_to_fallback (env i) w1 event)
        rest ins (S failed)
  end.

(** The single event of a request without a batch; [None] is the
    validation error of [EventData(...)]. *)
Definition single_event (now : Z) (req : IngestRequest) : option EventData :=
  match req_emotion req, req_emotion_confidence req with
  | Some emo, Some conf =>
    Some {| timestamp := or_string (req_timestamp req) (isoformat now);
            student_id := req_student_id req;
            face_match_confidence := req_face_match_confidence req;
            emotion := emo;
            emotion_confidence := conf;
            probabilities := or_dict (req_probabilities req);
            metrics := or_dict (req_metrics req);
            ear := req_ear req;
            head_pose := req_head_pose req;
            source_device := or_string (req_source_device req) "default";
            raw := req_raw req |}
  | _, _ => None
  end.

(** The list [events] that [ingest] goes through. *)
Definition events_of (now : Z) (req : IngestRequest)
  : option (list EventData) :=
  match req_events req with
  | Some (e :: l) => Some (e :: l)
  | _ =>
    match single_event now req with
    | Some e => Some [e]
    | None => None
    end
  end.

(** [ingest], after the key check. *)
Definition ingest (env : nat -> Env) (now : Z) (w : World) (req : IngestRequest)
  : World * reply :=
  match events_of now req with
  | None =>
    (log_error w "Failed to parse single event",
     BadRequest ("Invalid event data: " +:+ validation_error req))
  | Some events =>
    let '(w', ins, failed) := ingest_loop env 0 w events 0 0 in
    (w', Ok {| status := "ok"; inserted := ins;
               message :=
                 if (0 <? failed)%nat
                 then Some (pretty failed +:+ " events written to fallback")
                 else None |})
  end.

(** The callback [on_event] that [start_capture] gives to the worker
    of [device]. *)
Definition on_event (e : Env) (w : World) (device : string)
    (event_payload : list (string * json)) : World :=
  let p1 :=
    setdefault "timestamp"
      (match List.find (fun kv => String.eqb (fst kv) "timestamp") event_payload with
       | Some kv => snd kv
       | None => JNull
       end) event_payload in
  let p2 := setdefault "source_device" (JStr device) p1 in
  match EventData_of p2 with
  | None => log_error w "Invalid event payload"
  | Some event =>
    let '(w1, success) := insert_event e w event in
    if success then publish_event e w1 device event
    else log_error w1 "Failed to insert event"
  end.

End ingest.

(** How many of the first [n] events of a batch the database takes. *)
Definition persisted (env : nat -> Env) (i n : nat) : nat :=
  length (filter (fun j => db_ok (env j) = true) (seq i n)).

(** The events of a batch that end up in the fallback file: those the
    database refuses while the file can be written. *)
Fixpoint fallen_back (env : nat -> Env) (i : nat) (events : list EventData)
  : list EventData :=
  match events with
  | [] => []
  | ev :: rest =>
    if negb (db_ok (env i)) && fallback_ok (env i)
    then ev :: fallen_back env (S i) rest
    else fallen_back env (S i) rest
  end.

(** ** Sample data *)

Definition sample_event (dev : string) : EventData :=
  {| timestamp := "2024-01-01T00:00:00Z";
     student_id := None; face_match_confidence := None;
     emotion := "Happy"; emotion_confidence := 1%R;
     probabilities := []; metrics := [];
     ear := None; head_pose := None;
     source_device := dev; raw := None |}.

Definition sample_payload : list (string * json) :=
  [("timestamp", JStr "2024-01-01T00:00:00Z"); ("emotion", JStr "Happy");
   ("emotion_confidence", JNum "1.0");
   ("probabilities", JObj []); ("metrics", JObj [])].

(** Validation as it goes for [sample_payload] once [on_event] has
    tagged it with the device cam-1. *)
Definition sample_validation (p : list (string * json)) : option EventData :=
  Some (sample_event "cam-1").

(** The database takes the first event of a batch only, and the relay
    is down throughout. *)
Definition first_only (i : nat) : Env :=
  {| db_ok := Nat.eqb i 0; publish_ok := false; fallback_ok := true;
     utcnow := 0 |}.

(** The database is down; the relay and the file system work. *)
Definition db_down : Env :=
  {| db_ok := false; publish_ok := true; fallback_ok := true; utcnow := 0 |}.

(** A request whose batch is empty and which carries the fields of one
    Happy event. *)
Definition empty_batch_request : IngestRequest :=
  {| req_events := Some []; req_timestamp := Some "2024-01-01T00:00:00Z";
     req_student_id := None; req_face_match_confidence := None;
     req_emotion := Some "Happy"; req_emotion_confidence := Some 1%R;
     req_probabilities := None; req_metrics := None; req_ear := None;
     req_head_pose := None; req_source_device := None; req_raw := None |}.

Definition batch_request (events : list EventData) : IngestRequest :=
  {| req_events := Some events; req_timestamp := None; req_student_id := None;
     req_face_match_confidence := None; req_emotion := None;
     req_emotion_confidence := None; req_probabilities := None;
     req_metrics := None; req_ear := None; req_head_pose := None;
     req_source_device := None; req_raw := None |}.

End Ingest.

(* ===================================================================== *)
(** * Fan-out to live subscribers                                         *)
(* ===================================================================== *)

Module Fanout.

(** What is done to sockets and to the registry, in order: a
    [send_text] on a socket, with [ok] telling whether the call came
    back to its caller without an exception, and the removal of a
    socket from its room by [disconnect]. *)
Inductive effect :=
| Sent (ws : nat) (message : string) (ok : bool)
| Removed (ws : nat).

(** The sockets of a room; a room that is not a key has none. *)
Definition subscribers (ac : gmap string (gset nat)) (room : string) : gset nat :=
  default ∅ (ac !! room).

(** [ConnectionManager.connect], after [accept]. *)
Definition connect (ac : gmap string (gset nat)) (ws : nat) (room : string)
  : gmap string (gset nat) :=
  <[room := subscribers ac room ∪ {[ws]}]> ac.

(** [ConnectionManager.disconnect]. *)
Definition disconnect (ac : gmap string (gset nat)) (ws : nat) (room : string)
  : gmap string (gset nat) :=
  match ac !! room with
  | None => ac
  | Some s =>
    if decide (s ∖ {[ws]} = ∅)
    then delete room ac
    else <[room := s ∖ {[ws]}]> ac
  end.

(** ** The loop of [broadcast_to_room]

    [for connection in self.active_connections[room]] walks the set
    object of the room itself, not a copy, and the loop body awaits
    [send_text]: while a broadcast is suspended there, other coroutines
    run and may change that very set.  A set iterator compares the size
    of its set with the size it saw when the loop began each time it is
    asked for the next element, and raises [RuntimeError] when they
    differ. *)

(** The iterator of the loop.  [it_used] is the size of the set when
    the loop began and [it_todo] the sockets not yet reached, in the
    order of the table, for which the order of [elements] stands.  [it_attached] tells whether the set is still
    the one registered for the room: [disconnect] deletes the entry of
    a room once its set is empty, and a later [connect] registers a new
    set, so a detached set is empty and stays so.  [it_changed] tells
    whether the set has gained or lost a socket since the loop
    began. *)
Record set_iterator := Iter {
  it_used : nat;
  it_todo : list nat;
  it_attached : bool;
  it_changed : bool
}.

(** A [broadcast_to_room] suspended in
    [await connection.send_text(message)]. *)
Record broadcast := Bc {
  bc_message : string;
  bc_connection : nat;
  bc_iter : set_iterator;
  bc_disconnected : gset nat
}.

(** ** The forwarding tasks of [websocket_live] *)

Inductive task_state :=
| Listening      (* in [connect_redis], [subscribe] or [listen()] *)
| Sending (b : broadcast)
| Unsubscribing  (* left the loop, in [pubsub.unsubscribe] *)
| Unsubscribed   (* returned after [unsubscribe] *)
| Cancelled      (* ended by the [CancelledError] of [task.cancel()] *)
| Failed.        (* ended in the [except Exception] branch *)

(** A task made by [asyncio.create_task(manager.subscribe_and_forward(room))]
    in the handler of socket [owner].  [cancel_requested] is set by
    [subscription_task.cancel()] until the task is run with the
    [CancelledError]; [handler_done] tells that the handler has left
    its [try] statement. *)
Record task := Task {
  task_room : string;
  owner : nat;
  state : task_state;
  cancel_requested : bool;
  handler_done : bool
}.

Record Server := Srv {
  active_connections : gmap string (gset nat);
  tasks : list task;
  effects : list effect
}.

Definition empty_server : Server := Srv ∅ [] [].

Definition set_state (t : task) (st : task_state) : task :=
  {| task_room := task_room t; owner := owner t; state := st;
     cancel_requested := cancel_requested t; handler_done := handler_done t |}.

Definition set_task_state (sv : Server) (tid : nat) (st : task_state) : Server :=
  {| active_connections := active_connections sv;
     tasks := alter (fun t => set_state t st) tid (tasks sv);
     effects := effects sv |}.

Definition add_effect (sv : Server) (e : effect) : Server :=
  {| active_connections := active_connections sv;
     tasks := tasks sv;
     effects := effects sv ++ [e] |}.

(** What a change of the set registered for a room means to a loop
    that walks it. *)
Definition touch_iter (changed removed : bool) (it : set_iterator) : set_iterator :=
  if it_attached it
  then {| it_used := it_used it; it_todo := it_todo it;
          it_attached := negb removed;
          it_changed := it_changed it || changed |}
  else it.

Definition touch_task (room : string) (changed removed : bool) (t : task) : task :=
  match state t with
  | Sending b =>
    if bool_decide (task_room t = room)
    then set_state t
           (Sending {| bc_message := bc_message b;
                       bc_connection := bc_connection b;
                       bc_iter := touch_iter changed removed (bc_iter b);
                       bc_disconnected := bc_disconnected b |})
    else t
  | _ => t
  end.

(** [connect] as the suspended broadcasts see it: the set of the room
    changes when the room has one and [ws] is new to it. *)
Definition registry_connect (sv : Server) (ws : nat) (room : string) : Server :=
  let ac := active_connections sv in
  let changed :=
    bool_decide (is_Some (ac !! room) /\ ws ∉ subscribers ac room) in
  {| active_connections := connect ac ws room;
     tasks := touch_task room changed false <$> tasks sv;
     effects := effects sv |}.

(** [disconnect] as the suspended broadcasts see it. *)
Definition registry_disconnect (sv : Server) (ws : nat) (room : string) : Server :=
  let ac := active_connections sv in
  let changed := bool_decide (ws ∈ subscribers ac room) in
  let removed :=
    bool_decide (is_Some (ac !! room) /\ disconnect ac ws room !! room = None) in
  {| active_connections := disconnect ac ws room;
     tasks := touch_task room changed removed <$> tasks sv;
     effects := effects sv ++ [Removed ws] |}.

(** The set a loop walks: the registered one while attached. *)
Definition iterated_set (ac : gmap string (gset nat)) (room : string)
    (it : set_iterator) : gset nat :=
  if it_attached it then subscribers ac room else ∅.

Inductive next_result :=
| Yield (c : nat) (it : set_iterator)
| StopIteration
| SetChangedSize.

(** [next] on the iterator.  On a set that has changed and has its old
    size again the iterator goes on through the table from where it
    was; which socket it finds there, if any, depends on the table and
    is given by [pick]. *)
Definition iter_next (ac : gmap string (gset nat)) (room : string)
    (it : set_iterator) (pick : option nat) : next_result :=
  let s := iterated_set ac room it in
  if negb (size s =? it_used it)%nat then SetChangedSize
  else if it_changed it then
    match pick with
    | Some c => if bool_decide (c ∈ s) then Yield c it else StopIteration
    | None => StopIteration
    end
  else
    match it_todo it with
    | [] => StopIteration
    | c :: rest =>
      Yield c {| it_used := it_used it; it_todo := rest;
                 it_attached := it_attached it; it_changed := false |}
    end.

(** The second loop of [broadcast_to_room]: [disconnect] for every
    socket put aside.  It has no [await]. *)
Fixpoint drop_all (sv : Server) (room : string) (conns : list nat) : Server :=
  match conns with
  | [] => sv
  | c :: rest => drop_all (registry_disconnect sv c room) room rest
  end.

(** Back in [subscribe_and_forward] after an item: leave the loop when
    the room has no socket, listen on otherwise. *)
Definition after_item (sv : Server) (tid : nat) (room : string) : Server :=
  set_task_state sv tid
    (if bool_decide (subscribers (active_connections sv) room = ∅)
     then Unsubscribing else Listening).

(** The first loop of [broadcast_to_room] from the point where the
    iterator is asked for the next socket, up to the next [send_text]
    or to the end of the turn.  The [RuntimeError] of the iterator
    leaves both loops and [broadcast_to_room] and ends the task in the
    [except Exception] branch of [subscribe_and_forward]. *)
Definition continue_loop (sv : Server) (tid : nat) (room message : string)
    (it : set_iterator) (disconnected : gset nat) (pick : option nat) : Server :=
  match iter_next (active_connections sv) room it pick with
  | Yield c it' =>
    set_task_state sv tid
      (Sending {| bc_message := message; bc_connection := c;
                  bc_iter := it'; bc_disconnected := disconnected |})
  | SetChangedSize => set_task_state sv tid Failed
  | StopIteration =>
    after_item (drop_all sv room (elements disconnected)) tid room
  end.

(** What [pubsub.listen()] yields: a published message or a
    confirmation such as the one that follows [subscribe]. *)
Inductive relay_item :=
| Message (data : string)
| Confirmation.

(** [broadcast_to_room] from its start to its first [send_text]. *)
Definition broadcast_to_room (sv : Server) (tid : nat) (room data : string) : Server :=
  match active_connections sv !! room with
  | None => after_item sv tid room
  | Some s =>
    continue_loop sv tid room data
      {| it_used := size s; it_todo := elements s;
         it_attached := true; it_changed := false |} ∅ None
  end.

(** What the event loop resumes a suspended task with: an item of
    [listen()], the return of the awaited call, an exception of class
    [Exception] raised by it, or the [CancelledError] of a requested
    cancellation, which is a [BaseException]. *)
Inductive wakeup :=
| Item (item : relay_item)
| Returned
| Raised
| CancelledError.

Definition clear_cancel (t : task) : task :=
  {| task_room := task_room t; owner := owner t; state := state t;
     cancel_requested := false; handler_done := handler_done t |}.

(** [subscribe_and_forward] in task [tid], one run from the [await] it
    is suspended in to the next, [broadcast_to_room] included.  A task
    whose cancellation is requested is resumed with
    [CancelledError] and nothing else: in [listen()] and in
    [unsubscribe] the error ends it; in [send_text] the bare [except]
    of [broadcast_to_room] takes it for a failed send and the loop goes
    on. *)
Definition subscribe_and_forward (sv : Server) (tid : nat) (w : wakeup)
    (pick : option nat) : Server :=
  match tasks sv !! tid with
  | None => sv
  | Some t =>
    let room := task_room t in
    if cancel_requested t then
      match w, state t with
      | CancelledError, Sending b =>
        let sv1 :=
          {| active_connections := active_connections sv;
             tasks := alter clear_cancel tid (tasks sv);
             effects :=
               effects sv ++ [Sent (bc_connection b) (bc_message b) false] |} in
        continue_loop sv1 tid room (bc_message b) (bc_iter b)
          (bc_disconnected b ∪ {[bc_connection b]}) pick
      | CancelledError, Listening
      | CancelledError, Unsubscribing =>
        {| active_connections := active_connections sv;
           tasks := alter (fun t => set_state (clear_cancel t) Cancelled) tid
                      (tasks sv);
           effects := effects sv |}
      | _, _ => sv
      end
    else
      match w, state t with
      | Item (Message data), Listening => broadcast_to_room sv tid room data
      | Item Confirmation, Listening => after_item sv tid room
      | Returned, Listening => set_task_state sv tid Unsubscribing
      | Raised, Listening => set_task_state sv tid Failed
      | Returned, Sending b =>
        continue_loop
          (add_effect sv (Sent (bc_connection b) (bc_message b) true))
          tid room (bc_message b) (bc_iter b) (bc_disconnected b) pick
      | Raised, Sending b =>
        continue_loop
          (add_effect sv (Sent (bc_connection b) (bc_message b) false))
          tid room (bc_message b) (bc_iter b)
          (bc_disconnected b ∪ {[bc_connection b]}) pick
      | Returned, Unsubscribing => set_task_state sv tid Unsubscribed
      | Raised, Unsubscribing => set_task_state sv tid Failed
      | _, _ => sv
      end
  end.

Definition ended (st : task_state) : bool :=
  match st with
  | Unsubscribed | Cancelled | Failed => true
  | _ => false
  end.

(** The end of the handler of the socket that owns task [tid], in
    either [except] branch: [manager.disconnect(websocket, room)] and
    [subscription_task.cancel()], which does nothing to a task that has
    ended. *)
Definition close_handler (t : task) : task :=
  {| task_room := task_room t; owner := owner t; state := state t;
     cancel_requested := negb (ended (state t));
     handler_done := true |}.

Inductive action :=
| ClientConnect (ws : nat) (room : string)
| Wake (tid : nat) (w : wakeup) (pick : option nat)
| ClientDisconnect (tid : nat).

Definition step (sv : Server) (a : action) : Server :=
  match a with
  | ClientConnect ws room =>
    let sv1 := registry_connect sv ws room in
    {| active_connections := active_connections sv1;
       tasks := tasks sv1 ++ [Task room ws Listening false false];
       effects := effects sv1 |}
  | Wake tid w pick => subscribe_and_forward sv tid w pick
  | ClientDisconnect tid =>
    match tasks sv !! tid with
    | Some t =>
      if handler_done t then sv
      else
        let sv1 := registry_disconnect sv (owner t) (task_room t) in
        {| active_connections := active_connections sv1;
           tasks := alter close_handler tid (tasks sv1);
           effects := effects sv1 |}
    | None => sv
    end
  end.

Definition run (sv : Server) (l : list action) : Server := foldl step sv l.

Definition is_listening (t : task) : bool :=
  match state t with
  | Listening => true
  | _ => false
  end.

(** The tasks of a room that are listening on the relay. *)
Definition listening (sv : Server) (room : string) : list task :=
  filter (fun t => task_room t = room /\ is_listening t = true) (tasks sv).

(** How many sockets connect in a sequence of actions. *)
Definition is_connect (a : action) : bool :=
  match a with
  | ClientConnect _ _ => true
  | _ => false
  end.

Definition connects (l : list action) : nat :=
  length (filter (fun a => is_connect a = true) l).

(** ** Sample data *)

Definition two_clients : Server :=
  run empty_server [ClientConnect 1 "cam-1"; ClientConnect 2 "cam-1"].

Definition four_clients : Server :=
  run empty_server
    [ClientConnect 1 "cam-1"; ClientConnect 2 "cam-1";
     ClientConnect 3 "cam-1"; ClientConnect 4 "cam-1"].

End Fanout.

(* ===================================================================== *)
(** * More of the capture program: classifier output, repeated compute    *)
(* ===================================================================== *)

Module MetricsExt.
Import Metrics.
Local Open Scope R_scope.

(** [LABELS] of [emotion_monitor.py]. *)
Definition LABELS : list string :=
  ["Happy"; "Sad"; "Angry"; "Surprise"; "Fear"; "Disgust"; "Neutral"].

(** [np.max] of a one-dimensional array; [None] is the [ValueError] on
    an empty one. *)
Definition np_max (l : list R) : option R :=
  match l with
  | [] => None
  | x :: rest => Some (fold_left Rmax rest x)
  end.

(** [softmax]: [e = np.exp(x - np.max(x)); return e / e.sum()]. *)
Definition softmax (x : list R) : option (list R) :=
  match np_max x with
  | None => None
  | Some m =>
    let e := map (fun xi => exp (xi - m)) x in
    Some (map (fun ei => ei / rsum e) e)
  end.

(** [np.argmax]: the first index that holds the largest entry. *)
Fixpoint argmax_from (best_i : nat) (best : R) (i : nat) (l : list R) : nat :=
  match l with
  | [] => best_i
  | x :: rest =>
    if Rlt_dec best x
    then argmax_from i x (S i) rest
    else argmax_from best_i best (S i) rest
  end.

Definition argmax (l : list R) : option nat :=
  match l with
  | [] => None
  | x :: rest => Some (argmax_from 0 x 1 rest)
  end.

(** The end of [predict_from_model], from the logits the model gives
    for one face: the probabilities, the winning label and its
    probability.  [None] is an exception ([ValueError] on no logits,
    [IndexError] when the winner has no label). *)
Definition predict_from_logits (logits : list R) : option (list R * string * R) :=
  match softmax logits with
  | None => None
  | Some probs =>
    match argmax probs with
    | None => None
    | Some idx =>
      match LABELS !! idx with
      | None => None
      | Some label => Some (probs, label, nth idx probs 0)
      end
    end
  end.

(** An engine built with [MetricsEngine(short_w=1, long_w=0)] after one
    Happy sample was pushed: the short window is full, the long window
    can hold nothing. *)
Definition one_slot_engine : MetricsEngine :=
  {| short_w := 1; long_w := 0; ema_alpha := 0.2;
     buf := [happy_sample]; long_buf := []; center_vel := [0];
     prev_center := None; eng_ema := None |}.

(** The eye-aspect-ratio readings of a window. *)
Definition ears_of (w : list sample) : list R := omap ear w.

End MetricsExt.

(* ===================================================================== *)
(** * More of the worker and its supervisor                               *)
(* ===================================================================== *)

Module SupervisorExt.
Import Reader Supervisor.

(** The text a line leaves in the debug log, if any: the line is not
    blank and is not JSON. *)
Definition diagnostic_of_line (json_loads : string -> option json) (raw : string)
  : option string :=
  if is_empty (strip raw) then None
  else
    match json_loads (strip raw) with
    | None => Some (strip raw)
    | Some _ => None
    end.

(** An event that names its source. *)
Definition has_source (e : json) : Prop :=
  exists fields, e = JObj fields /\ In "source_device" (map fst fields).

(** The dict [CaptureWorker.get_status] returns. *)
Record WorkerStatus := Status {
  st_device_id : string;
  st_session_id : option nat;
  st_is_running : bool;
  st_events_count : nat;
  st_error_count : nat;
  st_started_at : option nat;
  st_uptime : Z;
  st_pid : option nat
}.

(** [CaptureWorker.get_status] at time [now]; a start time of 0 counts
    as no start time, as [if self.started_at] has it. *)
Definition worker_status (w : CaptureWorker) (now : nat) : WorkerStatus :=
  {| st_device_id := device_id w;
     st_session_id := session_id w;
     st_is_running := is_running w;
     st_events_count := events_count w;
     st_error_count := error_count w;
     st_started_at := started_at w;
     st_uptime :=
       match started_at w with
       | Some (S t) => (Z.of_nat now - Z.of_nat (S t))%Z
       | _ => 0%Z
       end;
     st_pid := process w |}.

(** [ProcessManager.get_status]. *)
Definition get_status (m : ProcessManager) (d : string) (now : nat)
  : option WorkerStatus :=
  match get_worker m d with
  | Some w => Some (worker_status w now)
  | None => None
  end.

(** [ProcessManager.get_all_status]. *)
Definition get_all_status (m : ProcessManager) (now : nat)
  : gmap string WorkerStatus :=
  omap (fun r => (fun w => worker_status w now) <$> heap m !! r) (workers m).

(** What [GET /capture/status/{device_id}] answers: the status dict, or
    the dict that says no capture is active. *)
Inductive status_reply :=
| Active (s : WorkerStatus)
| NoActiveCapture (device : string) (running : bool) (message : string).

(** [capture.get_capture_status]. *)
Definition get_capture_status (m : ProcessManager) (d : string) (now : nat)
  : status_reply :=
  match get_status m d now with
  | Some s => Active s
  | None => NoActiveCapture d false "No active capture"
  end.

Definition reply_is_running (r : status_reply) : bool :=
  match r with
  | Active s => st_is_running s
  | NoActiveCapture _ running _ => running
  end.

(** [ProcessManager.stop_all]: [stop_capture] for every key of the
    registry as it is when the call begins; [outcome d] is how the stop
    of the process of [d] ends.  The keys are taken in the order of the
    map; the code takes them in the order the devices were registered,
    so the signals to different processes may be sent in another
    order. *)
Definition stop_all (m : ProcessManager) (outcome : string -> wait_outcome)
  : ProcessManager :=
  foldl (fun m' d => fst (stop_capture m' d (outcome d))) m
    (map fst (map_to_list (workers m))).

(** The whole run of the stdout reader thread of the worker at address
    [r], from the first line to the end of the stream. *)
Definition reader_finished (json_loads : string -> option json) (loop_open : bool)
    (m : ProcessManager) (r : nat) (lines : list string) : ProcessManager :=
  {| heap := alter (fun w => fst (read_stdout json_loads loop_open w lines)) r (heap m);
     workers := workers m;
     launched := launched m;
     signals := signals m |}.

Definition signal_pid (sg : signal) : nat :=
  match sg with
  | SIGTERM pid => pid
  | SIGKILL pid => pid
  end.

(** Running workers have a process, every process of a worker was
    launched for its device, and signals went to launched processes
    only. *)
Definition heap_ok (m : ProcessManager) : Prop :=
  (forall r w, heap m !! r = Some w -> is_running w = true -> process w <> None) /\
  (forall r w pid, heap m !! r = Some w -> process w = Some pid ->
     In (device_id w, pid) (launched m)) /\
  (forall sg, In sg (signals m) -> In (signal_pid sg) (map snd (launched m))).

(** ** Sample data *)

(** A capture for cam-1 that was started and then stopped, the
    process exiting in time. *)
Definition stopped_capture : ProcessManager :=
  fst (run empty_manager [Start "cam-1" 1 (Some 4242) 0; Stop "cam-1" Exited]).

(** The signals a stop sends to the process [pid], by outcome. *)
Definition stop_signals_for (pid : nat) (o : wait_outcome) : list signal :=
  match o with
  | Exited => [SIGTERM pid]
  | TimedOut => [SIGTERM pid; SIGKILL pid]
  | TerminateFailed => []
  | WaitFailed => [SIGTERM pid]
  end.

(** Three events and the end of the stream. *)
Definition three_events : list string :=
  ["{}" +:+ nl; "{}" +:+ nl; "{}" +:+ nl].

End SupervisorExt.

(* ===================================================================== *)
(** * More of ingestion                                                   *)
(* ===================================================================== *)

Module IngestExt.
Import Reader Ingest.

(** The events of a batch the database takes, in batch order. *)
Fixpoint stored (env : nat -> Env) (i : nat) (events : list EventData)
  : list EventData :=
  match events with
  | [] => []
  | ev :: rest =>
    if db_ok (env i) then ev :: stored env (S i) rest
    else stored env (S i) rest
  end.

(** The messages a batch puts on the relay, in batch order: one for
    every stored event while the relay works, on the channel of the
    event's device. *)
Fixpoint published (env : nat -> Env) (i : nat) (events : list EventData)
  : list (string * EventData) :=
  match events with
  | [] => []
  | ev :: rest =>
    if db_ok (env i) && publish_ok (env i)
    then ("live:" +:+ source_device ev, ev) :: published env (S i) rest
    else published env (S i) rest
  end.

(** The events of a batch that are lost: refused by the database while
    the fallback file cannot be written. *)
Fixpoint lost (env : nat -> Env) (i : nat) (events : list EventData)
  : list EventData :=
  match events with
  | [] => []
  | ev :: rest =>
    if negb (db_ok (env i)) && negb (fallback_ok (env i))
    then ev :: lost env (S i) rest
    else lost env (S i) rest
  end.

(** A request that carries no batch: [events] is missing or empty. *)
Definition no_batch (req : IngestRequest) : Prop :=
  req_events req = None \/ req_events req = Some [].

(** A request for one Happy event from [dev], the other fields left
    out. *)
Definition single_request (dev : option string) : IngestRequest :=
  {| req_events := Some []; req_timestamp := None; req_student_id := None;
     req_face_match_confidence := None; req_emotion := Some "Happy";
     req_emotion_confidence := Some 1%R; req_probabilities := None;
     req_metrics := None; req_ear := None; req_head_pose := None;
     req_source_device := dev; req_raw := None |}.

(** Everything works. *)
Definition all_up (i : nat) : Env :=
  {| db_ok := true; publish_ok := true; fallback_ok := true; utcnow := 0 |}.

End IngestExt.

(* ===================================================================== *)
(** * More of the fan-out                                                 *)
(* ===================================================================== *)

Module FanoutExt.
Import Fanout.

(** No room of the registry is kept without a socket. *)
Definition no_empty_room (ac : gmap string (gset nat)) : Prop :=
  forall room s, ac !! room = Some s -> s <> ∅.

(** How a [send_text] that is awaited comes back. *)
Definition outcome_wakeup (ok : bool) : wakeup :=
  if ok then Returned else Raised.

(** A broadcast of [message] by task [tid] during which nothing else
    runs: the message arrives from the relay and the sends come back
    one after the other, as [outcomes] say. *)
Definition solitary_broadcast (tid : nat) (message : string)
    (outcomes : list bool) : list action :=
  Wake tid (Item (Message message)) None
  :: map (fun ok => Wake tid (outcome_wakeup ok) None) outcomes.

(** The sockets of [conns] whose send raised. *)
Fixpoint failed_of (conns : list nat) (outcomes : list bool) : gset nat :=
  match conns, outcomes with
  | c :: cs, ok :: oks => (if ok then ∅ else {[c]}) ∪ failed_of cs oks
  | _, _ => ∅
  end.

End FanoutExt.

(** * [BlinkTracker] of [pose_and_blink.py]

    The tracker the capture loop of [emotion_monitor.py] updates once
    per frame with a face.  [time.time()] is an argument of the methods
    that read it. *)
Module Blink.
Local Open Scope R_scope.

Record BlinkTracker := {
  ear_thresh : R;
  debounce_frames : Z;
  window_seconds : R;
  _frame_below : Z;
  _last_blink_ts : list R;
  _is_closed : bool
}.

(** [BlinkTracker.__init__]. *)
Definition init (ear_thresh : R) (debounce_frames : Z) (window_seconds : R)
    : BlinkTracker :=
  {| ear_thresh := ear_thresh;
     debounce_frames := debounce_frames;
     window_seconds := window_seconds;
     _frame_below := 0;
     _last_blink_ts := [];
     _is_closed := false |}.

Definition default_tracker : BlinkTracker := init 0.20 3 60.

(** The purge loop of [update]:
    [while ts and (now - ts[0]) > window_seconds: ts.popleft()]. *)
Fixpoint purge (now window : R) (ts : list R) : list R :=
  match ts with
  | [] => []
  | t :: rest =>
    if Rgt_dec (now - t) window then purge now window rest else ts
  end.

(** [BlinkTracker.update]: the tracker it leaves and the value it
    returns. *)
Definition update (bt : BlinkTracker) (now ear_value : R)
    : BlinkTracker * bool :=
  let '(frame_below, ts, blink_registered) :=
    if Rlt_dec ear_value (ear_thresh bt)
    then ((_frame_below bt + 1)%Z, _last_blink_ts bt, false)
    else if (debounce_frames bt <=? _frame_below bt)%Z
         then (0%Z, _last_blink_ts bt ++ [now], true)
         else (0%Z, _last_blink_ts bt, false) in
  ({| ear_thresh := ear_thresh bt;
      debounce_frames := debounce_frames bt;
      window_seconds := window_seconds bt;
      _frame_below := frame_below;
      _last_blink_ts := purge now (window_seconds bt) ts;
      _is_closed := _is_closed bt |},
   blink_registered).

(** [BlinkTracker.blinks_per_minute]. *)
Definition blinks_per_minute (bt : BlinkTracker) (now : R) : R :=
  match _last_blink_ts bt with
  | [] => 0
  | t0 :: _ =>
    INR (length (_last_blink_ts bt)) / Rmax ((now - t0) / 60) 1
  end.

Definition recent_blinks_count (bt : BlinkTracker) : nat :=
  length (_last_blink_ts bt).

Definition is_eye_closed (bt : BlinkTracker) : bool :=
  (debounce_frames bt <=? _frame_below bt)%Z.

(** The updates of a run of frames, each with the clock reading of its
    [update] and its eye aspect ratio: the tracker after the last one
    and what each [update] returned. *)
Fixpoint run (bt : BlinkTracker) (frames : list (R * R))
    : BlinkTracker * list bool :=
  match frames with
  | [] => (bt, [])
  | (now, ear_value) :: rest =>
    let '(bt1, r) := update bt now ear_value in
    let '(bt2, rs) := run bt1 rest in
    (bt2, r :: rs)
  end.

(** The clock readings of the updates that returned [True]. *)
Fixpoint registered (frames : list (R * R)) (regs : list bool) : list R :=
  match frames, regs with
  | (now, _) :: fs, r :: rs =>
    if r then now :: registered fs rs else registered fs rs
  | _, _ => []
  end.

(** The readings of [l] that are at most [window] before [now]. *)
Definition recent (now window : R) (l : list R) : list R :=
  List.filter (fun t => if Rgt_dec (now - t) window then false else true) l.

(** A clock that does not go back: readings from [t0] on. *)
Fixpoint nondecreasing_from (t0 : R) (l : list R) : Prop :=
  match l with
  | [] => True
  | t :: rest => t0 <= t /\ nondecreasing_from t rest
  end.

Definition nondecreasing (l : list R) : Prop :=
  match l with
  | [] => True
  | t :: rest => nondecreasing_from t rest
  end.

Fixpoint ascending (l : list R) : Prop :=
  match l with
  | [] => True
  | t :: rest => Forall (Rle t) rest /\ ascending rest
  end.

(** Three frames with the eye closed, the frame in which it opens, and
    a frame long after. *)
Definition one_blink : list (R * R) :=
  [(0, 0.1); (1, 0.1); (2, 0.1); (3, 0.3); (100, 0.3)].

End Blink.

(* ===================================================================== *)
(** * The derived metrics in the specification's words                    *)
(* ===================================================================== *)

(** The formulas of this module are written from the specification's
    section on derived metrics, as functions of the two windows alone;
    [MetricsFacts] compares what [compute] returns with them. *)
Module MetricsSpec.
Import Metrics MetricsExt.
Local Open Scope R_scope.

Fixpoint index_of (label : string) (labels : list string) : option nat :=
  match labels with
  | [] => None
  | l :: rest =>
    if String.eqb label l then Some O
    else option_map S (index_of label rest)
  end.

(** [P(label)] of a sample: the entry of its probability vector at the
    place [label] has in [LABELS]. *)
Definition P (label : string) (s : sample) : R :=
  match index_of label LABELS with
  | Some j => nth j (probs s) 0
  | None => 0
  end.

Definition numClasses : nat := length LABELS.

(** Mean class-probability over a window. *)
Definition mean_class_prob (w : list sample) : list R :=
  map (fun j => mean (map (fun s => nth j (probs s) 0) w)) (seq 0 numClasses).

(** The guard added to a probability before its logarithm. *)
Definition epsilon : R := 1 / 10 ^ 12.

Definition entropy (p : list R) : R :=
  - rsum (map (fun m => m * ln (m + epsilon)) p).

(** [boredom = clamp(0.8 * (fraction of short window labeled Neutral or
    Sad) + 0.2 * (1 - entropy(mean class-probability over short
    window) / log(numClasses)), 0, 1)]. *)
Definition spec_boredom (short : list sample) : R :=
  clip (0.8 * window_fraction short
        + 0.2 * (1 - entropy (mean_class_prob short) / ln (INR numClasses)))
       0 1.

(** [P(Angry) + P(Fear) + P(Disgust)] of a sample. *)
Definition base (s : sample) : R := P "Angry" s + P "Fear" s + P "Disgust" s.

(** [frustration = clamp(0.6 * (P(Angry) + P(Fear) + P(Disgust)) + 0.4 *
    max(0, currentBase - meanBaseOfAllButLastSample), 0, 1)], the
    probabilities being those of the newest sample; the mean is taken
    as 0 when the newest sample is the only one. *)
Definition spec_frustration (short : list sample) : R :=
  match last short with
  | None => 0
  | Some cur =>
    let others := removelast short in
    let meanBase :=
      match others with
      | [] => 0
      | _ => mean (map base others)
      end in
    clip (0.6 * base cur + 0.4 * Rmax 0 (base cur - meanBase)) 0 1
  end.

(** [volatility = clamp(mean-per-class standard deviation over short
    window / 0.5, 0, 1)]. *)
Definition spec_volatility (short : list sample) : R :=
  clip (mean_class_std short / 0.5) 0 1.

(** [risk] with more than 10 samples in the long window. *)
Definition spec_risk_long (short long : list sample) : R :=
  clip (0.5 * window_fraction long + 0.3 * spec_frustration short
        + 0.2 * clip (mean_class_std long / 0.5) 0 1) 0 1.

(** [risk] otherwise. *)
Definition spec_risk_short (short : list sample) : R :=
  clip (0.5 * spec_boredom short + 0.3 * spec_frustration short
        + 0.2 * spec_volatility short) 0 1.

(** One Happy sample and then twelve Neutral samples pushed into a
    default engine. *)
Definition thirteen_sample_engine : MetricsEngine :=
  {| short_w := 30; long_w := 300; ema_alpha := 0.2;
     buf := happy_sample :: replicate 12 neutral_sample;
     long_buf := happy_sample :: replicate 12 neutral_sample;
     center_vel := replicate 13 0;
     prev_center := None; eng_ema := None |}.

End MetricsSpec.

(* ===================================================================== *)
(** * The engagement average in double precision                          *)
(* ===================================================================== *)

(** The lines of [compute] that produce [engagement], on IEEE 754
    binary64 numbers with round-to-nearest, which is what Python floats
    and [np.float64] are.  The operations are in the order Python
    evaluates them. *)
Module MetricsF64.
Import PrimFloat.
#[local] Set Warnings "-inexact-float".
Local Open Scope float_scope.

(** [np.clip(x, lo, hi)] on numbers that are not NaN. *)
Definition clip (x lo hi : float) : float :=
  let t := if lo <? x then x else lo in
  if t <? hi then t else hi.

Definition att_of (cur : list float) : float :=
  match cur with
  | [pH; pSad; pAng; pSur; pFea; pDis; pNeu] =>
    clip (0.6 * pSur + 0.35 * pNeu - 0.25 * (pSad + pAng + pFea + pDis)) 0 1
  | _ => 0
  end.

Definition pos_of (cur : list float) : float :=
  match cur with
  | [pH; pSad; pAng; pSur; pFea; pDis; pNeu] =>
    clip ((pH * 1 + pNeu * 0.2 - pSad * 0.6 - pAng * 0.6 - pDis * 0.5
           - pFea * 0.4 + pSur * 0.15 + 0.6) / 1.6) 0 1
  | _ => 0
  end.

Definition eng_raw_of (cur : list float) : float :=
  0.7 * att_of cur + 0.3 * pos_of cur.

Definition ema_step (alpha : float) (old : option float) (raw : float) : float :=
  match old with
  | None => raw
  | Some e => (1 - alpha) * e + alpha * raw
  end.

(** One [compute] with newest vector [cur]: the value it stores in
    [eng_ema] and the engagement it returns. *)
Definition compute_engagement (alpha : float) (old : option float)
    (cur : list float) : float * float :=
  let ema := ema_step alpha old (eng_raw_of cur) in
  (ema, clip ema 0 1).

(** The stored average after [n] calls of [compute] in a row. *)
Fixpoint compute_n (n : nat) (alpha : float) (old : option float)
    (cur : list float) : option float :=
  match n with
  | O => old
  | S k => compute_n k alpha (Some (fst (compute_engagement alpha old cur))) cur
  end.

Definition happy_probs : list float := [0.8; 0.04; 0.03; 0.03; 0.03; 0.03; 0.04].
Definition neutral_probs : list float := [0.05; 0.1; 0.05; 0.05; 0.05; 0.05; 0.65].

(** The average a default engine holds after push(Happy), compute(),
    push(Neutral) and then 142 calls of [compute]. *)
Definition stalled : float := 0x1.090e560418935p-2.

End MetricsF64.

Module MetricsFacts.
Import Metrics.
Local Open Scope R_scope.

Lemma clip_unit x : in_unit (clip x 0 1).
Proof.
  unfold in_unit, clip, Rmin, Rmax.
  repeat destruct Rle_dec; lra.
Qed.

Lemma clip_id x : in_unit x -> clip x 0 1 = x.
Proof.
  unfold in_unit, clip, Rmin, Rmax.
  repeat destruct Rle_dec; lra.
Qed.

Lemma rectangular_seven (l : list sample) :
  Forall (fun s => length (probs s) = 7%nat) l ->
  rectangular (map probs l) = true.
Proof.
  intros H. unfold rectangular.
  apply forallb_forall. intros r Hr.
  apply in_map_iff in Hr as [s [<- Hs]].
  apply Nat.eqb_eq.
  destruct l as [|s0 l']; [contradiction|].
  cbn [map ncols].
  rewrite Forall_forall in H.
  rewrite (H s), (H s0); auto.
  - now apply list_elem_of_In; left.
  - now apply list_elem_of_In.
Qed.

Lemma last_elem {A} (l : list A) x : last l = Some x -> x ∈ l.
Proof.
  intros H. apply last_Some in H as [l' ->].
  apply elem_of_app. right. now left.
Qed.

Lemma last_nonempty {A} (l : list A) : l <> [] -> exists x, last l = Some x.
Proof.
  intros H. destruct (last l) eqn:E; eauto.
  apply last_None in E. contradiction.
Qed.

Lemma att_of_unit cur : in_unit (att_of cur).
Proof.
  unfold att_of.
  destruct cur as [|a [|b [|c [|d [|e [|f [|g [|h t]]]]]]]];
    try (split; lra); apply clip_unit.
Qed.

Lemma pos_of_unit cur : in_unit (pos_of cur).
Proof.
  unfold pos_of.
  destruct cur as [|a [|b [|c [|d [|e [|f [|g [|h t]]]]]]]];
    try (split; lra); apply clip_unit.
Qed.

Lemma unit_or_zero (b : bool) x : in_unit (if b then clip x 0 1 else 0).
Proof. destruct b; [apply clip_unit | unfold in_unit; lra]. Qed.

Ltac unit_fields :=
  unfold all_in_unit; cbn;
  repeat (split;
          [first [apply clip_unit | apply att_of_unit | apply pos_of_unit
                 | apply unit_or_zero]|]);
  first [apply clip_unit | apply unit_or_zero].

Lemma wf_compute_result st :
  wf st -> buf st <> [] ->
  exists m, snd (compute st) = Result m.
Proof.
  intros (Hb & Hl & _) Hne.
  destruct (last_nonempty _ Hne) as [newest Hlast].
  unfold compute. rewrite Hlast.
  rewrite (rectangular_seven _ Hb).
  assert (Hcur : length (probs newest) = 7%nat).
  { rewrite Forall_forall in Hb. apply Hb. now apply last_elem. }
  rewrite Hcur. cbn [Nat.eqb andb negb].
  rewrite (rectangular_seven _ Hl). cbn [negb].
  destruct (10 <? length (long_buf st))%nat; cbn [snd]; eauto.
Qed.

(** C1.  On a well-formed engine whose short window holds at least one
    sample, [compute] returns the dict of the nine metrics, and each of
    attentiveness, positivity, engagement, boredom, frustration,
    volatility, distraction, fatigue and risk lies in [0,1]. *)
Theorem compute_metrics_in_unit_interval st :
  wf st -> buf st <> [] ->
  exists m, snd (compute st) = Result m /\ all_in_unit m.
Proof.
  intros Hwf Hne.
  destruct (wf_compute_result st Hwf Hne) as [m Hm].
  exists m. split; [exact Hm|].
  revert Hm. unfold compute.
  destruct (last (buf st)) as [newest|]; [|discriminate].
  destruct (negb _); [discriminate|].
  destruct (10 <? length (long_buf st))%nat.
  - destruct (negb _); [discriminate|].
    cbn [snd]. intros [= <-].
    unit_fields.
  - cbn [snd]. intros [= <-]. unit_fields.
Qed.

Lemma one_sample_engine_wf : wf one_sample_engine.
Proof.
  repeat split; cbn; try (repeat constructor); discriminate.
Defined.

Lemma compute_metrics_in_unit_interval_witness :
  wf one_sample_engine /\ buf one_sample_engine <> [] /\
  exists m, snd (compute one_sample_engine) = Result m /\ all_in_unit m.
Proof.
  split; [exact one_sample_engine_wf|].
  split; [discriminate|].
  apply (compute_metrics_in_unit_interval one_sample_engine).
  - exact one_sample_engine_wf.
  - discriminate.
Defined.

Lemma column_probs j (w : list sample) :
  column j (map probs w) = map (fun s => nth j (probs s) 0) w.
Proof. unfold column. now rewrite map_map. Qed.

Lemma mean_class_std_axis0 (w : list sample) :
  Forall (fun s => length (probs s) = 7%nat) w -> w <> [] ->
  mean (std_axis0 (map probs w)) = mean_class_std w.
Proof.
  intros Hall Hne. unfold mean_class_std, std_axis0, class_std.
  destruct w as [|s0 w']; [contradiction|].
  assert (H7 : ncols (map probs (s0 :: w')) = 7%nat).
  { cbn. now inversion Hall. }
  rewrite H7. f_equal.
  apply map_ext. intros j. now rewrite column_probs.
Qed.

Lemma removelast_map {A B} (f : A -> B) (l : list A) :
  removelast (map f l) = map f (removelast l).
Proof.
  induction l as [|x l IH]; [reflexivity|].
  destruct l as [|y l]; [reflexivity|].
  cbn [map removelast] in *. now rewrite IH.
Qed.

Lemma mean_axis0_class_prob (w : list sample) :
  Forall (fun s => length (probs s) = 7%nat) w -> w <> [] ->
  mean_axis0 (map probs w) = MetricsSpec.mean_class_prob w.
Proof.
  intros Hall Hne. unfold MetricsSpec.mean_class_prob, mean_axis0.
  destruct w as [|s0 w']; [contradiction|].
  assert (H7 : ncols (map probs (s0 :: w')) = 7%nat).
  { cbn. now inversion Hall. }
  rewrite H7. change MetricsSpec.numClasses with 7%nat.
  apply map_ext. intros j. now rewrite column_probs.
Qed.

Lemma entropy_ratio_spec (w : list sample) :
  Forall (fun s => length (probs s) = 7%nat) w -> w <> [] ->
  entropy_ratio (mean_axis0 (map probs w)) =
    MetricsSpec.entropy (MetricsSpec.mean_class_prob w)
    / ln (INR MetricsSpec.numClasses).
Proof.
  intros Hall Hne. rewrite (mean_axis0_class_prob w Hall Hne).
  unfold entropy_ratio, MetricsSpec.entropy, MetricsSpec.mean_class_prob.
  rewrite length_map, length_seq. reflexivity.
Qed.

Lemma neg_base_spec (s : sample) : neg_base (probs s) = MetricsSpec.base s.
Proof. reflexivity. Qed.

(** What [compute] puts into the frustration field. *)
Lemma frustration_spec (w : list sample) newest :
  last w = Some newest ->
  clip (0.6 * (nth 2 (probs newest) 0 + nth 4 (probs newest) 0
               + nth 5 (probs newest) 0)
        + 0.4 * Rmax 0 (nth 2 (probs newest) 0 + nth 4 (probs newest) 0
                        + nth 5 (probs newest) 0
                        - (if (1 <? length (map probs w))%nat
                           then mean (map neg_base (removelast (map probs w)))
                           else 0))) 0 1
  = MetricsSpec.spec_frustration w.
Proof.
  intros Hlast. unfold MetricsSpec.spec_frustration. rewrite Hlast.
  change (MetricsSpec.base newest)
    with (nth 2 (probs newest) 0 + nth 4 (probs newest) 0
          + nth 5 (probs newest) 0).
  rewrite removelast_map, map_map, length_map.
  destruct w as [|s0 [|s1 w']]; [discriminate|reflexivity|].
  cbn [length Nat.ltb Nat.leb removelast].
  reflexivity.
Qed.

(** C4.  [compute] picks the risk formula by the size of the long
    window.  Boredom, frustration and volatility of the result are the
    specification's functions of the short window; with more than 10
    long-window samples risk is
    clamp(0.5 * long-window Neutral/Sad fraction + 0.3 * frustration
    + 0.2 * clamp(mean per-class std-dev over the long window / 0.5)),
    with 10 or fewer it is
    clamp(0.5 * boredom + 0.3 * frustration + 0.2 * volatility). *)
Theorem risk_formula_by_long_window st :
  wf st -> buf st <> [] ->
  exists m, snd (compute st) = Result m /\
    boredom m = MetricsSpec.spec_boredom (buf st) /\
    frustration m = MetricsSpec.spec_frustration (buf st) /\
    volatility m = MetricsSpec.spec_volatility (buf st) /\
    ((10 < length (long_buf st))%nat ->
     risk m = MetricsSpec.spec_risk_long (buf st) (long_buf st)) /\
    ((length (long_buf st) <= 10)%nat ->
     risk m = MetricsSpec.spec_risk_short (buf st)).
Proof.
  intros Hwf Hne.
  destruct (wf_compute_result st Hwf Hne) as [m Hm].
  exists m. split; [exact Hm|].
  destruct Hwf as (Hb & Hl & _).
  pose proof (entropy_ratio_spec (buf st) Hb Hne) as Hent.
  pose proof (mean_class_std_axis0 (buf st) Hb Hne) as Hvol.
  revert Hm. unfold compute.
  destruct (last (buf st)) as [newest|] eqn:Hlast; [|discriminate].
  pose proof (frustration_spec (buf st) newest Hlast) as Hfr.
  destruct (negb _); [discriminate|].
  assert (Hbo : clip (neutral_sad_fraction (map top (buf st)) * 0.8
                      + (1 - entropy_ratio (mean_axis0 (map probs (buf st)))) * 0.2)
                  0 1 = MetricsSpec.spec_boredom (buf st)).
  { unfold MetricsSpec.spec_boredom, window_fraction. rewrite Hent.
    f_equal. lra. }
  destruct (10 <? length (long_buf st))%nat eqn:Hlen.
  - apply Nat.ltb_lt in Hlen.
    destruct (negb _); [discriminate|].
    cbn [snd]. intros [= <-].
    cbn [boredom frustration volatility risk].
    rewrite Hbo, Hfr, Hvol.
    repeat split; try reflexivity; [|lia].
    intros _. unfold MetricsSpec.spec_risk_long, window_fraction.
    rewrite mean_class_std_axis0; [reflexivity|exact Hl|].
    intros E. rewrite E in Hlen. cbn in Hlen. lia.
  - apply Nat.ltb_ge in Hlen.
    cbn [snd]. intros [= <-].
    cbn [boredom frustration volatility risk].
    rewrite Hbo, Hfr, Hvol.
    repeat split; try reflexivity; lia.
Qed.

Lemma thirteen_sample_engine_wf : wf MetricsSpec.thirteen_sample_engine.
Proof.
  repeat split; cbn; try (repeat constructor); discriminate.
Defined.

Lemma risk_formula_by_long_window_witness :
  wf MetricsSpec.thirteen_sample_engine /\
  exists m, snd (compute MetricsSpec.thirteen_sample_engine) = Result m /\
    frustration m =
      MetricsSpec.spec_frustration (buf MetricsSpec.thirteen_sample_engine) /\
    risk m =
      MetricsSpec.spec_risk_long (buf MetricsSpec.thirteen_sample_engine)
        (long_buf MetricsSpec.thirteen_sample_engine).
Proof.
  split; [exact thirteen_sample_engine_wf|].
  destruct (risk_formula_by_long_window MetricsSpec.thirteen_sample_engine
              thirteen_sample_engine_wf ltac:(discriminate))
    as (m & Hm & _ & Hfr & _ & Hlong & _).
  exists m. split; [exact Hm|]. split; [exact Hfr|].
  apply Hlong. cbn. lia.
Defined.

(** ** Reachable states *)

Lemma deque_append_Forall {A} (P : A -> Prop) n (d : list A) x :
  Forall P d -> P x -> Forall P (deque_append n d x).
Proof.
  intros Hd Hx. unfold deque_append.
  apply Forall_drop, Forall_app. split; [exact Hd|]. now constructor.
Qed.

Lemma deque_append_zero {A} (d : list A) x : deque_append 0 d x = [].
Proof.
  unfold deque_append. rewrite Nat.sub_0_r. apply drop_all.
Qed.

Lemma deque_append_nonempty {A} n (d : list A) x :
  (0 < n)%nat -> deque_append n d x <> [].
Proof.
  intros Hn E. apply (f_equal length) in E.
  unfold deque_append in E. rewrite length_drop in E.
  rewrite length_app in *. cbn in E. lia.
Qed.

Lemma push_fields st p t b e po now st' :
  push st p t b e po now = Some st' ->
  short_w st' = short_w st /\ long_w st' = long_w st /\
  ema_alpha st' = ema_alpha st /\ eng_ema st' = eng_ema st /\
  buf st' = deque_append (short_w st) (buf st) (Sample p t b e po now) /\
  (exists newest, last (buf st') = Some newest /\
     long_buf st' = deque_append (long_w st) (long_buf st) newest) /\
  (exists v, center_vel st' = deque_append (short_w st) (center_vel st) v).
Proof.
  unfold push.
  destruct (last (deque_append _ _ _)) as [newest|] eqn:Hlast; [|discriminate].
  destruct b as [[[[x y] w] h]|]; intros [= <-]; cbn;
    repeat split; eauto.
Qed.

Lemma push_wf st p t b e po now st' :
  wf st -> length p = 7%nat -> push st p t b e po now = Some st' -> wf st'.
Proof.
  intros (Hb & Hl & Hc) Hp Hpush.
  destruct (push_fields _ _ _ _ _ _ _ _ Hpush)
    as (_ & _ & _ & _ & Hbuf & (newest & Hlast & Hlong) & (v & Hcv)).
  assert (Hb' : Forall (fun s => length (probs s) = 7%nat) (buf st')).
  { rewrite Hbuf. now apply deque_append_Forall. }
  repeat split.
  - exact Hb'.
  - rewrite Hlong. apply deque_append_Forall; [exact Hl|].
    rewrite Forall_forall in Hb'. apply Hb'. now apply last_elem.
  - intros Hne. rewrite Hcv.
    apply deque_append_nonempty.
    destruct (short_w st); [|lia].
    rewrite Hbuf, deque_append_zero in Hne. contradiction.
Qed.

Lemma compute_fst_cases st :
  fst (compute st) = st \/
  exists newest, last (buf st) = Some newest /\
    fst (compute st) =
    set_ema st (ema_step (ema_alpha st) (eng_ema st) (eng_raw_of (probs newest))).
Proof.
  unfold compute.
  destruct (last (buf st)) as [newest|]; [|now left].
  destruct (negb _); [now left|].
  right. exists newest. split; [reflexivity|].
  destruct (10 <? length (long_buf st))%nat; [destruct (negb _)|]; reflexivity.
Qed.

Lemma compute_wf st : wf st -> wf (fst (compute st)).
Proof.
  intros H. destruct (compute_fst_cases st) as [-> | (n & _ & ->)]; exact H.
Qed.

Lemma reachable_wf sw lw a st : reachable sw lw a st -> wf st.
Proof.
  induction 1.
  - repeat split; cbn; try constructor. congruence.
  - eapply push_wf; eauto.
  - now apply compute_wf.
Qed.

Lemma reachable_alpha sw lw a st : reachable sw lw a st -> ema_alpha st = a.
Proof.
  induction 1; [reflexivity | |].
  - apply push_fields in H1. destruct H1 as (_ & _ & -> & _). exact IHreachable.
  - destruct (compute_fst_cases st) as [-> | (n & _ & ->)]; exact IHreachable.
Qed.

Lemma eng_raw_unit cur : in_unit (eng_raw_of cur).
Proof.
  unfold eng_raw_of.
  pose proof (att_of_unit cur) as [? ?].
  pose proof (pos_of_unit cur) as [? ?].
  split; lra.
Qed.

Lemma ema_step_unit a old raw :
  0 <= a <= 1 -> (forall e, old = Some e -> in_unit e) -> in_unit raw ->
  in_unit (ema_step a old raw).
Proof.
  intros Ha Hold Hraw. destruct old as [e|]; cbn; [|exact Hraw].
  destruct (Hold e eq_refl). destruct Hraw. split; nra.
Qed.

(** The stored average of a reachable engine stays in [0,1] when the
    smoothing factor does. *)
Lemma reachable_ema_unit sw lw a st :
  0 <= a <= 1 -> reachable sw lw a st ->
  forall e, eng_ema st = Some e -> in_unit e.
Proof.
  intros Ha. induction 1; intros e0 He.
  - discriminate.
  - apply push_fields in H1. destruct H1 as (_ & _ & _ & Hema & _).
    rewrite Hema in He. now apply IHreachable.
  - destruct (compute_fst_cases st) as [E | (n & _ & E)]; rewrite E in He.
    + now apply IHreachable.
    + cbn in He. injection He as <-.
      apply ema_step_unit; [|exact IHreachable|apply eng_raw_unit].
      now rewrite (reachable_alpha _ _ _ _ H).
Qed.

(** On a well-formed non-empty engine [compute] stores the stepped
    average and returns its clamp as engagement. *)
Lemma compute_wf_engagement st newest :
  wf st -> last (buf st) = Some newest ->
  fst (compute st) =
    set_ema st (ema_step (ema_alpha st) (eng_ema st) (eng_raw_of (probs newest))) /\
  exists m, snd (compute st) = Result m /\
    engagement m =
    clip (ema_step (ema_alpha st) (eng_ema st) (eng_raw_of (probs newest))) 0 1.
Proof.
  intros (Hb & Hl & _) Hlast.
  unfold compute. rewrite Hlast.
  rewrite (rectangular_seven _ Hb).
  assert (Hcur : length (probs newest) = 7%nat).
  { rewrite Forall_forall in Hb. apply Hb. now apply last_elem. }
  rewrite Hcur. cbn [Nat.eqb andb negb].
  rewrite (rectangular_seven _ Hl). cbn [negb].
  destruct (10 <? length (long_buf st))%nat; cbn [fst snd];
    (split; [reflexivity|]); eexists; (split; [reflexivity|]); reflexivity.
Qed.

Lemma reachable_ema_buf sw lw a st :
  reachable sw lw a st -> eng_ema st <> None -> buf st <> [].
Proof.
  induction 1; intros He.
  - now cbn in He.
  - apply push_fields in H1.
    destruct H1 as (_ & _ & _ & _ & _ & (n & Hlast & _) & _).
    intros E. rewrite E in Hlast. discriminate.
  - destruct (compute_fst_cases st) as [E | (n & Hlast & E)]; rewrite E in *.
    + now apply IHreachable.
    + cbn. intros E'. rewrite E' in Hlast. discriminate.
Qed.

(** C10.  [compute] mutates the engine.  In every state of an engine
    built with alpha = 0.2 whose stored engagement average is set,
    [push] leaves the average as it is, each [compute] replaces it by
    (1 - alpha) * old + alpha * raw, where raw is the raw engagement of
    the newest sample, and returns the new average clamped to [0,1]. *)
Theorem compute_steps_ema_push_keeps_it sw lw st old :
  reachable sw lw 0.2 st ->
  eng_ema st = Some old ->
  exists newest, last (buf st) = Some newest /\
    let raw := eng_raw_of (probs newest) in
    (forall p t b e po now st',
        push st p t b e po now = Some st' -> eng_ema st' = Some old) /\
    eng_ema (fst (compute st)) = Some ((1 - 0.2) * old + 0.2 * raw) /\
    eng_ema (fst (compute (fst (compute st)))) =
      Some ((1 - 0.2) * ((1 - 0.2) * old + 0.2 * raw) + 0.2 * raw) /\
    exists m,
      snd (compute st) = Result m /\
      engagement m = clip ((1 - 0.2) * old + 0.2 * raw) 0 1.
Proof.
  intros Hreach Hold.
  assert (Hne : buf st <> []).
  { apply (reachable_ema_buf _ _ _ _ Hreach). rewrite Hold. discriminate. }
  destruct (last_nonempty _ Hne) as [newest Hlast].
  exists newest. split; [exact Hlast|]. cbn zeta.
  pose proof (reachable_wf _ _ _ _ Hreach) as Hwf.
  pose proof (reachable_alpha _ _ _ _ Hreach) as Halpha.
  destruct (compute_wf_engagement st newest Hwf Hlast) as (Hst1 & m1 & Hm1 & He1).
  rewrite Halpha, Hold in Hst1, He1. cbn [ema_step] in Hst1, He1.
  split; [|split; [|split]].
  - intros p t b e po now st' Hpush.
    apply push_fields in Hpush. destruct Hpush as (_ & _ & _ & -> & _).
    exact Hold.
  - rewrite Hst1. reflexivity.
  - assert (Hwf1 : wf (fst (compute st))) by now apply compute_wf.
    assert (Hlast1 : last (buf (fst (compute st))) = Some newest).
    { rewrite Hst1. exact Hlast. }
    destruct (compute_wf_engagement _ newest Hwf1 Hlast1) as (Hst2 & _).
    rewrite Hst2, Hst1. cbn [set_ema ema_alpha eng_ema].
    rewrite Halpha. reflexivity.
  - exists m1. split; [exact Hm1|exact He1].
Qed.

Lemma two_sample_engine_reachable : reachable 30 300 0.2 two_sample_engine.
Proof.
  assert (H1 : reachable 30 300 0.2 one_sample_engine).
  { eapply (reach_push _ _ _ (init 30 300 0.2) happy_probs "Happy" None None None 0).
    - constructor.
    - reflexivity.
    - reflexivity. }
  assert (H2 : reachable 30 300 0.2 after_first_compute).
  { pose proof (reach_compute _ _ _ _ H1) as H.
    destruct (compute_wf_engagement one_sample_engine happy_sample
                one_sample_engine_wf eq_refl) as (E & _).
    rewrite E in H. exact H. }
  eapply (reach_push _ _ _ after_first_compute neutral_probs "Neutral"
            None None None 0).
  - exact H2.
  - reflexivity.
  - reflexivity.
Defined.

Lemma compute_steps_ema_push_keeps_it_witness :
  reachable 30 300 0.2 two_sample_engine /\
  eng_ema two_sample_engine = Some (eng_raw_of happy_probs) /\
  eng_ema (fst (compute two_sample_engine)) =
    Some ((1 - 0.2) * eng_raw_of happy_probs + 0.2 * eng_raw_of neutral_probs).
Proof.
  split; [exact two_sample_engine_reachable|].
  split; [reflexivity|].
  destruct (compute_steps_ema_push_keeps_it 30 300 two_sample_engine
              (eng_raw_of happy_probs) two_sample_engine_reachable eq_refl)
    as (newest & Hlast & _ & H & _).
  cbn in Hlast. injection Hlast as <-.
  exact H.
Defined.

End MetricsFacts.

Module MetricsF64Facts.
Import PrimFloat MetricsF64.
#[local] Set Warnings "-inexact-float".
Local Open Scope float_scope.

(** C10, as first stated, fails in double precision.  A default engine
    after push(Happy), compute(), push(Neutral) and 142 more calls of
    [compute] stores an average that differs from the raw engagement of
    the newest sample, and yet the next two calls of [compute] return
    the same engagement: the rounded update gives back the stored value
    one unit in the last place below the raw value. *)
Lemma stalled_average_repeats_engagement :
  let raw := eng_raw_of neutral_probs in
  let first := compute_engagement 0.2 (Some stalled) neutral_probs in
  let second := compute_engagement 0.2 (Some (fst first)) neutral_probs in
  compute_n 142 0.2 (Some (eng_raw_of happy_probs)) neutral_probs = Some stalled /\
  (stalled =? raw) = false /\
  snd first = snd second.
Proof. vm_compute. repeat split. Qed.

End MetricsF64Facts.

Module ReaderFacts.
Import Reader.

Section facts.

Variable json_loads : string -> option json.

Lemma read_line_open w o raw :
  raw <> EmptyString ->
  exists w' o',
    read_line json_loads true w o raw = Some (w', o') /\
    device_id w' = device_id w /\ process w' = process w /\
    handed o' = handed o ++ option_list (event_of_line json_loads (device_id w) raw) /\
    events_count w' =
      events_count w + length (option_list (event_of_line json_loads (device_id w) raw)) /\
    error_count w' =
      error_count w + (if other_json_line json_loads raw then 1 else 0).
Proof.
  intros Hraw. unfold read_line, event_of_line, other_json_line.
  destruct raw as [|c raw']; [contradiction|]. cbn [is_empty].
  destruct (is_empty (strip _)); cbn [negb andb].
  { exists w, o. rewrite app_nil_r. cbn. repeat split; lia. }
  destruct (json_loads _) as [[]|]; cbn;
    eexists; eexists; (split; [reflexivity|]); cbn;
    rewrite ?app_nil_r; repeat split; lia.
Qed.

Lemma read_lines_open lines : forall w o,
  Forall (fun raw => raw <> EmptyString) lines ->
  exists w' o',
    read_lines json_loads true w o lines = (w', o') /\
    device_id w' = device_id w /\ process w' = process w /\
    handed o' = handed o ++ omap (event_of_line json_loads (device_id w)) lines /\
    events_count w' =
      events_count w + length (omap (event_of_line json_loads (device_id w)) lines) /\
    error_count w' =
      error_count w +
      length (filter (fun raw => other_json_line json_loads raw = true) lines).
Proof.
  induction lines as [|raw rest IH]; intros w o Hall.
  - exists w, o. cbn. rewrite app_nil_r. repeat split; lia.
  - inversion Hall as [|? ? Hraw Hrest]; subst.
    destruct (read_line_open w o raw Hraw)
      as (w1 & o1 & E1 & Hd1 & Hp1 & Hh1 & He1 & Hr1).
    destruct (IH w1 o1 Hrest) as (w2 & o2 & E2 & Hd2 & Hp2 & Hh2 & He2 & Hr2).
    exists w2, o2. cbn [read_lines]. rewrite E1.
    split; [exact E2|].
    rewrite Hd1 in *.
    split; [congruence|]. split; [congruence|].
    rewrite Hh2, Hh1, He2, He1, Hr2, Hr1.
    rewrite filter_cons. cbn [omap list_omap].
    split; [|split].
    + destruct (event_of_line json_loads (device_id w) raw) as [e|];
        cbn [option_list]; now rewrite <- app_assoc.
    + destruct (event_of_line json_loads (device_id w) raw) as [e|];
        simpl; lia.
    + destruct (other_json_line json_loads raw); case_decide;
        try congruence; simpl; lia.
Qed.

(** C3, as amended.  While the event loop takes work, the reader loop
    goes through every line of the stream: blank lines are skipped,
    lines that are not JSON are only logged, every line that parses to
    a JSON object is handed to the event callback in stream order and
    counted in [events_count], and a line that is valid JSON of another
    kind adds one to [error_count] and is not handed over. *)
Theorem reader_hands_over_every_object_line w pid lines :
  process w = Some pid ->
  Forall (fun raw => raw <> EmptyString) lines ->
  handed (snd (read_stdout json_loads true w lines)) =
    omap (event_of_line json_loads (device_id w)) lines /\
  events_count (fst (read_stdout json_loads true w lines)) =
    events_count w + length (omap (event_of_line json_loads (device_id w)) lines) /\
  error_count (fst (read_stdout json_loads true w lines)) =
    error_count w +
    length (filter (fun raw => other_json_line json_loads raw = true) lines) /\
  is_running (fst (read_stdout json_loads true w lines)) = false /\
  (forall raw e,
      raw ∈ lines -> event_of_line json_loads (device_id w) raw = Some e ->
      e ∈ handed (snd (read_stdout json_loads true w lines))).
Proof.
  intros Hproc Hall.
  destruct (read_lines_open lines w (Out [] []) Hall)
    as (w' & o' & E & _ & _ & Hh & He & Hr).
  unfold read_stdout. rewrite Hproc, E. cbn [fst snd handed] in *.
  repeat split; try assumption.
  intros raw e Hin Hev. rewrite Hh.
  apply list_elem_of_omap. eauto.
Qed.

End facts.

Lemma reader_hands_over_every_object_line_witness :
  process started_worker = Some 4242%nat /\
  Forall (fun raw => raw <> EmptyString) sample_lines /\
  handed (snd (read_stdout sample_loads true started_worker sample_lines)) =
    [JObj [("source_device", JStr "cam-1")]] /\
  events_count (fst (read_stdout sample_loads true started_worker sample_lines)) = 1 /\
  error_count (fst (read_stdout sample_loads true started_worker sample_lines)) = 1.
Proof.
  assert (Hlines : Forall (fun raw => raw <> EmptyString) sample_lines).
  { repeat constructor; discriminate. }
  split; [reflexivity|]. split; [exact Hlines|].
  destruct (reader_hands_over_every_object_line sample_loads started_worker
              4242%nat sample_lines eq_refl Hlines) as (Hh & He & Hr & _).
  rewrite Hh, He, Hr. repeat split; reflexivity.
Defined.

(** C3 as worded fails on a line that is valid JSON but not an object:
    the number 1 is parsed, [setdefault] raises on it, nothing is
    handed over and [events_count] stays 0 although one valid JSON line
    has been read. *)
Lemma json_number_line_not_handed_over :
  valid_json_line sample_loads ("1" +:+ nl) = true /\
  handed (snd (read_stdout sample_loads true started_worker ["1" +:+ nl])) = [] /\
  events_count (fst (read_stdout sample_loads true started_worker ["1" +:+ nl])) = 0 /\
  error_count (fst (read_stdout sample_loads true started_worker ["1" +:+ nl])) = 1.
Proof. repeat split; reflexivity. Qed.

End ReaderFacts.

Module SupervisorFacts.
Import Reader Supervisor.

Lemma manager_eta m :
  {| heap := heap m; workers := workers m;
     launched := launched m; signals := signals m |} = m.
Proof. now destruct m. Qed.

Lemma start_cases w sid popen now :
  is_running w = false ->
  (popen = None /\ start w sid popen now = (w, false, [])) \/
  (exists pid w',
      popen = Some pid /\ start w sid popen now = (w', true, [pid]) /\
      device_id w' = device_id w /\ is_running w' = true).
Proof.
  intros Hr. unfold start. rewrite Hr.
  destruct popen as [pid|]; [right|left]; eauto 10.
Qed.

Lemma stop_cases w o :
  (stop w o = (w, false, []) ) \/
  (is_running w = true /\
   exists b sigs, stop w o = (set_running w false, b, sigs)).
Proof.
  unfold stop. destruct (process w); [|now left].
  destruct (is_running w); cbn [negb]; [right|now left].
  split; [reflexivity|]. destruct o; eauto.
Qed.

Lemma fresh_not_in_heap (m : ProcessManager) w :
  heap m !! fresh (dom (heap m)) = Some w -> False.
Proof.
  intros H. apply (is_fresh (dom (heap m))).
  apply elem_of_dom. eauto.
Qed.

Lemma start_capture_keeps_registry m d sid popen now :
  registry_ok m -> registry_ok (fst (start_capture m d sid popen now)).
Proof.
  intros [Hreg Hrun]. unfold start_capture.
  destruct (running_for m d) eqn:Hfor; [now split|].
  set (r := fresh (dom (heap m))).
  assert (Hfresh : forall w, heap m !! r = Some w -> False)
    by apply fresh_not_in_heap.
  destruct (start_cases (new_worker d) sid popen now eq_refl)
    as [[_ ->] | (pid & w' & _ & -> & Hdev & Hw')]; cbn [fst].
  - split; cbn [heap workers].
    + intros d' r' Hd'. destruct (Hreg _ _ Hd') as (w & Hw & Hdw).
      exists w. split; [|exact Hdw].
      rewrite lookup_insert_ne; [exact Hw|]. intros <-. eauto.
    + intros r0 w0 H0 Hr0.
      destruct (decide (r = r0)) as [<-|Hne].
      * rewrite lookup_insert_eq in H0. injection H0 as <-. discriminate.
      * rewrite lookup_insert_ne in H0 by exact Hne. eauto.
  - cbn [device_id new_worker] in Hdev.
    split; cbn [heap workers].
    + intros d' r' Hd'.
      destruct (decide (d = d')) as [<-|Hne].
      * rewrite lookup_insert_eq in Hd'. injection Hd' as <-.
        exists w'. now rewrite lookup_insert_eq.
      * rewrite lookup_insert_ne in Hd' by exact Hne.
        destruct (Hreg _ _ Hd') as (w & Hw & Hdw).
        exists w. split; [|exact Hdw].
        rewrite lookup_insert_ne; [exact Hw|]. intros <-. eauto.
    + intros r0 w0 H0 Hr0.
      destruct (decide (r = r0)) as [<-|Hne].
      * rewrite lookup_insert_eq in H0. injection H0 as <-.
        rewrite Hdev. apply lookup_insert_eq.
      * rewrite lookup_insert_ne in H0 by exact Hne.
        pose proof (Hrun _ _ H0 Hr0) as Hw0.
        rewrite lookup_insert_ne; [exact Hw0|].
        intros Hd. rewrite <- Hd in Hw0.
        unfold running_for, get_worker in Hfor.
        rewrite Hw0 in Hfor. cbn in Hfor. rewrite H0 in Hfor. congruence.
Qed.

Lemma stop_capture_keeps_registry m d o :
  registry_ok m -> registry_ok (fst (stop_capture m d o)).
Proof.
  intros [Hreg Hrun]. unfold stop_capture.
  destruct (workers m !! d) as [r|] eqn:Hd; [|now split].
  destruct (heap m !! r) as [w|] eqn:Hw; [|now split].
  destruct (Hreg _ _ Hd) as (w1 & Hw1 & Hdev).
  assert (w1 = w) by congruence. subst w1.
  destruct (stop_cases w o) as [-> | (Hwr & b & sigs & ->)]; cbn [fst].
  - split; cbn [heap workers]; rewrite insert_id by exact Hw; assumption.
  - split; cbn [heap workers].
    + intros d' r' Hd'.
      assert (Hold : workers m !! d' = Some r').
      { destruct b; [|exact Hd'].
        apply lookup_delete_Some in Hd'. tauto. }
      destruct (Hreg _ _ Hold) as (w2 & Hw2 & Hdev2).
      destruct (decide (r = r')) as [<-|Hne].
      * exists (set_running w false). rewrite lookup_insert_eq.
        split; [reflexivity|]. cbn. congruence.
      * exists w2. now rewrite lookup_insert_ne.
    + intros r0 w0 H0 Hr0.
      destruct (decide (r = r0)) as [<-|Hne].
      * rewrite lookup_insert_eq in H0. injection H0 as <-. discriminate.
      * rewrite lookup_insert_ne in H0 by exact Hne.
        pose proof (Hrun _ _ H0 Hr0) as Hw0.
        destruct b; [|exact Hw0].
        rewrite lookup_delete_ne; [exact Hw0|].
        intros Hdd. rewrite <- Hdd in Hw0. congruence.
Qed.

Lemma stdout_closed_keeps_registry m r :
  registry_ok m -> registry_ok (stdout_closed m r).
Proof.
  intros [Hreg Hrun]. split; cbn [stdout_closed heap workers].
  - intros d' r' Hd'. destruct (Hreg _ _ Hd') as (w & Hw & Hdev).
    destruct (decide (r = r')) as [<-|Hne].
    + exists (set_running w false).
      rewrite lookup_alter_eq, Hw. now split.
    + exists w. now rewrite lookup_alter_ne.
  - intros r0 w0 H0 Hr0.
    destruct (decide (r = r0)) as [<-|Hne].
    + rewrite lookup_alter_eq in H0.
      destruct (heap m !! r); [|discriminate].
      injection H0 as <-. discriminate.
    + rewrite lookup_alter_ne in H0 by exact Hne. eauto.
Qed.

Lemma step_keeps_registry m a : registry_ok m -> registry_ok (fst (step m a)).
Proof.
  intros H. destruct a as [d sid popen now | d o | r]; cbn [step].
  - pose proof (start_capture_keeps_registry m d sid popen now H) as H'.
    destruct (start_capture m d sid popen now). exact H'.
  - pose proof (stop_capture_keeps_registry m d o H) as H'.
    destruct (stop_capture m d o). exact H'.
  - now apply stdout_closed_keeps_registry.
Qed.

Lemma run_keeps_registry l : forall m,
  registry_ok m -> registry_ok (fst (run m l)).
Proof.
  induction l as [|a l IH]; intros m H; [exact H|].
  cbn [run].
  pose proof (step_keeps_registry m a H) as H1.
  destruct (step m a) as [m1 b]. cbn [fst] in H1.
  specialize (IH m1 H1).
  destruct (run m1 l) as [m2 bs]. exact IH.
Qed.

Lemma empty_manager_ok : registry_ok empty_manager.
Proof.
  split; cbn; intros ? ? H; now rewrite lookup_empty in H.
Qed.

Lemma reachable_registry_ok m : reachable_manager m -> registry_ok m.
Proof.
  intros [trace ->]. apply run_keeps_registry, empty_manager_ok.
Qed.

Lemma start_capture_running m d sid popen now :
  running_for m d = true -> start_capture m d sid popen now = (m, false).
Proof. intros H. unfold start_capture. now rewrite H. Qed.

Lemma start_capture_first m d sid pid now :
  running_for m d = false ->
  exists m',
    start_capture m d sid (Some pid) now = (m', true) /\
    running_for m' d = true /\
    launched m' = launched m ++ [(d, pid)].
Proof.
  intros H. unfold start_capture. rewrite H. cbn.
  eexists. split; [reflexivity|]. split; [|reflexivity].
  unfold running_for, get_worker. cbn.
  rewrite lookup_insert_eq. cbn. now rewrite lookup_insert_eq.
Qed.

Lemma run_start_attempts_running d l : forall m,
  running_for m d = true ->
  run m (start_attempts d l) = (m, map (fun _ => Some false) l).
Proof.
  induction l as [|[[sid pid] now] l IH]; intros m H; [reflexivity|].
  cbn. rewrite (start_capture_running _ _ _ _ _ H).
  unfold start_attempts in IH. now rewrite (IH m H).
Qed.

Lemma successes_all_false {A} (l : list A) :
  successes (map (fun _ => Some false) l) = 0.
Proof.
  unfold successes. induction l as [|a l IH]; [reflexivity|].
  cbn [map]. rewrite filter_cons. case_decide; [discriminate|exact IH].
Qed.

(** C2.  In every manager the process can be in, two running worker
    objects of one device are the same object; a start for a device
    whose registered worker is running returns false and leaves the
    manager as it is, so nothing is launched; and of any number of
    start attempts for a device with no running worker, run one after
    the other as the event loop does, exactly one succeeds and exactly
    one process is launched, provided the launches themselves work. *)
Theorem one_running_worker_per_device m :
  reachable_manager m ->
  (forall r1 r2 w1 w2,
      heap m !! r1 = Some w1 -> heap m !! r2 = Some w2 ->
      is_running w1 = true -> is_running w2 = true ->
      device_id w1 = device_id w2 -> r1 = r2) /\
  (forall d sid popen now,
      running_for m d = true -> start_capture m d sid popen now = (m, false)) /\
  (forall d attempts,
      running_for m d = false -> attempts <> [] ->
      successes (snd (run m (start_attempts d attempts))) = 1 /\
      length (launched (fst (run m (start_attempts d attempts)))) =
        S (length (launched m))).
Proof.
  intros Hreach.
  destruct (reachable_registry_ok m Hreach) as [_ Hrun].
  split; [|split].
  - intros r1 r2 w1 w2 H1 H2 Hr1 Hr2 Hdev.
    pose proof (Hrun _ _ H1 Hr1) as E1.
    pose proof (Hrun _ _ H2 Hr2) as E2.
    rewrite Hdev in E1. congruence.
  - intros d sid popen now. apply start_capture_running.
  - intros d [|[[sid pid] now] rest] Hfor Hne; [contradiction|].
    destruct (start_capture_first m d sid pid now Hfor) as (m' & E & Hfor' & Hl).
    cbn [start_attempts map run step]. rewrite E.
    fold (start_attempts d rest).
    rewrite (run_start_attempts_running d rest m' Hfor').
    cbn [fst snd]. split.
    + unfold successes. rewrite filter_cons.
      case_decide; [|congruence]. cbn [length]. f_equal.
      apply (successes_all_false rest).
    + rewrite Hl, length_app. cbn. lia.
Qed.

Lemma one_capture_reachable : reachable_manager one_capture.
Proof. now exists [Start "cam-1" 1 (Some 4242) 0]. Defined.

Lemma one_running_worker_per_device_witness :
  reachable_manager one_capture /\
  running_for one_capture "cam-1" = true /\
  start_capture one_capture "cam-1" 2 (Some 4343) 5 = (one_capture, false) /\
  running_for one_capture "cam-2" = false /\
  successes (snd (run one_capture
                    (start_attempts "cam-2" [(2, 10, 0); (3, 11, 0); (4, 12, 0)]))) = 1.
Proof.
  destruct (one_running_worker_per_device one_capture one_capture_reachable)
    as (_ & Hrej & Hone).
  split; [exact one_capture_reachable|].
  split; [reflexivity|].
  split; [apply Hrej; reflexivity|].
  split; [reflexivity|].
  apply Hone; [reflexivity|discriminate].
Defined.

Lemma stop_not_running w o :
  is_running w = false -> stop w o = (w, false, []).
Proof.
  intros H. unfold stop. destruct (process w); [|reflexivity].
  now rewrite H.
Qed.

(** C5.  [stop_capture] for a device that has no registered worker, or
    whose worker is no longer running, returns false and leaves the
    manager exactly as it was: no signal is sent and the registry is
    untouched; the same holds for any number of further stop calls. *)
Theorem stop_capture_not_running m d :
  running_for m d = false ->
  (forall o, stop_capture m d o = (m, false)) /\
  (forall os, run m (stop_attempts d os) = (m, map (fun _ => Some false) os)).
Proof.
  intros Hfor.
  assert (Hone : forall o, stop_capture m d o = (m, false)).
  { intros o. unfold stop_capture.
    unfold running_for, get_worker in Hfor.
    destruct (workers m !! d) as [r|]; [|reflexivity]. cbn in Hfor.
    destruct (heap m !! r) as [w|] eqn:Hw; [|reflexivity].
    rewrite (stop_not_running w o Hfor).
    rewrite insert_id by exact Hw. rewrite app_nil_r.
    now rewrite manager_eta. }
  split; [exact Hone|].
  induction os as [|o os IH]; [reflexivity|].
  cbn [stop_attempts map run step]. rewrite Hone.
  fold (stop_attempts d os). now rewrite IH.
Qed.

Lemma stop_capture_not_running_witness :
  running_for (crashed_capture 0) "cam-1" = false /\
  stop_capture (crashed_capture 0) "cam-1" Exited = (crashed_capture 0, false) /\
  run (crashed_capture 0) (stop_attempts "cam-1" [Exited; TimedOut]) =
    (crashed_capture 0, [Some false; Some false]) /\
  stop_capture (crashed_capture 0) "cam-9" Exited = (crashed_capture 0, false).
Proof.
  split; [reflexivity|].
  destruct (stop_capture_not_running (crashed_capture 0) "cam-1" eq_refl)
    as [Hone Hmany].
  split; [apply Hone|].
  split; [apply (Hmany [Exited; TimedOut])|].
  apply (stop_capture_not_running (crashed_capture 0) "cam-9" eq_refl).
Defined.

End SupervisorFacts.

Module IngestFacts.
Import Reader Ingest.

Section facts.

Variable fromisoformat : string -> option Z.
Variable isoformat : Z -> string.
Variable validation_error : IngestRequest -> string.
Variable EventData_of : list (string * json) -> option EventData.

Lemma persisted_cons env i n :
  persisted env i (S n) =
  (if db_ok (env i) then 1 else 0) + persisted env (S i) n.
Proof.
  unfold persisted. cbn [seq]. rewrite filter_cons.
  destruct (db_ok (env i)); case_decide; try congruence; reflexivity.
Qed.

Lemma persisted_ext env env' i n :
  (forall j, db_ok (env' j) = db_ok (env j)) ->
  persisted env' i n = persisted env i n.
Proof.
  intros H. revert i. induction n as [|n IH]; intros i; [reflexivity|].
  now rewrite !persisted_cons, H, IH.
Qed.

Lemma persisted_le env i n : persisted env i n <= n.
Proof.
  revert i. induction n as [|n IH]; intros i; [reflexivity|].
  rewrite persisted_cons. specialize (IH (S i)).
  destruct (db_ok (env i)); lia.
Qed.

(** What the loop of [ingest] does to the counters and to the outside. *)
Lemma ingest_loop_spec env events : forall i w ins failed,
  exists w',
    ingest_loop fromisoformat env i w events ins failed =
      (w', ins + persisted env i (length events),
       failed + (length events - persisted env i (length events))) /\
    length (events_table w') =
      length (events_table w) + persisted env i (length events) /\
    fallback_log w' = fallback_log w ++ fallen_back env i events.
Proof.
  induction events as [|ev rest IH]; intros i w ins failed.
  - exists w. cbn. rewrite app_nil_r.
    split; [apply (f_equal2 pair); [apply (f_equal2 pair); [reflexivity|lia] | lia]|]. split; [lia|reflexivity].
  - cbn [ingest_loop length fallen_back]. rewrite persisted_cons.
    pose proof (persisted_le env (S i) (length rest)) as Hle.
    unfold insert_event.
    destruct (db_ok (env i)) eqn:Hdb; cbn [negb andb].
    + match goal with
      | |- context [ingest_loop _ _ _ ?w1 _ _ _] =>
        destruct (IH (S i) w1 (S ins) failed) as (w' & E & Ht & Hf)
      end.
      exists w'. rewrite E. split; [apply (f_equal2 pair); [apply (f_equal2 pair); [reflexivity|lia] | lia]|].
      split.
      * rewrite Ht. unfold publish_event, log_error.
        destruct (publish_ok (env i)); cbn; rewrite length_app; cbn; lia.
      * rewrite Hf. unfold publish_event, log_error.
        destruct (publish_ok (env i)); reflexivity.
    + match goal with
      | |- context [ingest_loop _ _ _ ?w1 _ _ _] =>
        destruct (IH (S i) w1 ins (S failed)) as (w' & E & Ht & Hf)
      end.
      exists w'. rewrite E. split; [apply (f_equal2 pair); [apply (f_equal2 pair); [reflexivity|lia] | lia]|].
      split.
      * rewrite Ht. unfold write_to_fallback, log_error.
        destruct (fallback_ok (env i)); cbn; lia.
      * rewrite Hf. unfold write_to_fallback, log_error.
        destruct (fallback_ok (env i)); cbn; [|reflexivity].
        now rewrite <- app_assoc.
Qed.

(** C7.  For a non-empty batch sent to [/ingest] the answer has status ok, its
    [inserted] is the number of events the database took, this number
    plus the number of failures is the size of the batch, and the
    answer is the same for any behaviour of the relay. *)
Theorem ingest_batch_counts env now w req ev rest :
  req_events req = Some (ev :: rest) ->
  exists w' failed,
    ingest fromisoformat isoformat validation_error env now w req =
      (w', Ok {| status := "ok";
                 inserted := persisted env 0 (S (length rest));
                 message :=
                   if (0 <? failed)%nat
                   then Some (pretty failed +:+ " events written to fallback")
                   else None |}) /\
    persisted env 0 (S (length rest)) + failed = S (length rest) /\
    length (events_table w') =
      length (events_table w) + persisted env 0 (S (length rest)) /\
    (forall env',
        (forall j, db_ok (env' j) = db_ok (env j)) ->
        snd (ingest fromisoformat isoformat validation_error env' now w req) =
        snd (ingest fromisoformat isoformat validation_error env now w req)).
Proof.
  intros Hreq.
  assert (Hev : forall e, ingest fromisoformat isoformat validation_error e now w req =
    let '(w', ins, failed) := ingest_loop fromisoformat e 0 w (ev :: rest) 0 0 in
    (w', Ok {| status := "ok"; inserted := ins;
               message :=
                 if (0 <? failed)%nat
                 then Some (pretty failed +:+ " events written to fallback")
                 else None |})).
  { intros e. unfold ingest, events_of. now rewrite Hreq. }
  pose proof (persisted_le env 0 (S (length rest))) as Hle.
  destruct (ingest_loop_spec env (ev :: rest) 0 w 0 0) as (w' & E & Ht & _).
  cbn [length] in E, Ht.
  exists w', (S (length rest) - persisted env 0 (S (length rest))).
  split; [rewrite Hev, E; reflexivity|].
  split; [lia|]. split; [exact Ht|].
  intros env' Hsame.
  destruct (ingest_loop_spec env' (ev :: rest) 0 w 0 0) as (w2 & E2 & _ & _).
  cbn [length] in E2.
  rewrite !Hev, E, E2. cbn [snd].
  now rewrite (persisted_ext env env' 0 _ Hsame).
Qed.

(** On the endpoint, every event the database refuses is appended to
    the fallback file when the file can be written. *)
Lemma ingest_falls_back env now w req ev rest :
  req_events req = Some (ev :: rest) ->
  fallback_log (fst (ingest fromisoformat isoformat validation_error env now w req)) =
    fallback_log w ++ fallen_back env 0 (ev :: rest).
Proof.
  intros Hreq. unfold ingest, events_of. rewrite Hreq.
  destruct (ingest_loop_spec env (ev :: rest) 0 w 0 0) as (w' & E & _ & Hf).
  rewrite E. exact Hf.
Qed.

(** The worker callback never writes to the fallback file, and an
    event the database refuses leaves no trace but log lines. *)
Lemma on_event_no_fallback e w device payload :
  fallback_log (on_event fromisoformat EventData_of e w device payload) =
    fallback_log w /\
  (db_ok e = false ->
   events_table (on_event fromisoformat EventData_of e w device payload) =
     events_table w /\
   relay (on_event fromisoformat EventData_of e w device payload) = relay w).
Proof.
  unfold on_event, insert_event, publish_event, log_error.
  destruct (EventData_of _); [|now split].
  destruct (db_ok e); [|now split].
  destruct (publish_ok e); split; try reflexivity; discriminate.
Qed.

End facts.

Lemma ingest_batch_counts_witness :
  exists w',
    ingest (fun _ => None) (fun _ => EmptyString) (fun _ => EmptyString) first_only 0 empty_world
      (batch_request [sample_event "cam-1"; sample_event "cam-2"]) =
    (w', Ok {| status := "ok"; inserted := 1;
               message := Some "1 events written to fallback" |}) /\
    length (events_table w') = 1.
Proof.
  destruct (ingest_batch_counts (fun _ => None) (fun _ => EmptyString) (fun _ => EmptyString)
              first_only 0 empty_world
              (batch_request [sample_event "cam-1"; sample_event "cam-2"])
              (sample_event "cam-1") [sample_event "cam-2"] eq_refl)
    as (w' & failed & E & Hsum & Ht & _).
  exists w'. split; [|exact Ht].
  rewrite E.
  assert (Hp : persisted first_only 0 (S (length [sample_event "cam-2"])) = 1)
    by reflexivity.
  rewrite Hp in Hsum |- *. cbn [length] in Hsum.
  assert (failed = 1) as -> by lia. reflexivity.
Defined.

(** C7 as first stated fails on an empty batch.  [if request.events:]
    is false for an empty list, so the request is read as one event:
    with the fields of an event beside the empty batch the answer
    reports one inserted event although the batch has none, and without
    them the answer is status 400 and reports no counts at all. *)
Lemma empty_batch_is_read_as_one_event :
  req_events empty_batch_request = Some [] /\
  snd (ingest (fun _ => None) (fun _ => EmptyString) (fun _ => "emotion")
         first_only 0 empty_world empty_batch_request) =
    Ok {| status := "ok"; inserted := 1; message := None |} /\
  req_events (batch_request []) = Some [] /\
  snd (ingest (fun _ => None) (fun _ => EmptyString) (fun _ => "emotion")
         first_only 0 empty_world (batch_request [])) =
    BadRequest "Invalid event data: emotion".
Proof. repeat split; reflexivity. Qed.

(** C6 at the failing input: the database is down and the same event
    arrives once through the worker callback and once through the
    endpoint.  The callback leaves the table, the fallback file and the
    relay empty, so the event is lost; the endpoint appends it to the
    fallback file. *)
Lemma worker_callback_drops_event_when_insert_fails :
  fallback_log (on_event (fun _ => None) sample_validation db_down empty_world
                  "cam-1" sample_payload) = [] /\
  events_table (on_event (fun _ => None) sample_validation db_down empty_world
                  "cam-1" sample_payload) = [] /\
  relay (on_event (fun _ => None) sample_validation db_down empty_world
           "cam-1" sample_payload) = [] /\
  fallback_log (fst (ingest (fun _ => None) (fun _ => EmptyString) (fun _ => EmptyString)
                       (fun _ => db_down) 0 empty_world
                       (batch_request [sample_event "cam-1"]))) =
    [sample_event "cam-1"].
Proof. repeat split; reflexivity. Qed.

End IngestFacts.

Module FanoutFacts.
Import Fanout.

#[local] Set Warnings "-clear-no-such-hyp".

Lemma subscribers_disconnect ac c room :
  subscribers (disconnect ac c room) room = subscribers ac room ∖ {[c]}.
Proof.
  unfold disconnect, subscribers.
  destruct (ac !! room) as [s|] eqn:E; cbn.
  - case_decide as Hs.
    + rewrite lookup_delete_eq. cbn. now rewrite Hs.
    + now rewrite lookup_insert_eq.
  - rewrite E. cbn. set_solver.
Qed.

Lemma disconnect_other ac c room room' :
  room' <> room -> disconnect ac c room !! room' = ac !! room'.
Proof.
  intros Hne. unfold disconnect.
  destruct (ac !! room) as [s|]; [|reflexivity].
  case_decide.
  - now rewrite lookup_delete_ne.
  - now rewrite lookup_insert_ne.
Qed.

(** C8 at the failing input.  Four sockets are in room cam-1, walked in
    the order 4, 2, 3, 1.  A message reaches the forwarding task of
    socket 2, which starts a broadcast: its send to socket 4 raises and
    is noted, and while its send to socket 2 is awaited the client of
    socket 1 disconnects.  When the send comes back the loop ends with
    the iterator's [RuntimeError]: socket 3 is not sent the message in
    this broadcast, socket 4 stays in the room, and the task has
    ended. *)
Lemma disconnect_during_broadcast_aborts_it :
  let sv :=
    run four_clients
      [Wake 1 (Item (Message "m")) None;
       Wake 1 Raised None;
       ClientDisconnect 0;
       Wake 1 Returned None] in
  elements (subscribers (active_connections four_clients) "cam-1") = [4; 2; 3; 1] /\
  effects sv = [Sent 4 "m" false; Removed 1; Sent 2 "m" true] /\
  elements (subscribers (active_connections sv) "cam-1") = [4; 2; 3] /\
  state <$> tasks sv !! 1 = Some Failed.
Proof. vm_compute. repeat split. Qed.

Lemma connects_cons a l :
  connects (a :: l) = (if is_connect a then 1 else 0) + connects l.
Proof.
  unfold connects. rewrite filter_cons.
  destruct (is_connect a); case_decide; try congruence; reflexivity.
Qed.

Lemma drop_all_tasks_length room l : forall sv,
  length (tasks (drop_all sv room l)) = length (tasks sv).
Proof.
  induction l as [|c rest IH]; intros sv; [reflexivity|].
  cbn [drop_all]. rewrite IH. cbn [registry_disconnect tasks].
  apply length_fmap.
Qed.

Lemma continue_loop_tasks_length sv tid room message it d pick :
  length (tasks (continue_loop sv tid room message it d pick)) =
  length (tasks sv).
Proof.
  unfold continue_loop, after_item, set_task_state.
  destruct (iter_next _ _ _ _); cbn [tasks];
    rewrite length_alter; [reflexivity|apply drop_all_tasks_length|reflexivity].
Qed.

Lemma wake_tasks_length sv tid w pick :
  length (tasks (subscribe_and_forward sv tid w pick)) = length (tasks sv).
Proof.
  unfold subscribe_and_forward. destruct (tasks sv !! tid) as [t|]; [|reflexivity].
  destruct (cancel_requested t).
  - destruct w as [item| | |]; try reflexivity.
    destruct (state t); try reflexivity; cbn [tasks];
      rewrite ?continue_loop_tasks_length; cbn [tasks];
      now rewrite length_alter.
  - destruct w as [[data|]| | |]; destruct (state t); try reflexivity;
      unfold broadcast_to_room, after_item, set_task_state, add_effect;
      try destruct (active_connections sv !! task_room t);
      rewrite ?continue_loop_tasks_length; cbn [tasks];
      rewrite ?length_alter; reflexivity.
Qed.

Lemma step_tasks_length sv a :
  length (tasks (step sv a)) =
  length (tasks sv) + (if is_connect a then 1 else 0).
Proof.
  destruct a as [ws room | tid w pick | tid]; cbn [step is_connect].
  - cbn [tasks registry_connect]. rewrite length_app, length_fmap. reflexivity.
  - rewrite wake_tasks_length. lia.
  - destruct (tasks sv !! tid) as [t|]; [|lia].
    destruct (handler_done t); [lia|].
    cbn [tasks registry_disconnect]. rewrite length_alter, length_fmap. lia.
Qed.

(** Every socket that connects gets a forwarding task of its own, and
    nothing else makes or removes a task. *)
Lemma run_tasks_length l : forall sv,
  length (tasks (run sv l)) = length (tasks sv) + connects l.
Proof.
  induction l as [|a l IH]; intros sv.
  - cbn. unfold connects. cbn. lia.
  - cbn [run foldl]. fold (run (step sv a) l).
    rewrite IH, step_tasks_length, connects_cons. lia.
Qed.

(** C9 at the failing input.  Two sockets connect to room cam-1: each
    handler has started a forwarding task, both tasks listen on the
    channel of the room, and one message from the relay, handed to
    both, is sent to each socket once per task. *)
Lemma two_subscribers_two_forwarding_tasks :
  elements (subscribers (active_connections two_clients) "cam-1") = [2; 1] /\
  length (listening two_clients "cam-1") = 2 /\
  effects (run two_clients
             [Wake 0 (Item (Message "m")) None;
              Wake 0 Returned None; Wake 0 Returned None;
              Wake 1 (Item (Message "m")) None;
              Wake 1 Returned None; Wake 1 Returned None]) =
    [Sent 2 "m" true; Sent 1 "m" true; Sent 2 "m" true; Sent 1 "m" true].
Proof. vm_compute. repeat split. Qed.

End FanoutFacts.

Module MetricsExtFacts.
Import Metrics MetricsFacts MetricsExt.
Local Open Scope R_scope.

Lemma deque_append_length {A} n (d : list A) x :
  length (deque_append n d x) = Nat.min (S (length d)) n.
Proof.
  unfold deque_append. rewrite length_drop, length_app. cbn [length]. lia.
Qed.

Lemma deque_append_room {A} n (d : list A) x :
  (length d < n)%nat -> deque_append n d x = d ++ [x].
Proof.
  intros H. unfold deque_append. rewrite length_app. cbn.
  replace (length d + 1 - n)%nat with 0%nat by lia. reflexivity.
Qed.

Lemma deque_append_full {A} n (d : list A) x :
  (0 < n)%nat -> length d = n -> deque_append n d x = drop 1 d ++ [x].
Proof.
  intros Hn H. unfold deque_append. rewrite length_app. cbn.
  replace (length d + 1 - n)%nat with 1%nat by lia.
  apply drop_app_le. lia.
Qed.

Lemma deque_append_last {A} n (d : list A) x y :
  last (deque_append n d x) = Some y -> y = x.
Proof.
  unfold deque_append. intros H.
  destruct (decide (length (d ++ [x]) - n <= length d)%nat) as [Hle|Hgt].
  - rewrite drop_app_le in H by exact Hle.
    rewrite last_snoc in H. congruence.
  - rewrite drop_ge in H; [discriminate|].
    rewrite length_app in *. cbn in *. lia.
Qed.

Lemma reachable_sizes sw lw a st :
  reachable sw lw a st -> short_w st = sw /\ long_w st = lw.
Proof.
  induction 1; [now split | |].
  - apply push_fields in H1. destruct H1 as (-> & -> & _). exact IHreachable.
  - destruct (compute_fst_cases st) as [-> | (n & _ & ->)]; exact IHreachable.
Qed.

(** X1.  The windows never outgrow their capacity, and the velocity
    buffer is as long as the short window. *)
Theorem windows_stay_bounded sw lw a st :
  reachable sw lw a st ->
  (length (buf st) <= sw)%nat /\ (length (long_buf st) <= lw)%nat /\
  length (center_vel st) = length (buf st).
Proof.
  induction 1 as [|st p t b e po now st' Hr IH Hp Hpush|st Hr IH].
  - cbn. repeat split; lia.
  - destruct (reachable_sizes _ _ _ _ Hr) as [Hsw Hlw].
    destruct (push_fields _ _ _ _ _ _ _ _ Hpush)
      as (_ & _ & _ & _ & Hbuf & (newest & _ & Hlong) & (v & Hcv)).
    destruct IH as (Hb & Hl & Hc).
    rewrite Hbuf, Hlong, Hcv, !deque_append_length, Hsw, Hlw, Hc.
    repeat split; lia.
  - destruct (compute_fst_cases st) as [-> | (n & _ & ->)]; exact IH.
Qed.

Lemma windows_stay_bounded_witness :
  reachable 30 300 0.2 two_sample_engine /\
  (length (buf two_sample_engine) <= 30)%nat /\
  (length (long_buf two_sample_engine) <= 300)%nat /\
  length (center_vel two_sample_engine) = length (buf two_sample_engine).
Proof.
  split; [exact two_sample_engine_reachable|].
  exact (windows_stay_bounded 30 300 0.2 two_sample_engine
           two_sample_engine_reachable).
Defined.

Lemma push_none_iff st p t b e po now :
  push st p t b e po now = None <-> short_w st = 0%nat.
Proof.
  unfold push. split.
  - intros H. destruct (short_w st) as [|n] eqn:Hsw; [reflexivity|].
    destruct (last (deque_append (S n) (buf st) (Sample p t b e po now)))
      as [newest|] eqn:Hlast.
    + destruct b as [[[[x y] w] h]|]; discriminate.
    + apply last_None in Hlast.
      exfalso. revert Hlast. apply deque_append_nonempty. lia.
  - intros ->. rewrite deque_append_zero. reflexivity.
Qed.

(** X2.  [push] raises exactly on an engine whose short window has
    capacity 0, whatever is pushed. *)
Theorem push_raises_iff_no_capacity st p t b e po now :
  push st p t b e po now = None <-> short_w st = 0%nat.
Proof. apply push_none_iff. Qed.

Lemma reachable_bounded sw lw a st :
  reachable sw lw a st ->
  (length (buf st) <= sw)%nat /\ (length (long_buf st) <= lw)%nat.
Proof.
  induction 1 as [|st p t b e po now st' Hr IH Hp Hpush|st Hr IH].
  - cbn. split; lia.
  - destruct (reachable_sizes _ _ _ _ Hr) as [Hsw Hlw].
    destruct (push_fields _ _ _ _ _ _ _ _ Hpush)
      as (_ & _ & _ & _ & Hbuf & (newest & _ & Hlong) & _).
    rewrite Hbuf, Hlong, !deque_append_length, Hsw, Hlw. split; lia.
  - destruct (compute_fst_cases st) as [-> | (n & _ & ->)]; exact IH.
Qed.

(** X3.  On an engine built by the constructor and used through [push]
    and [compute], a push that goes through puts the sample at the
    newest end of the short window, and of the long window unless that
    has capacity 0 and stays empty; a window that is full gives up its
    oldest sample, and only that one. *)
Theorem push_is_fifo sw lw a st p t b e po now st' :
  reachable sw lw a st ->
  push st p t b e po now = Some st' ->
  buf st' =
    (if (length (buf st) <? sw)%nat then buf st else drop 1 (buf st))
    ++ [Sample p t b e po now] /\
  long_buf st' =
    (if (lw =? 0)%nat then []
     else (if (length (long_buf st) <? lw)%nat
           then long_buf st else drop 1 (long_buf st))
          ++ [Sample p t b e po now]).
Proof.
  intros Hr Hpush.
  destruct (reachable_sizes _ _ _ _ Hr) as [Hsw Hlw].
  destruct (reachable_bounded _ _ _ _ Hr) as [Hb Hl].
  assert (Hpos : (0 < sw)%nat).
  { rewrite <- Hsw. destruct (short_w st) eqn:E; [|lia].
    apply push_none_iff with (p := p) (t := t) (b := b)
      (e := e) (po := po) (now := now) in E. congruence. }
  destruct (push_fields _ _ _ _ _ _ _ _ Hpush)
    as (_ & _ & _ & _ & Hbuf & (newest & Hlast & Hlong) & _).
  rewrite Hbuf in Hlast. apply deque_append_last in Hlast. subst newest.
  rewrite Hbuf, Hlong, Hsw, Hlw. split.
  - destruct (length (buf st) <? sw)%nat eqn:E.
    + apply Nat.ltb_lt in E. now apply deque_append_room.
    + apply Nat.ltb_ge in E. apply deque_append_full; lia.
  - destruct (lw =? 0)%nat eqn:E0.
    + apply Nat.eqb_eq in E0. rewrite E0. apply deque_append_zero.
    + apply Nat.eqb_neq in E0.
      destruct (length (long_buf st) <? lw)%nat eqn:E.
      * apply Nat.ltb_lt in E. now apply deque_append_room.
      * apply Nat.ltb_ge in E. apply deque_append_full; lia.
Qed.

Lemma push_raises_iff_no_capacity_witness :
  short_w (init 0 300 0.2) = 0%nat /\
  push (init 0 300 0.2) happy_probs "Happy" None None None 0 = None.
Proof.
  split; [reflexivity|].
  apply (push_raises_iff_no_capacity (init 0 300 0.2)). reflexivity.
Defined.

Lemma one_slot_engine_reachable : reachable 1 0 0.2 one_slot_engine.
Proof.
  eapply (reach_push _ _ _ (init 1 0 0.2) happy_probs "Happy" None None None 0).
  - constructor.
  - reflexivity.
  - reflexivity.
Defined.

Lemma push_is_fifo_witness :
  reachable 1 0 0.2 one_slot_engine /\
  exists st',
    push one_slot_engine neutral_probs "Neutral" None None None 0 = Some st' /\
    buf st' = [neutral_sample] /\ long_buf st' = [].
Proof.
  split; [exact one_slot_engine_reachable|].
  eexists. split; [reflexivity|].
  exact (push_is_fifo 1 0 0.2 one_slot_engine neutral_probs "Neutral"
           None None None 0 _ one_slot_engine_reachable eq_refl).
Defined.

Lemma deque_append_drop {A} n (h : list A) x :
  deque_append n (drop (length h - n) h) x =
  drop (length (h ++ [x]) - n) (h ++ [x]).
Proof.
  unfold deque_append.
  destruct (decide (length h <= n)%nat) as [Hle|Hgt].
  - replace (length h - n)%nat with 0%nat by lia. reflexivity.
  - rewrite !length_app, length_drop. cbn [length].
    replace (length h - (length h - n) + 1 - n)%nat with 1%nat by lia.
    rewrite <- (drop_app_le h [x] (length h - n)) by lia.
    rewrite drop_drop. f_equal. lia.
Qed.

Lemma windows_share_history sw lw a st :
  reachable sw lw a st ->
  exists h,
    buf st = drop (length h - sw) h /\ long_buf st = drop (length h - lw) h.
Proof.
  induction 1 as [|st p t b e po now st' Hr IH Hp Hpush|st Hr IH].
  - exists []. now split.
  - destruct (reachable_sizes _ _ _ _ Hr) as [Hsw Hlw].
    destruct (push_fields _ _ _ _ _ _ _ _ Hpush)
      as (_ & _ & _ & _ & Hbuf & (newest & Hlast & Hlong) & _).
    rewrite Hbuf in Hlast. apply deque_append_last in Hlast. subst newest.
    destruct IH as (h & Hb & Hl).
    exists (h ++ [Sample p t b e po now]).
    rewrite Hbuf, Hlong, Hsw, Hlw, Hb, Hl.
    split; apply deque_append_drop.
  - destruct (compute_fst_cases st) as [-> | (n & _ & ->)]; exact IH.
Qed.

(** X4.  When the long window is at least as large as the short one,
    the short window is always the newest end of the long window. *)
Theorem short_window_is_end_of_long_window sw lw a st :
  reachable sw lw a st -> (sw <= lw)%nat ->
  exists older, long_buf st = older ++ buf st.
Proof.
  intros Hr Hle.
  destruct (windows_share_history _ _ _ _ Hr) as (h & -> & ->).
  exists (take ((length h - sw) - (length h - lw)) (drop (length h - lw) h)).
  rewrite <- (take_drop ((length h - sw) - (length h - lw))
                (drop (length h - lw) h)) at 1.
  f_equal. rewrite drop_drop. f_equal. lia.
Qed.

Lemma short_window_is_end_of_long_window_witness :
  reachable 30 300 0.2 two_sample_engine /\ (30 <= 300)%nat /\
  exists older, long_buf two_sample_engine = older ++ buf two_sample_engine.
Proof.
  split; [exact two_sample_engine_reachable|]. split; [lia|].
  apply (short_window_is_end_of_long_window 30 300 0.2 two_sample_engine
           two_sample_engine_reachable). lia.
Defined.

(** X5.  [compute] changes nothing of the engine but the stored
    engagement average, and on an engine with an empty short window it
    changes nothing at all and returns the empty dict; it returns the
    empty dict in no other case. *)
Theorem compute_only_touches_the_average st :
  short_w (fst (compute st)) = short_w st /\
  long_w (fst (compute st)) = long_w st /\
  ema_alpha (fst (compute st)) = ema_alpha st /\
  buf (fst (compute st)) = buf st /\
  long_buf (fst (compute st)) = long_buf st /\
  center_vel (fst (compute st)) = center_vel st /\
  prev_center (fst (compute st)) = prev_center st /\
  (buf st = [] -> compute st = (st, Empty)) /\
  (snd (compute st) = Empty -> buf st = []).
Proof.
  assert (Hframe :
    short_w (fst (compute st)) = short_w st /\
    long_w (fst (compute st)) = long_w st /\
    ema_alpha (fst (compute st)) = ema_alpha st /\
    buf (fst (compute st)) = buf st /\
    long_buf (fst (compute st)) = long_buf st /\
    center_vel (fst (compute st)) = center_vel st /\
    prev_center (fst (compute st)) = prev_center st).
  { destruct (compute_fst_cases st) as [-> | (n & _ & ->)];
      repeat split. }
  destruct Hframe as (H1 & H2 & H3 & H4 & H5 & H6 & H7).
  repeat (split; [assumption|]). split.
  - intros E. unfold compute. now rewrite E.
  - unfold compute.
    destruct (last (buf st)) as [newest|] eqn:Hlast.
    + destruct (negb _); [discriminate|].
      destruct (10 <? length (long_buf st))%nat;
        [destruct (negb _)|]; discriminate.
    + intros _. now apply last_None.
Qed.

Lemma compute_only_touches_the_average_witness :
  compute default_engine = (default_engine, Empty).
Proof.
  destruct (compute_only_touches_the_average default_engine)
    as (_ & _ & _ & _ & _ & _ & _ & H & _).
  apply H. reflexivity.
Defined.

(** The fields of the result that depend on the newest vector, the
    velocity buffer and the eye readings. *)
Lemma compute_fields st newest :
  wf st -> last (buf st) = Some newest ->
  exists m,
    snd (compute st) = Result m /\
    attentiveness m = att_of (probs newest) /\
    positivity m = pos_of (probs newest) /\
    engagement m =
      clip (ema_step (ema_alpha st) (eng_ema st) (eng_raw_of (probs newest))) 0 1 /\
    distraction m =
      clip (0.6 * clip (mean (center_vel st) * 3) 0 1
            + 0.4 * (1 - att_of (probs newest))) 0 1 /\
    fatigue m =
      (if (0 <? length (ears_of (buf st)))%nat
       then clip (1 - (mean (ears_of (buf st)) - 0.10) / 0.25) 0 1
       else 0).
Proof.
  intros (Hb & Hl & _) Hlast.
  unfold compute. rewrite Hlast.
  rewrite (rectangular_seven _ Hb).
  assert (Hcur : length (probs newest) = 7%nat).
  { rewrite Forall_forall in Hb. apply Hb. now apply last_elem. }
  rewrite Hcur. cbn [Nat.eqb andb negb].
  rewrite (rectangular_seven _ Hl). cbn [negb].
  destruct (10 <? length (long_buf st))%nat; cbn [snd];
    eexists; (split; [reflexivity|]); cbn; repeat split; reflexivity.
Qed.

(** X6.  The first [compute] of an engine does no smoothing: the
    engagement it returns is 0.7 * attentiveness + 0.3 * positivity of
    the same result, and this is what it stores as the average. *)
Theorem first_compute_bypasses_smoothing st :
  wf st -> buf st <> [] -> eng_ema st = None ->
  exists m,
    snd (compute st) = Result m /\
    engagement m = 0.7 * attentiveness m + 0.3 * positivity m /\
    eng_ema (fst (compute st)) = Some (engagement m).
Proof.
  intros Hwf Hne Hema.
  destruct (last_nonempty _ Hne) as [newest Hlast].
  destruct (compute_fields st newest Hwf Hlast) as (m & Hm & Ha & Hp & He & _).
  destruct (compute_wf_engagement st newest Hwf Hlast) as (Hst & _).
  exists m. split; [exact Hm|].
  rewrite Hema in He, Hst. cbn [ema_step] in He, Hst.
  rewrite (clip_id _ (eng_raw_unit (probs newest))) in He.
  rewrite He, Ha, Hp, Hst. split; reflexivity.
Qed.

Lemma first_compute_bypasses_smoothing_witness :
  wf one_sample_engine /\ buf one_sample_engine <> [] /\
  eng_ema one_sample_engine = None /\
  exists m,
    snd (compute one_sample_engine) = Result m /\
    engagement m = 0.7 * attentiveness m + 0.3 * positivity m /\
    eng_ema (fst (compute one_sample_engine)) = Some (engagement m).
Proof.
  split; [exact one_sample_engine_wf|]. split; [discriminate|].
  split; [reflexivity|].
  apply (first_compute_bypasses_smoothing one_sample_engine);
    [exact one_sample_engine_wf | discriminate | reflexivity].
Defined.

Lemma rsum_zeros l : Forall (fun v => v = 0) l -> rsum l = 0.
Proof.
  induction 1 as [|v l Hv _ IH]; [reflexivity|].
  change (rsum (v :: l)) with (v + rsum l). rewrite Hv, IH. lra.
Qed.

(** X8.  While the face has not moved (every entry of the velocity
    buffer is 0) distraction is 0.4 * (1 - attentiveness), so at most
    0.4. *)
Theorem still_face_distraction st :
  wf st -> buf st <> [] -> Forall (fun v => v = 0) (center_vel st) ->
  exists m,
    snd (compute st) = Result m /\
    distraction m = 0.4 * (1 - attentiveness m) /\
    distraction m <= 0.4.
Proof.
  intros Hwf Hne Hzero.
  destruct (last_nonempty _ Hne) as [newest Hlast].
  destruct (compute_fields st newest Hwf Hlast) as (m & Hm & Ha & _ & _ & Hd & _).
  exists m. split; [exact Hm|].
  assert (Hmean : mean (center_vel st) = 0).
  { unfold mean. rewrite (rsum_zeros _ Hzero). unfold Rdiv. lra. }
  rewrite Hd, Ha, Hmean.
  replace (0 * 3) with 0 by lra.
  rewrite (clip_id 0) by (split; lra).
  destruct (att_of_unit (probs newest)) as [H0 H1].
  rewrite clip_id by (split; lra).
  split; lra.
Qed.

Lemma still_face_distraction_witness :
  wf one_sample_engine /\ buf one_sample_engine <> [] /\
  Forall (fun v => v = 0) (center_vel one_sample_engine) /\
  exists m,
    snd (compute one_sample_engine) = Result m /\
    distraction m = 0.4 * (1 - attentiveness m) /\
    distraction m <= 0.4.
Proof.
  assert (Hz : Forall (fun v => v = 0) (center_vel one_sample_engine)).
  { repeat constructor. }
  split; [exact one_sample_engine_wf|]. split; [discriminate|].
  split; [exact Hz|].
  apply (still_face_distraction one_sample_engine);
    [exact one_sample_engine_wf | discriminate | exact Hz].
Defined.

(** X9.  A push without a box, with the first box an engine sees, or
    with a box centred where the previous one was, records velocity 0. *)
Theorem push_without_motion_records_zero st p t b e po now st' :
  push st p t b e po now = Some st' ->
  (b = None \/
   exists x y w h,
     b = Some (x, y, w, h) /\
     (prev_center st = None \/ prev_center st = Some (x + w / 2, y + h / 2))) ->
  last (center_vel st') = Some 0.
Proof.
  intros Hpush Hb.
  assert (Hsw : (0 < short_w st)%nat).
  { destruct (short_w st) eqn:E; [|lia].
    apply push_none_iff with (p := p) (t := t) (b := b)
      (e := e) (po := po) (now := now) in E. congruence. }
  assert (Hlast : forall v, last (deque_append (short_w st) (center_vel st) v) = Some v).
  { intros v.
    destruct (last_nonempty _ (deque_append_nonempty (short_w st) (center_vel st) v Hsw))
      as [y Hy].
    rewrite Hy. f_equal. now apply deque_append_last in Hy. }
  revert Hpush. unfold push.
  destruct (last (deque_append _ (buf st) _)) as [newest|]; [|discriminate].
  destruct Hb as [-> | (x & y & w & h & -> & Hprev)].
  - intros [= <-]. cbn [center_vel]. apply Hlast.
  - intros [= <-]. cbn [center_vel]. rewrite Hlast. f_equal.
    destruct Hprev as [-> | ->].
    + unfold Rdiv. lra.
    + replace ((x + w / 2 - (x + w / 2)) * (x + w / 2 - (x + w / 2))
               + (y + h / 2 - (y + h / 2)) * (y + h / 2 - (y + h / 2)))
        with 0 by lra.
      rewrite sqrt_0. unfold Rdiv. lra.
Qed.

Lemma push_without_motion_records_zero_witness :
  push after_first_compute neutral_probs "Neutral" None None None 0 =
    Some two_sample_engine /\
  last (center_vel two_sample_engine) = Some 0.
Proof.
  split; [reflexivity|].
  apply (push_without_motion_records_zero after_first_compute neutral_probs
           "Neutral" None None None 0 two_sample_engine eq_refl).
  now left.
Defined.

(** ** The classifier's output *)

Lemma fold_left_Rmax_ge rest : forall x0,
  x0 <= fold_left Rmax rest x0 /\
  Forall (fun v => v <= fold_left Rmax rest x0) rest.
Proof.
  induction rest as [|a rest IH]; intros x0; cbn [fold_left].
  - split; [lra|constructor].
  - destruct (IH (Rmax x0 a)) as [H1 H2].
    pose proof (Rmax_l x0 a). pose proof (Rmax_r x0 a).
    split; [lra|]. constructor; [lra|exact H2].
Qed.

Lemma fold_left_Rmax_in rest : forall x0,
  In (fold_left Rmax rest x0) (x0 :: rest).
Proof.
  induction rest as [|a rest IH]; intros x0; cbn [fold_left].
  - now left.
  - destruct (IH (Rmax x0 a)) as [H | H].
    + unfold Rmax in H at 1. destruct (Rle_dec x0 a).
      * right. left. exact H.
      * left. exact H.
    + right. right. exact H.
Qed.

(** [np.max] returns an entry that no entry exceeds. *)
Lemma np_max_spec x m :
  np_max x = Some m -> In m x /\ Forall (fun v => v <= m) x.
Proof.
  destruct x as [|x0 rest]; [discriminate|]. cbn [np_max]. intros [= <-].
  split; [apply fold_left_Rmax_in|].
  destruct (fold_left_Rmax_ge rest x0) as [H1 H2].
  constructor; assumption.
Qed.

Lemma softmax_cases x :
  (x = [] /\ softmax x = None) \/
  (exists m,
      np_max x = Some m /\
      softmax x =
        Some (map (fun ei => ei / rsum (map (fun xi => exp (xi - m)) x))
                (map (fun xi => exp (xi - m)) x))).
Proof.
  unfold softmax. destruct x as [|x0 rest]; [now left|].
  right. cbn [np_max]. eexists. split; reflexivity.
Qed.

Lemma rsum_nonneg l : Forall (fun v => 0 <= v) l -> 0 <= rsum l.
Proof.
  induction 1 as [|v l Hv _ IH]; [cbn; lra|].
  change (rsum (v :: l)) with (v + rsum l). lra.
Qed.

Lemma rsum_ge_elem l x :
  Forall (fun v => 0 <= v) l -> In x l -> x <= rsum l /\ 0 <= rsum l.
Proof.
  intros Hall. split; [|now apply rsum_nonneg].
  induction Hall as [|v l Hv Hl IH]; [contradiction|].
  change (rsum (v :: l)) with (v + rsum l).
  pose proof (rsum_nonneg l Hl).
  destruct H as [-> | Hin]; [lra|]. specialize (IH Hin). lra.
Qed.

Lemma exp_le_1 t : t <= 0 -> exp t <= 1.
Proof.
  intros [Hlt | ->]; [|rewrite exp_0; lra].
  pose proof (exp_increasing _ _ Hlt) as H. rewrite exp_0 in H. lra.
Qed.

(** The entries of [softmax]: in [0,1], and the entry of a largest
    logit is a largest entry. *)
Lemma softmax_entries x p :
  softmax x = Some p ->
  length p = length x /\
  Forall (fun v => 0 <= v <= 1) p /\
  (forall i xi pi,
      x !! i = Some xi -> Forall (fun v => v <= xi) x -> p !! i = Some pi ->
      Forall (fun v => v <= pi) p).
Proof.
  intros H.
  destruct (softmax_cases x) as [[_ E] | (m & Hm & E)]; [congruence|].
  rewrite E in H. injection H as <-.
  destruct (np_max_spec _ _ Hm) as [Hin Hmax].
  set (e := map (fun xi => exp (xi - m)) x).
  assert (Hpos : Forall (fun v => 0 <= v) e).
  { apply Forall_forall. intros v Hv. apply list_elem_of_In in Hv.
    apply in_map_iff in Hv as (xi & <- & _). left. apply exp_pos. }
  assert (Hone : In 1 e).
  { apply in_map_iff. exists m. split; [|exact Hin].
    replace (m - m) with 0 by lra. apply exp_0. }
  destruct (rsum_ge_elem e 1 Hpos Hone) as [Hs1 _].
  assert (Hs : 0 < rsum e) by lra.
  assert (Hle1 : Forall (fun v => v <= 1) e).
  { apply Forall_forall. intros v Hv. apply list_elem_of_In in Hv.
    apply in_map_iff in Hv as (xi & <- & Hxi). apply exp_le_1.
    rewrite Forall_forall in Hmax.
    apply list_elem_of_In in Hxi. specialize (Hmax _ Hxi). cbn beta in Hmax. lra. }
  split; [|split].
  - unfold e. now rewrite !length_map.
  - apply Forall_forall. intros v Hv. apply list_elem_of_In in Hv.
    apply in_map_iff in Hv as (ei & <- & Hei).
    destruct (rsum_ge_elem e ei Hpos Hei) as [Hle _].
    assert (0 <= ei).
    { rewrite Forall_forall in Hpos. apply Hpos. now apply list_elem_of_In. }
    split.
    + apply Rmult_le_pos; [assumption|]. left. now apply Rinv_0_lt_compat.
    + apply Rmult_le_reg_r with (r := rsum e); [exact Hs|].
      unfold Rdiv. rewrite Rmult_assoc, Rinv_l by lra. lra.
  - intros i xi pi Hxi Hbig Hpi.
    assert (xi = m) as ->.
    { rewrite Forall_forall in Hbig, Hmax.
      apply list_elem_of_In in Hin. specialize (Hbig _ Hin).
      apply list_elem_of_lookup_2 in Hxi. specialize (Hmax _ Hxi).
      cbn beta in *. lra. }
    unfold e in Hpi. rewrite !list_lookup_fmap, Hxi in Hpi.
    cbn in Hpi. injection Hpi as <-.
    replace (m - m) with 0 by lra. rewrite exp_0.
    apply Forall_forall. intros v Hv. apply list_elem_of_In in Hv.
    apply in_map_iff in Hv as (ei & <- & Hei).
    rewrite Forall_forall in Hle1. apply list_elem_of_In in Hei.
    specialize (Hle1 _ Hei). cbn beta in Hle1.
    unfold Rdiv. apply Rmult_le_compat_r; [|exact Hle1].
    left. now apply Rinv_0_lt_compat.
Qed.

(** X11.  [softmax] raises on no logits and otherwise returns as many
    numbers as it was given, each in [0,1]; the entry of a largest
    logit is a largest entry. *)
Theorem softmax_entries_in_unit_interval x :
  (softmax x = None <-> x = []) /\
  (forall p, softmax x = Some p ->
     length p = length x /\
     Forall (fun v => 0 <= v <= 1) p /\
     (forall i xi pi,
         x !! i = Some xi -> Forall (fun v => v <= xi) x -> p !! i = Some pi ->
         Forall (fun v => v <= pi) p)).
Proof.
  split; [|apply softmax_entries].
  destruct (softmax_cases x) as [[-> E] | (m & Hne & E)]; rewrite E.
  - now split.
  - split; [discriminate|]. intros ->. discriminate.
Qed.

Lemma softmax_entries_in_unit_interval_witness :
  exists p, softmax [1; 3; 2] = Some p /\ length p = 3%nat /\
    Forall (fun v => 0 <= v <= 1) p /\
    exists pi, p !! 1%nat = Some pi /\ Forall (fun v => v <= pi) p.
Proof.
  destruct (softmax_entries_in_unit_interval [1; 3; 2]) as [_ H].
  eexists. split; [reflexivity|].
  destruct (H _ eq_refl) as (Hl & Hu & Hbig).
  split; [exact Hl|]. split; [exact Hu|].
  eexists. split; [reflexivity|].
  apply (Hbig 1%nat 3); [reflexivity| |reflexivity].
  repeat constructor; lra.
Defined.

Lemma argmax_from_spec l : forall pre bi b i,
  length pre = i -> (bi < i)%nat -> nth bi pre 0 = b ->
  Forall (fun v => v <= b) pre ->
  (argmax_from bi b i l < length (pre ++ l))%nat /\
  Forall (fun v => v <= nth (argmax_from bi b i l) (pre ++ l) 0) (pre ++ l).
Proof.
  induction l as [|x rest IH]; intros pre bi b i Hlen Hbi Hnth Hall.
  - cbn [argmax_from]. rewrite app_nil_r. split; [lia|]. now rewrite Hnth.
  - cbn [argmax_from].
    replace (pre ++ x :: rest) with ((pre ++ [x]) ++ rest)
      by (now rewrite <- app_assoc).
    destruct (Rlt_dec b x) as [Hlt|Hge].
    + apply IH.
      * rewrite length_app. cbn. lia.
      * lia.
      * rewrite app_nth2 by lia. replace (i - length pre)%nat with 0%nat by lia.
        reflexivity.
      * apply Forall_app. split.
        -- eapply Forall_impl; [exact Hall|]. cbn. intros; lra.
        -- constructor; [lra|constructor].
    + apply IH.
      * rewrite length_app. cbn. lia.
      * lia.
      * rewrite app_nth1 by lia. exact Hnth.
      * apply Forall_app. split; [exact Hall|].
        constructor; [lra|constructor].
Qed.

Lemma argmax_spec l idx :
  argmax l = Some idx ->
  (idx < length l)%nat /\ Forall (fun v => v <= nth idx l 0) l.
Proof.
  destruct l as [|x rest]; [discriminate|]. cbn [argmax]. intros [= <-].
  apply (argmax_from_spec rest [x] 0%nat x 1%nat); try reflexivity; try lia.
  constructor; [lra|constructor].
Qed.

(** X12.  What [predict_from_model] returns for the logits of one
    face: as many probabilities as logits, a confidence that is the
    probability at the place of the label in [LABELS], lies in [0,1]
    and is exceeded by no probability; for seven logits it always
    returns. *)
Theorem predict_returns_the_winner logits :
  (forall probs label conf,
      predict_from_logits logits = Some (probs, label, conf) ->
      length probs = length logits /\
      Forall (fun v => 0 <= v <= conf) probs /\ conf <= 1 /\
      exists idx,
        LABELS !! idx = Some label /\ probs !! idx = Some conf) /\
  (length logits = 7%nat -> predict_from_logits logits <> None).
Proof.
  split.
  - intros probs label conf. unfold predict_from_logits.
    destruct (softmax logits) as [p|] eqn:Hs; [|discriminate].
    destruct (argmax p) as [idx|] eqn:Ha; [|discriminate].
    destruct (LABELS !! idx) as [lab|] eqn:Hl; [|discriminate].
    intros [= <- <- <-].
    destruct (softmax_entries _ _ Hs) as (Hlen & Hall & _).
    destruct (argmax_spec _ _ Ha) as (Hidx & Hmax).
    assert (Hin : In (nth idx p 0) p) by now apply nth_In.
    split; [exact Hlen|].
    split; [|split].
    + rewrite Forall_forall in Hall, Hmax |- *. intros v Hv.
      destruct (Hall v Hv). specialize (Hmax v Hv). cbn beta in Hmax. lra.
    + rewrite Forall_forall in Hall.
      apply list_elem_of_In in Hin. destruct (Hall _ Hin). lra.
    + exists idx. split; [exact Hl|].
      destruct (lookup_lt_is_Some_2 p idx Hidx) as [v Hv].
      now rewrite (nth_lookup_Some _ _ 0 _ Hv).
  - intros H7. unfold predict_from_logits.
    destruct (softmax logits) as [p|] eqn:Hs.
    + destruct (softmax_entries _ _ Hs) as (Hlen & _).
      destruct (argmax p) as [idx|] eqn:Ha.
      * destruct (argmax_spec _ _ Ha) as (Hidx & _).
        destruct (LABELS !! idx) as [lab|] eqn:Hl; [discriminate|].
        apply lookup_ge_None in Hl. cbn in Hl. lia.
      * destruct p; [|discriminate]. cbn in Hlen. lia.
    + destruct logits; [discriminate|]. discriminate.
Qed.

(** Seven equal logits: every class gets the same probability and the
    first label wins. *)
Lemma predict_uniform :
  exists p,
    predict_from_logits [0; 0; 0; 0; 0; 0; 0] = Some (p, "Happy", nth 0 p 0).
Proof.
  unfold predict_from_logits, softmax, np_max.
  cbn [fold_left]. rewrite !(Rmax_left 0 0) by lra.
  cbn [map argmax argmax_from].
  repeat (destruct Rlt_dec as [H|_]; [exfalso; lra|]).
  eexists. reflexivity.
Defined.

Lemma predict_returns_the_winner_witness :
  exists p conf,
    predict_from_logits [0; 0; 0; 0; 0; 0; 0] = Some (p, "Happy", conf) /\
    length p = 7%nat /\ Forall (fun v => 0 <= v <= conf) p /\ conf <= 1.
Proof.
  destruct predict_uniform as [p Hp].
  exists p, (nth 0 p 0). split; [exact Hp|].
  destruct (predict_returns_the_winner [0; 0; 0; 0; 0; 0; 0]) as [H _].
  destruct (H _ _ _ Hp) as (Hl & Hall & Hc & _).
  split; [exact Hl|]. split; [exact Hall | exact Hc].
Defined.

End MetricsExtFacts.

Module ReaderExtFacts.
Import Reader Supervisor SupervisorExt.

Section facts.

Variable json_loads : string -> option json.

Lemma setdefault_has_key k v fields : In k (map fst (setdefault k v fields)).
Proof.
  unfold setdefault.
  destruct (existsb _ fields) eqn:E.
  - apply existsb_exists in E as ([k' v'] & Hin & Hk).
    apply String.eqb_eq in Hk. cbn in Hk. subst k'.
    apply in_map_iff. exists (k, v'). now split.
  - rewrite map_app. apply in_or_app. right. now left.
Qed.

Lemma setdefault_keeps k v fields :
  In k (map fst fields) -> setdefault k v fields = fields.
Proof.
  intros Hin. unfold setdefault.
  destruct (existsb _ fields) eqn:E; [reflexivity|].
  apply in_map_iff in Hin as ([k' v'] & Hk & Hin). cbn in Hk. subst k'.
  assert (existsb (fun kv => String.eqb (fst kv) k) fields = true).
  { apply existsb_exists. exists (k, v'). split; [exact Hin|].
    apply String.eqb_refl. }
  congruence.
Qed.

Lemma read_line_sources lo w o raw w' o' :
  read_line json_loads lo w o raw = Some (w', o') ->
  Forall has_source (handed o) -> Forall has_source (handed o').
Proof.
  unfold read_line. intros H Hall.
  destruct (is_empty raw); [discriminate|].
  destruct (is_empty (strip raw)); [now injection H as <- <-|].
  destruct (json_loads (strip raw)) as [[]|]; try (now injection H as <- <-).
  destruct lo; injection H as <- <-; [|exact Hall].
  cbn [handed]. apply Forall_app. split; [exact Hall|].
  constructor; [|constructor].
  eexists. split; [reflexivity|]. apply setdefault_has_key.
Qed.

Lemma read_lines_sources lo lines : forall w o,
  Forall has_source (handed o) ->
  Forall has_source (handed (snd (read_lines json_loads lo w o lines))).
Proof.
  induction lines as [|raw rest IH]; intros w o Hall; [exact Hall|].
  cbn [read_lines].
  destruct (read_line json_loads lo w o raw) as [[w' o']|] eqn:E; [|exact Hall].
  apply IH. eapply read_line_sources; eassumption.
Qed.

(** X13.  Every event the reader hands to the callback is a JSON object
    with a [source_device] key, and an object that came with that key
    is handed over as it came. *)
Theorem handed_events_name_their_source lo w lines :
  Forall has_source (handed (snd (read_stdout json_loads lo w lines))) /\
  (forall pid raw fields,
      process w = Some pid ->
      Forall (fun l => l <> EmptyString) lines ->
      raw ∈ lines ->
      is_empty (strip raw) = false ->
      json_loads (strip raw) = Some (JObj fields) ->
      In "source_device" (map fst fields) ->
      JObj fields ∈ handed (snd (read_stdout json_loads true w lines))).
Proof.
  split.
  - unfold read_stdout. destruct (process w); [|constructor].
    assert (H0 : Forall has_source (handed (Out [] []))) by constructor.
    pose proof (read_lines_sources lo lines w (Out [] []) H0) as H.
    destruct (read_lines json_loads lo w (Out [] []) lines) as [w' o].
    exact H.
  - intros pid raw fields Hproc Hall Hin Hblank Hload Hkey.
    destruct (ReaderFacts.read_lines_open json_loads lines w (Out [] []) Hall)
      as (w' & o' & E & _ & _ & Hh & _).
    unfold read_stdout. rewrite Hproc, E. cbn [snd]. rewrite Hh. cbn [handed app].
    apply list_elem_of_omap. exists raw. split; [exact Hin|].
    unfold event_of_line. rewrite Hblank, Hload.
    now rewrite setdefault_keeps.
Qed.

Lemma read_line_any lo w o raw :
  raw <> EmptyString ->
  exists w' o',
    read_line json_loads lo w o raw = Some (w', o') /\
    device_id w' = device_id w /\ process w' = process w /\
    events_count w' + error_count w' =
      events_count w + error_count w
      + (if valid_json_line json_loads raw then 1 else 0) /\
    debug_lines o' =
      debug_lines o ++ option_list (diagnostic_of_line json_loads raw) /\
    length (handed o') + events_count w = length (handed o) + events_count w' /\
    (lo = false -> handed o' = handed o /\ events_count w' = events_count w).
Proof.
  intros Hraw. unfold read_line, valid_json_line, diagnostic_of_line.
  destruct raw as [|c raw']; [contradiction|]. cbn [is_empty].
  destruct (is_empty (strip _)); cbn [negb andb].
  { exists w, o. rewrite app_nil_r. cbn. repeat split; lia. }
  destruct (json_loads _) as [[]|]; try destruct lo; cbn;
    eexists; eexists; (split; [reflexivity|]); cbn;
    rewrite ?app_nil_r, ?length_app; cbn; repeat split; try lia;
    try discriminate; reflexivity.
Qed.

Lemma read_lines_any lo lines : forall w o,
  Forall (fun raw => raw <> EmptyString) lines ->
  exists w' o',
    read_lines json_loads lo w o lines = (w', o') /\
    device_id w' = device_id w /\ process w' = process w /\
    events_count w' + error_count w' =
      events_count w + error_count w
      + length (filter (fun raw => valid_json_line json_loads raw = true) lines) /\
    debug_lines o' =
      debug_lines o ++ omap (diagnostic_of_line json_loads) lines /\
    length (handed o') + events_count w = length (handed o) + events_count w' /\
    (lo = false -> handed o' = handed o /\ events_count w' = events_count w).
Proof.
  induction lines as [|raw rest IH]; intros w o Hall.
  - exists w, o. cbn. rewrite app_nil_r. repeat split; lia.
  - inversion Hall as [|? ? Hraw Hrest]; subst.
    destruct (read_line_any lo w o raw Hraw)
      as (w1 & o1 & E1 & Hd1 & Hp1 & Hc1 & Hg1 & Hh1 & Hf1).
    destruct (IH w1 o1 Hrest)
      as (w2 & o2 & E2 & Hd2 & Hp2 & Hc2 & Hg2 & Hh2 & Hf2).
    exists w2, o2. cbn [read_lines]. rewrite E1.
    split; [exact E2|]. split; [congruence|]. split; [congruence|].
    rewrite filter_cons. cbn [omap list_omap].
    split; [|split; [|split]].
    + destruct (valid_json_line json_loads raw); case_decide;
        try congruence; simpl; lia.
    + rewrite Hg2, Hg1.
      destruct (diagnostic_of_line json_loads raw); cbn [option_list];
        now rewrite <- app_assoc.
    + lia.
    + intros Hlo. destruct (Hf1 Hlo), (Hf2 Hlo). split; congruence.
Qed.

(** X14.  The reader accounts for every line: a line of valid JSON
    adds one to the events counter or to the error counter, a line that
    is not JSON goes to the debug log, the events counter grows by the
    number of events handed over, and a closed event loop gets no event
    at all.  When the stream ends the worker is marked not running. *)
Theorem reader_accounts_for_every_line lo w pid lines :
  process w = Some pid ->
  Forall (fun raw => raw <> EmptyString) lines ->
  events_count (fst (read_stdout json_loads lo w lines))
  + error_count (fst (read_stdout json_loads lo w lines)) =
    events_count w + error_count w
    + length (filter (fun raw => valid_json_line json_loads raw = true) lines) /\
  debug_lines (snd (read_stdout json_loads lo w lines)) =
    omap (diagnostic_of_line json_loads) lines /\
  events_count (fst (read_stdout json_loads lo w lines)) =
    events_count w + length (handed (snd (read_stdout json_loads lo w lines))) /\
  (lo = false -> handed (snd (read_stdout json_loads lo w lines)) = []) /\
  is_running (fst (read_stdout json_loads lo w lines)) = false.
Proof.
  intros Hproc Hall.
  destruct (read_lines_any lo lines w (Out [] []) Hall)
    as (w' & o' & E & _ & _ & Hc & Hg & Hh & Hf).
  unfold read_stdout. rewrite Hproc, E. cbn [fst snd] in *.
  cbn [set_running events_count error_count is_running].
  cbn [handed debug_lines length] in *.
  split; [exact Hc|]. split; [exact Hg|]. split; [lia|].
  split; [|reflexivity].
  intros Hlo. now destruct (Hf Hlo).
Qed.

End facts.

Lemma handed_events_name_their_source_witness :
  Forall has_source
    (handed (snd (read_stdout sample_loads true started_worker sample_lines))).
Proof.
  apply (handed_events_name_their_source sample_loads true started_worker
           sample_lines).
Defined.

Lemma reader_accounts_for_every_line_witness :
  process started_worker = Some 4242%nat /\
  Forall (fun raw => raw <> EmptyString) wide_lines /\
  events_count (fst (read_stdout sample_loads true started_worker wide_lines)) = 1 /\
  error_count (fst (read_stdout sample_loads true started_worker wide_lines)) = 1 /\
  debug_lines (snd (read_stdout sample_loads true started_worker wide_lines)) =
    ["model loaded"].
Proof.
  assert (Hlines : Forall (fun raw => raw <> EmptyString) wide_lines).
  { repeat constructor; discriminate. }
  split; [reflexivity|]. split; [exact Hlines|].
  destruct (reader_accounts_for_every_line sample_loads true started_worker
              4242%nat wide_lines eq_refl Hlines) as (Hc & Hd & He & _ & _).
  assert (Hh : length (handed (snd (read_stdout sample_loads true started_worker
                                      wide_lines))) = 1%nat) by reflexivity.
  rewrite Hh in He. cbn [started_worker events_count] in He.
  split; [exact He|].
  split; [|rewrite Hd; reflexivity].
  rewrite He in Hc.
  change (events_count started_worker + error_count started_worker
          + length (filter (fun raw => valid_json_line sample_loads raw = true)
                      wide_lines))
    with 2%nat in Hc.
  lia.
Defined.

End ReaderExtFacts.

Module SupervisorExtFacts.
Import Reader Supervisor SupervisorFacts SupervisorExt.

Lemma start_capture_keeps_heap m d sid popen now :
  heap_ok m -> heap_ok (fst (start_capture m d sid popen now)).
Proof.
  intros (Hproc & Hlaunch & Hsig). unfold start_capture.
  destruct (running_for m d); [now repeat split|].
  set (r := fresh (dom (heap m))).
  destruct (start_cases (new_worker d) sid popen now eq_refl)
    as [[_ ->] | (pid & w' & -> & E & Hdev & Hw')]; cbn [fst].
  - repeat split; cbn [heap launched signals map].
    + intros r0 w0 H0 Hr0.
      destruct (decide (r = r0)) as [<-|Hne].
      * rewrite lookup_insert_eq in H0. injection H0 as <-. discriminate.
      * rewrite lookup_insert_ne in H0 by exact Hne. eauto.
    + intros r0 w0 pid H0 Hp. rewrite app_nil_r.
      destruct (decide (r = r0)) as [<-|Hne].
      * rewrite lookup_insert_eq in H0. injection H0 as <-. discriminate.
      * rewrite lookup_insert_ne in H0 by exact Hne. eauto.
    + intros sg Hin. rewrite app_nil_r. eauto.
  - rewrite E. cbn [fst]. unfold start in E. cbn in E. injection E as <-.
    repeat split; cbn [heap launched signals map].
    + intros r0 w0 H0 Hr0.
      destruct (decide (r = r0)) as [<-|Hne].
      * rewrite lookup_insert_eq in H0. injection H0 as <-. discriminate.
      * rewrite lookup_insert_ne in H0 by exact Hne. eauto.
    + intros r0 w0 pid0 H0 Hp. apply in_or_app.
      destruct (decide (r = r0)) as [<-|Hne].
      * rewrite lookup_insert_eq in H0. injection H0 as <-.
        cbn in Hp. injection Hp as <-. right. now left.
      * rewrite lookup_insert_ne in H0 by exact Hne. left. eauto.
    + intros sg Hin. rewrite map_app. apply in_or_app. left. eauto.
Qed.

Lemma stop_signals w o w' b sigs :
  stop w o = (w', b, sigs) ->
  forall sg, In sg sigs -> process w = Some (signal_pid sg).
Proof.
  unfold stop. destruct (process w) as [pid|]; [|intros [= <- <- <-] sg []].
  destruct (negb (is_running w)); [intros [= <- <- <-] sg []|].
  destruct o; intros [= <- <- <-] sg Hin; cbn in Hin;
    repeat (destruct Hin as [<-|Hin]; [reflexivity|]); contradiction.
Qed.

Lemma stop_worker w o w' b sigs :
  stop w o = (w', b, sigs) ->
  device_id w' = device_id w /\ process w' = process w /\
  (is_running w' = true -> is_running w = true /\ process w = None).
Proof.
  unfold stop. destruct (process w) as [pid|] eqn:Hp.
  - destruct (is_running w) eqn:Hr; cbn [negb].
    + destruct o; intros [= <- <- <-]; cbn; repeat split; try assumption;
        discriminate.
    + intros [= <- <- <-]. split; [reflexivity|]. split; [exact Hp|].
      intros H. rewrite Hr in H. discriminate.
  - intros [= <- <- <-]. split; [reflexivity|]. split; [exact Hp|].
    intros H. now split.
Qed.

Lemma stop_capture_keeps_heap m d o :
  heap_ok m -> heap_ok (fst (stop_capture m d o)).
Proof.
  intros (Hproc & Hlaunch & Hsig). unfold stop_capture.
  destruct (workers m !! d) as [r|]; [|now repeat split].
  destruct (heap m !! r) as [w|] eqn:Hw; [|now repeat split].
  destruct (stop w o) as [[w' b] sigs] eqn:E. cbn [fst].
  destruct (stop_worker _ _ _ _ _ E) as (Hdev & Hp & Hrun).
  repeat split; cbn [heap launched signals].
  - intros r0 w0 H0 Hr0.
    destruct (decide (r = r0)) as [<-|Hne].
    + rewrite lookup_insert_eq in H0. injection H0 as <-.
      destruct (Hrun Hr0) as [Hwr _]. rewrite Hp. eauto.
    + rewrite lookup_insert_ne in H0 by exact Hne. eauto.
  - intros r0 w0 pid H0 Hp0.
    destruct (decide (r = r0)) as [<-|Hne].
    + rewrite lookup_insert_eq in H0. injection H0 as <-.
      rewrite Hdev. rewrite Hp in Hp0. eauto.
    + rewrite lookup_insert_ne in H0 by exact Hne. eauto.
  - intros sg Hin. apply in_app_or in Hin as [Hin|Hin]; [eauto|].
    pose proof (stop_signals _ _ _ _ _ E sg Hin) as Hpid.
    apply in_map_iff. exists (device_id w, signal_pid sg). split; [reflexivity|].
    eauto.
Qed.

Lemma stdout_closed_keeps_heap m r : heap_ok m -> heap_ok (stdout_closed m r).
Proof.
  intros (Hproc & Hlaunch & Hsig).
  repeat split; cbn [stdout_closed heap launched signals]; [| |exact Hsig].
  - intros r0 w0 H0 Hr0.
    destruct (decide (r = r0)) as [<-|Hne].
    + rewrite lookup_alter_eq in H0.
      destruct (heap m !! r); [|discriminate]. injection H0 as <-. discriminate.
    + rewrite lookup_alter_ne in H0 by exact Hne. eauto.
  - intros r0 w0 pid H0 Hp0.
    destruct (decide (r = r0)) as [<-|Hne].
    + rewrite lookup_alter_eq in H0.
      destruct (heap m !! r) as [w|] eqn:Hw; [|discriminate].
      injection H0 as <-. cbn in *. eauto.
    + rewrite lookup_alter_ne in H0 by exact Hne. eauto.
Qed.

Lemma run_keeps_heap l : forall m, heap_ok m -> heap_ok (fst (run m l)).
Proof.
  induction l as [|a l IH]; intros m H; [exact H|].
  cbn [run].
  assert (H1 : heap_ok (fst (step m a))).
  { destruct a as [d sid popen now | d o | r]; cbn [step].
    - pose proof (start_capture_keeps_heap m d sid popen now H) as H'.
      destruct (start_capture m d sid popen now). exact H'.
    - pose proof (stop_capture_keeps_heap m d o H) as H'.
      destruct (stop_capture m d o). exact H'.
    - now apply stdout_closed_keeps_heap. }
  destruct (step m a) as [m1 b]. cbn [fst] in H1.
  specialize (IH m1 H1).
  destruct (run m1 l) as [m2 bs]. exact IH.
Qed.

Lemma reachable_heap_ok m : reachable_manager m -> heap_ok m.
Proof.
  intros [trace ->]. apply run_keeps_heap.
  repeat split; cbn; try (intros ? ? H; now rewrite lookup_empty in H).
  - intros ? ? ? H. now rewrite lookup_empty in H.
  - intros sg [].
Qed.

(** X15.  Signals are only ever sent to processes the manager has
    launched itself. *)
Theorem signals_go_to_launched_processes m :
  reachable_manager m ->
  forall sg, In sg (signals m) -> In (signal_pid sg) (map snd (launched m)).
Proof.
  intros Hr. now destruct (reachable_heap_ok m Hr) as (_ & _ & H).
Qed.

Lemma stopped_capture_reachable : reachable_manager stopped_capture.
Proof. now exists [Start "cam-1" 1 (Some 4242) 0; Stop "cam-1" Exited]. Defined.

Lemma signals_go_to_launched_processes_witness :
  reachable_manager stopped_capture /\
  signals stopped_capture = [SIGTERM 4242] /\
  In 4242 (map snd (launched stopped_capture)).
Proof.
  split; [exact stopped_capture_reachable|]. split; [reflexivity|].
  apply (signals_go_to_launched_processes stopped_capture
           stopped_capture_reachable (SIGTERM 4242)).
  now left.
Defined.

Lemma get_worker_insert_other m r w (ws : gmap string nat) (d' : string) :
  registry_ok m -> (forall w0, heap m !! r = Some w0 -> False) ->
  ws !! d' = workers m !! d' ->
  (ws !! d' ≫= fun r0 => <[r := w]> (heap m) !! r0) = get_worker m d'.
Proof.
  intros [Hreg _] Hfresh ->. unfold get_worker.
  destruct (workers m !! d') as [r'|] eqn:E; [|reflexivity]. cbn.
  destruct (Hreg _ _ E) as (w0 & Hw0 & _).
  rewrite lookup_insert_ne; [reflexivity|]. intros <-. eauto.
Qed.

(** X16.  [start_capture] returns true exactly when the device has no
    running worker and the launch succeeds.  It then leaves the device
    with a running worker whose status shows the session, the pid and
    zeroed counters; when it returns false the registry, the launched
    processes and the signals are as before; and in either case the
    workers of the other devices are untouched. *)
Theorem start_capture_outcome m d sid popen now :
  reachable_manager m ->
  (snd (start_capture m d sid popen now) = true <->
   running_for m d = false /\ popen <> None) /\
  (snd (start_capture m d sid popen now) = true ->
   forall t,
     get_status (fst (start_capture m d sid popen now)) d t =
       Some {| st_device_id := d; st_session_id := Some sid;
               st_is_running := true; st_events_count := 0;
               st_error_count := 0; st_started_at := Some now;
               st_uptime :=
                 match now with
                 | S n => (Z.of_nat t - Z.of_nat (S n))%Z
                 | O => 0%Z
                 end;
               st_pid := popen |}) /\
  (snd (start_capture m d sid popen now) = false ->
   workers (fst (start_capture m d sid popen now)) = workers m /\
   launched (fst (start_capture m d sid popen now)) = launched m /\
   signals (fst (start_capture m d sid popen now)) = signals m) /\
  (forall d', d' <> d ->
     get_worker (fst (start_capture m d sid popen now)) d' = get_worker m d').
Proof.
  intros Hreach. pose proof (reachable_registry_ok m Hreach) as Hok.
  unfold start_capture.
  destruct (running_for m d) eqn:Hfor.
  { cbn [fst snd]. split; [split; [discriminate|intros [? _]; discriminate]|].
    split; [discriminate|]. split; [now repeat split|reflexivity]. }
  set (r := fresh (dom (heap m))).
  assert (Hfresh : forall w0, heap m !! r = Some w0 -> False)
    by apply fresh_not_in_heap.
  destruct popen as [pid|]; cbn [start new_worker is_running fst snd].
  - split; [split; [intros _; split; [reflexivity|discriminate]|reflexivity]|].
    split.
    + intros _ t. unfold get_status, get_worker. cbn [workers heap].
      rewrite lookup_insert_eq. cbn. rewrite lookup_insert_eq.
      unfold worker_status. cbn. reflexivity.
    + split; [discriminate|].
      intros d' Hne. unfold get_worker at 1. cbn [workers heap].
      apply (get_worker_insert_other m r _ _ d' Hok Hfresh).
      now rewrite lookup_insert_ne.
  - split; [split; [discriminate|intros [_ H]; now contradiction H]|].
    split; [discriminate|]. split.
    + intros _. cbn. now rewrite app_nil_r.
    + intros d' Hne. unfold get_worker at 1. cbn [workers heap].
      now apply (get_worker_insert_other m r _ _ d' Hok Hfresh).
Qed.

Lemma start_capture_outcome_witness :
  reachable_manager one_capture /\
  snd (start_capture one_capture "cam-2" 7 (Some 4343) 3) = true /\
  get_worker (fst (start_capture one_capture "cam-2" 7 (Some 4343) 3)) "cam-1" =
    get_worker one_capture "cam-1".
Proof.
  destruct (start_capture_outcome one_capture "cam-2" 7 (Some 4343) 3
              one_capture_reachable) as (Hiff & _ & _ & Hframe).
  split; [exact one_capture_reachable|].
  split; [apply Hiff; split; [reflexivity|discriminate]|].
  apply Hframe. discriminate.
Defined.

Lemma stop_capture_idle m d o :
  running_for m d = false -> stop_capture m d o = (m, false).
Proof.
  intros Hfor. unfold stop_capture.
  unfold running_for, get_worker in Hfor.
  destruct (workers m !! d) as [r|]; [|reflexivity]. cbn in Hfor.
  destruct (heap m !! r) as [w|] eqn:Hw; [|reflexivity].
  rewrite (stop_not_running w o Hfor).
  rewrite insert_id by exact Hw. rewrite app_nil_r.
  now rewrite manager_eta.
Qed.

Lemma running_has_process m d :
  heap_ok m -> running_for m d = true ->
  exists r w pid,
    workers m !! d = Some r /\ heap m !! r = Some w /\
    is_running w = true /\ process w = Some pid.
Proof.
  intros (Hproc & _) Hfor. unfold running_for, get_worker in Hfor.
  destruct (workers m !! d) as [r|]; [|discriminate]. cbn in Hfor.
  destruct (heap m !! r) as [w|] eqn:Hw; [|discriminate].
  destruct (process w) as [pid|] eqn:Hp; [eauto 10|].
  exfalso. exact (Hproc _ _ Hw Hfor Hp).
Qed.

Lemma stop_capture_running m d o r w pid :
  workers m !! d = Some r -> heap m !! r = Some w ->
  is_running w = true -> process w = Some pid ->
  stop_capture m d o =
    ({| heap := <[r := set_running w false]> (heap m);
        workers :=
          match o with
          | Exited | TimedOut => delete d (workers m)
          | _ => workers m
          end;
        launched := launched m;
        signals := signals m ++ stop_signals_for pid o |},
     match o with
     | Exited | TimedOut => true
     | _ => false
     end).
Proof.
  intros Hd Hw Hr Hp. unfold stop_capture, stop.
  rewrite Hd, Hw, Hp, Hr. cbn [negb]. now destruct o.
Qed.

Lemma stop_capture_other m d o d' :
  registry_ok m -> d' <> d ->
  get_worker (fst (stop_capture m d o)) d' = get_worker m d'.
Proof.
  intros [Hreg _] Hne. unfold stop_capture.
  destruct (workers m !! d) as [r|] eqn:Hd; [|reflexivity].
  destruct (heap m !! r) as [w|] eqn:Hw; [|reflexivity].
  destruct (stop w o) as [[w' b] sigs]. cbn [fst].
  unfold get_worker. cbn [workers heap].
  assert (Hlook : (if b then delete d (workers m) else workers m) !! d'
                  = workers m !! d').
  { destruct b; [now rewrite lookup_delete_ne|reflexivity]. }
  rewrite Hlook.
  destruct (workers m !! d') as [r'|] eqn:Hd'; [|reflexivity]. cbn.
  rewrite lookup_insert_ne; [reflexivity|].
  intros <-.
  destruct (Hreg _ _ Hd) as (w1 & Hw1 & Hdev1).
  destruct (Hreg _ _ Hd') as (w2 & Hw2 & Hdev2). congruence.
Qed.

Lemma stop_capture_stops m d o :
  heap_ok m -> running_for (fst (stop_capture m d o)) d = false.
Proof.
  intros Hheap.
  destruct (running_for m d) eqn:Hfor.
  - destruct (running_has_process m d Hheap Hfor) as (r & w & pid & Hd & Hw & Hr & Hp).
    rewrite (stop_capture_running m d o r w pid Hd Hw Hr Hp). cbn [fst].
    unfold running_for, get_worker. cbn [workers heap].
    destruct o; rewrite ?lookup_delete_eq, ?Hd; cbn;
      rewrite ?lookup_insert_eq; reflexivity.
  - rewrite (stop_capture_idle m d o Hfor). exact Hfor.
Qed.

(** X17.  [stop_capture] returns true exactly when the device has a
    running worker and its process is seen to exit, on its own or
    killed.  The device is then out of the registry and has no status.
    Whatever the call returns, the device has no running worker
    afterwards; the workers of the other devices are untouched. *)
Theorem stop_capture_outcome m d o :
  reachable_manager m ->
  (snd (stop_capture m d o) = true <->
   running_for m d = true /\ (o = Exited \/ o = TimedOut)) /\
  (snd (stop_capture m d o) = true ->
   workers (fst (stop_capture m d o)) !! d = None /\
   forall t, get_status (fst (stop_capture m d o)) d t = None) /\
  running_for (fst (stop_capture m d o)) d = false /\
  (forall d', d' <> d ->
     get_worker (fst (stop_capture m d o)) d' = get_worker m d').
Proof.
  intros Hreach.
  pose proof (reachable_registry_ok m Hreach) as Hok.
  pose proof (reachable_heap_ok m Hreach) as Hheap.
  split; [|split; [|split]].
  - destruct (running_for m d) eqn:Hfor.
    + destruct (running_has_process m d Hheap Hfor)
        as (r & w & pid & Hd & Hw & Hr & Hp).
      rewrite (stop_capture_running m d o r w pid Hd Hw Hr Hp). cbn [snd].
      destruct o; split; try discriminate; try tauto;
        try (intros [_ [H|H]]; discriminate).
    + rewrite (stop_capture_idle m d o Hfor). cbn. split; [discriminate|intros [? _]; discriminate].
  - destruct (running_for m d) eqn:Hfor.
    + destruct (running_has_process m d Hheap Hfor)
        as (r & w & pid & Hd & Hw & Hr & Hp).
      rewrite (stop_capture_running m d o r w pid Hd Hw Hr Hp). cbn [fst snd].
      destruct o; try discriminate; intros _;
        (split; [apply lookup_delete_eq|]); intros t;
        unfold get_status, get_worker; cbn [workers];
        now rewrite lookup_delete_eq.
    + rewrite (stop_capture_idle m d o Hfor). discriminate.
  - now apply stop_capture_stops.
  - intros d' Hne. now apply stop_capture_other.
Qed.

Lemma stop_capture_outcome_witness :
  reachable_manager one_capture /\
  snd (stop_capture one_capture "cam-1" TimedOut) = true /\
  workers (fst (stop_capture one_capture "cam-1" TimedOut)) !! "cam-1" = None.
Proof.
  destruct (stop_capture_outcome one_capture "cam-1" TimedOut
              one_capture_reachable) as (Hiff & Hgone & _).
  assert (H : snd (stop_capture one_capture "cam-1" TimedOut) = true).
  { apply Hiff. split; [reflexivity|now right]. }
  split; [exact one_capture_reachable|]. split; [exact H|].
  now destruct (Hgone H).
Defined.

(** X18.  A stop of a running worker asks the process to terminate
    first; the kill signal is sent only after that and only when the
    wait timed out, and nothing is sent when [terminate] itself failed. *)
Theorem stop_signals_in_order m d o :
  reachable_manager m -> running_for m d = true ->
  exists pid,
    In (d, pid) (launched m) /\
    signals (fst (stop_capture m d o)) = signals m ++ stop_signals_for pid o.
Proof.
  intros Hreach Hfor.
  pose proof (reachable_registry_ok m Hreach) as [Hreg _].
  pose proof (reachable_heap_ok m Hreach) as Hheap.
  destruct (running_has_process m d Hheap Hfor) as (r & w & pid & Hd & Hw & Hr & Hp).
  exists pid. split.
  - destruct Hheap as (_ & Hlaunch & _).
    destruct (Hreg _ _ Hd) as (w' & Hw' & Hdev).
    assert (w' = w) by congruence. subst w'. rewrite <- Hdev. eauto.
  - now rewrite (stop_capture_running m d o r w pid Hd Hw Hr Hp).
Qed.

Lemma stop_signals_in_order_witness :
  reachable_manager one_capture /\ running_for one_capture "cam-1" = true /\
  signals (fst (stop_capture one_capture "cam-1" TimedOut)) =
    [SIGTERM 4242; SIGKILL 4242].
Proof.
  split; [exact one_capture_reachable|]. split; [reflexivity|].
  destruct (stop_signals_in_order one_capture "cam-1" TimedOut
              one_capture_reachable eq_refl) as (pid & Hin & Hs).
  rewrite Hs. cbn in Hin. destruct Hin as [[= <-]|[]]. reflexivity.
Defined.

(** X19.  When the stop of a running worker fails ([terminate] or
    [wait] raises), [stop_capture] returns false, the worker stays in
    the registry marked as not running, and the next start for the
    device launches a second process although the first was never seen
    to exit. *)
Theorem failed_stop_allows_second_process m d o sid pid' now :
  reachable_manager m -> running_for m d = true ->
  o = TerminateFailed \/ o = WaitFailed ->
  snd (stop_capture m d o) = false /\
  workers (fst (stop_capture m d o)) !! d = workers m !! d /\
  (exists s, forall t,
      get_status (fst (stop_capture m d o)) d t = Some (s t) /\
      st_is_running (s t) = false) /\
  snd (start_capture (fst (stop_capture m d o)) d sid (Some pid') now) = true /\
  exists pid,
    In (d, pid) (launched m) /\
    launched (fst (start_capture (fst (stop_capture m d o)) d sid (Some pid') now))
      = launched m ++ [(d, pid')].
Proof.
  intros Hreach Hfor Ho.
  pose proof (reachable_registry_ok m Hreach) as [Hreg _].
  pose proof (reachable_heap_ok m Hreach) as Hheap.
  destruct (running_has_process m d Hheap Hfor) as (r & w & pid & Hd & Hw & Hr & Hp).
  pose proof (stop_capture_stops m d o Hheap) as Hstopped.
  destruct (start_capture_first _ d sid pid' now Hstopped) as (m2 & E2 & _ & Hl2).
  rewrite (stop_capture_running m d o r w pid Hd Hw Hr Hp) in *.
  cbn [fst snd] in *.
  assert (Hw_same : (match o with
                     | Exited | TimedOut => delete d (workers m)
                     | _ => workers m
                     end) = workers m).
  { destruct Ho as [-> | ->]; reflexivity. }
  split; [destruct Ho as [-> | ->]; reflexivity|].
  split; [cbn [workers]; now rewrite Hw_same|].
  split.
  - exists (fun t => worker_status (set_running w false) t). intros t.
    unfold get_status, get_worker. cbn [workers heap].
    rewrite Hw_same, Hd. cbn. rewrite lookup_insert_eq. now split.
  - rewrite E2. cbn [fst snd]. split; [reflexivity|].
    exists pid. split.
    + destruct Hheap as (_ & Hlaunch & _).
      destruct (Hreg _ _ Hd) as (w' & Hw' & Hdev).
      assert (w' = w) by congruence. subst w'. rewrite <- Hdev. eauto.
    + rewrite Hl2. reflexivity.
Qed.

Lemma failed_stop_allows_second_process_witness :
  reachable_manager one_capture /\ running_for one_capture "cam-1" = true /\
  snd (stop_capture one_capture "cam-1" WaitFailed) = false /\
  snd (start_capture (fst (stop_capture one_capture "cam-1" WaitFailed))
         "cam-1" 2 (Some 4343) 9) = true.
Proof.
  destruct (failed_stop_allows_second_process one_capture "cam-1" WaitFailed
              2 4343 9 one_capture_reachable eq_refl)
    as (Hfalse & _ & _ & Hstart & _); [now right|].
  split; [exact one_capture_reachable|]. split; [reflexivity|].
  split; [exact Hfalse | exact Hstart].
Defined.

Lemma running_for_other_stop m d o d' :
  registry_ok m -> d' <> d ->
  running_for (fst (stop_capture m d o)) d' = running_for m d'.
Proof.
  intros Hok Hne. unfold running_for.
  now rewrite (stop_capture_other m d o d' Hok Hne).
Qed.

Lemma stop_capture_workers_shrink m d o d' r :
  workers (fst (stop_capture m d o)) !! d' = Some r -> workers m !! d' = Some r.
Proof.
  unfold stop_capture.
  destruct (workers m !! d) as [r0|]; [|tauto].
  destruct (heap m !! r0) as [w|]; [|tauto].
  destruct (stop w o) as [[w' b] sigs]. cbn [fst workers].
  destruct b; [|tauto]. intros H. apply lookup_delete_Some in H. tauto.
Qed.

Lemma stop_capture_launched m d o :
  launched (fst (stop_capture m d o)) = launched m.
Proof.
  unfold stop_capture.
  destruct (workers m !! d) as [r0|]; [|reflexivity].
  destruct (heap m !! r0) as [w|]; [|reflexivity].
  now destruct (stop w o) as [[w' b] sigs].
Qed.

Lemma stop_each l outcome : forall m,
  registry_ok m -> heap_ok m ->
  let m' := foldl (fun m0 d => fst (stop_capture m0 d (outcome d))) m l in
  registry_ok m' /\ heap_ok m' /\
  (forall d, In d l -> running_for m' d = false) /\
  (forall d, ~ In d l -> running_for m' d = running_for m d) /\
  (forall d r, workers m' !! d = Some r -> workers m !! d = Some r) /\
  launched m' = launched m.
Proof.
  induction l as [|d0 l IH]; intros m Hok Hheap.
  - cbn. repeat split; try assumption; try tauto; apply Hok || apply Hheap.
  - cbn [foldl].
    pose proof (stop_capture_keeps_registry m d0 (outcome d0) Hok) as Hok1.
    pose proof (stop_capture_keeps_heap m d0 (outcome d0) Hheap) as Hheap1.
    destruct (IH _ Hok1 Hheap1) as (Hok2 & Hheap2 & Hin & Hout & Hsub & Hl).
    cbn zeta in *.
    split; [exact Hok2|]. split; [exact Hheap2|].
    split; [|split; [|split]].
    + intros d [<- | Hd]; [|now apply Hin].
      destruct (in_dec string_dec d0 l) as [Hd|Hd]; [now apply Hin|].
      rewrite (Hout d0 Hd). now apply stop_capture_stops.
    + intros d Hd.
      assert (d <> d0) by (intros ->; apply Hd; now left).
      rewrite Hout by (intros H'; apply Hd; now right).
      now apply running_for_other_stop.
    + intros d r H. eapply stop_capture_workers_shrink. apply Hsub. exact H.
    + rewrite Hl. apply stop_capture_launched.
Qed.

(** X20.  After [stop_all] no device has a running worker, however the
    single stops end; no worker is added to the registry and no process
    is launched. *)
Theorem stop_all_stops_everything m outcome :
  reachable_manager m ->
  (forall d, running_for (stop_all m outcome) d = false) /\
  (forall d r, workers (stop_all m outcome) !! d = Some r ->
               workers m !! d = Some r) /\
  launched (stop_all m outcome) = launched m.
Proof.
  intros Hreach.
  pose proof (reachable_registry_ok m Hreach) as Hok.
  pose proof (reachable_heap_ok m Hreach) as Hheap.
  destruct (stop_each (map fst (map_to_list (workers m))) outcome m Hok Hheap)
    as (_ & _ & Hin & Hout & Hsub & Hl).
  fold (stop_all m outcome) in Hin, Hout, Hsub, Hl.
  split; [|split; assumption].
  intros d.
  destruct (workers m !! d) as [r|] eqn:Hd.
  - apply Hin. apply in_map_iff. exists (d, r). split; [reflexivity|].
    apply list_elem_of_In. now apply elem_of_map_to_list.
  - rewrite Hout.
    + unfold running_for, get_worker. now rewrite Hd.
    + intros Hd'. apply in_map_iff in Hd' as ([d' r] & Hfst & Hd').
      cbn in Hfst. subst d'.
      apply list_elem_of_In, elem_of_map_to_list in Hd'. congruence.
Qed.

Lemma stop_all_stops_everything_witness :
  reachable_manager one_capture /\
  running_for one_capture "cam-1" = true /\
  running_for (stop_all one_capture (fun _ => WaitFailed)) "cam-1" = false.
Proof.
  split; [exact one_capture_reachable|]. split; [reflexivity|].
  now destruct (stop_all_stops_everything one_capture (fun _ => WaitFailed)
                  one_capture_reachable) as [H _].
Defined.

(** X21.  When the process of a running capture ends after the reader
    has handed over its events, the status of the device shows the
    worker as not running with the events counted, the status endpoint
    says the same, and a stop for the device returns false and changes
    nothing. *)
Theorem exited_process_is_reported json_loads m d r w lines o :
  reachable_manager m ->
  workers m !! d = Some r -> heap m !! r = Some w -> is_running w = true ->
  Forall (fun raw => raw <> EmptyString) lines ->
  (forall t,
      exists s,
        get_status (reader_finished json_loads true m r lines) d t = Some s /\
        st_is_running s = false /\
        st_events_count s =
          events_count w
          + length (omap (event_of_line json_loads (device_id w)) lines) /\
        reply_is_running
          (get_capture_status (reader_finished json_loads true m r lines) d t)
          = false) /\
  stop_capture (reader_finished json_loads true m r lines) d o =
    (reader_finished json_loads true m r lines, false).
Proof.
  intros Hreach Hd Hw Hr Hall.
  destruct (reachable_heap_ok m Hreach) as (Hproc & _).
  destruct (process w) as [pid|] eqn:Hp; [|exfalso; exact (Hproc _ _ Hw Hr Hp)].
  destruct (ReaderFacts.read_lines_open json_loads lines w (Out [] []) Hall)
    as (w' & o' & E & _ & _ & _ & He & _).
  assert (Hread : fst (read_stdout json_loads true w lines) = set_running w' false).
  { unfold read_stdout. now rewrite Hp, E. }
  assert (Hget : get_worker (reader_finished json_loads true m r lines) d
                 = Some (set_running w' false)).
  { unfold get_worker, reader_finished. cbn [workers heap].
    rewrite Hd. cbn. now rewrite lookup_alter_eq, Hw, <- Hread. }
  split.
  - intros t. exists (worker_status (set_running w' false) t).
    unfold get_capture_status, get_status. rewrite Hget.
    repeat split. cbn. exact He.
  - apply stop_capture_idle. unfold running_for. now rewrite Hget.
Qed.

Lemma exited_process_is_reported_witness :
  reachable_manager one_capture /\
  exists s,
    get_status (reader_finished sample_loads true one_capture 0 three_events)
      "cam-1" 10 = Some s /\
    st_is_running s = false /\ st_events_count s = 3 /\
    stop_capture (reader_finished sample_loads true one_capture 0 three_events)
      "cam-1" Exited =
      (reader_finished sample_loads true one_capture 0 three_events, false).
Proof.
  split; [exact one_capture_reachable|].
  assert (Hlines : Forall (fun raw => raw <> EmptyString) three_events).
  { repeat constructor; discriminate. }
  destruct (exited_process_is_reported sample_loads one_capture "cam-1" 0
              {| device_id := "cam-1"; process := Some 4242; is_running := true;
                 events_count := 0; error_count := 0;
                 started_at := Some 0; session_id := Some 1 |}
              three_events Exited one_capture_reachable eq_refl eq_refl eq_refl
              Hlines) as (Hstatus & Hstop).
  destruct (Hstatus 10) as (s & Hs & Hrun & Hcount & _).
  exists s. split; [exact Hs|]. split; [exact Hrun|].
  split; [exact Hcount | exact Hstop].
Defined.

(** X22.  The status endpoint reports a device as running exactly when
    its registered worker is running, and [get_all_status] lists the
    registered devices, each with the status [get_status] gives. *)
Theorem status_views_agree m now :
  reachable_manager m ->
  (forall d, reply_is_running (get_capture_status m d now) = running_for m d) /\
  (forall d, get_all_status m now !! d = get_status m d now) /\
  (forall d, is_Some (get_all_status m now !! d) <-> is_Some (workers m !! d)).
Proof.
  intros Hreach. destruct (reachable_registry_ok m Hreach) as [Hreg _].
  assert (Hall : forall d, get_all_status m now !! d = get_status m d now).
  { intros d. unfold get_all_status, get_status, get_worker.
    rewrite lookup_omap. destruct (workers m !! d) as [r|]; [|reflexivity].
    cbn. now destruct (heap m !! r). }
  split; [|split; [exact Hall|]].
  - intros d. unfold get_capture_status, get_status, running_for.
    now destruct (get_worker m d).
  - intros d. rewrite Hall. unfold get_status, get_worker.
    destruct (workers m !! d) as [r|] eqn:Hd; cbn.
    + destruct (Hreg _ _ Hd) as (w & -> & _). split; eauto.
    + split; intros [? ?]; discriminate.
Qed.

Lemma status_views_agree_witness :
  reachable_manager one_capture /\
  reply_is_running (get_capture_status one_capture "cam-1" 5) = true /\
  reply_is_running (get_capture_status one_capture "cam-2" 5) = false.
Proof.
  destruct (status_views_agree one_capture 5 one_capture_reachable) as (H & _).
  split; [exact one_capture_reachable|].
  split; rewrite H; reflexivity.
Defined.

End SupervisorExtFacts.

Module IngestExtFacts.
Import Reader Ingest IngestFacts IngestExt.

Section facts.

Variable fromisoformat : string -> option Z.
Variable isoformat : Z -> string.
Variable validation_error : IngestRequest -> string.

Lemma ingest_loop_trace env events : forall i w ins failed,
  exists w' ins' failed',
    ingest_loop fromisoformat env i w events ins failed = (w', ins', failed') /\
    map snd (events_table w') = map snd (events_table w) ++ stored env i events /\
    relay w' = relay w ++ published env i events /\
    fallback_log w' = fallback_log w ++ fallen_back env i events /\
    length (stored env i events) + length (fallen_back env i events)
      + length (lost env i events) = length events.
Proof.
  induction events as [|ev rest IH]; intros i w ins failed.
  - exists w, ins, failed. cbn. rewrite !app_nil_r. now repeat split.
  - cbn [ingest_loop stored published fallen_back lost length].
    unfold insert_event.
    destruct (db_ok (env i)) eqn:Hdb; cbn [negb andb].
    + match goal with
      | |- context [ingest_loop _ _ _ ?w1 _ ?a ?b] =>
        destruct (IH (S i) w1 a b) as (w' & ins' & failed' & E & Ht & Hr & Hf & Hn)
      end.
      exists w', ins', failed'. rewrite E. split; [reflexivity|].
      rewrite Ht, Hr, Hf. unfold publish_event, log_error.
      destruct (publish_ok (env i)); cbn [events_table relay fallback_log];
        rewrite ?map_app; cbn [map snd length];
        rewrite <- ?app_assoc; cbn [app]; repeat split; lia.
    + match goal with
      | |- context [ingest_loop _ _ _ ?w1 _ ?a ?b] =>
        destruct (IH (S i) w1 a b) as (w' & ins' & failed' & E & Ht & Hr & Hf & Hn)
      end.
      exists w', ins', failed'. rewrite E. split; [reflexivity|].
      rewrite Ht, Hr, Hf. unfold write_to_fallback, log_error.
      destruct (fallback_ok (env i));
        cbn [events_table relay fallback_log negb length];
        rewrite <- ?app_assoc; cbn [app]; repeat split; lia.
Qed.

Lemma published_stored env events : forall i ce,
  In ce (published env i events) ->
  In (snd ce) (stored env i events) /\
  fst ce = "live:" +:+ source_device (snd ce).
Proof.
  induction events as [|ev rest IH]; intros i ce Hin; [contradiction|].
  cbn [published stored] in *.
  destruct (db_ok (env i)); cbn [andb] in Hin.
  - destruct (publish_ok (env i)).
    + destruct Hin as [<- | Hin]; [split; [now left|reflexivity]|].
      destruct (IH _ _ Hin). split; [now right|assumption].
    + destruct (IH _ _ Hin). split; [now right|assumption].
  - now apply IH.
Qed.

(** X23.  [/ingest] stores the events the database takes in the order
    of the batch, and what it puts on the relay are events it has just
    stored, in the same order, each on the channel of its device. *)
Theorem ingest_keeps_batch_order env now w req ev rest :
  req_events req = Some (ev :: rest) ->
  map snd (events_table (fst (ingest fromisoformat isoformat validation_error env now w req))) =
    map snd (events_table w) ++ stored env 0 (ev :: rest) /\
  relay (fst (ingest fromisoformat isoformat validation_error env now w req)) =
    relay w ++ published env 0 (ev :: rest) /\
  (forall ce, In ce (published env 0 (ev :: rest)) ->
     In (snd ce) (stored env 0 (ev :: rest)) /\
     fst ce = "live:" +:+ source_device (snd ce)).
Proof.
  intros Hreq. unfold ingest, events_of. rewrite Hreq.
  destruct (ingest_loop_trace env (ev :: rest) 0 w 0 0)
    as (w' & ins' & failed' & E & Ht & Hr & _).
  rewrite E. cbn [fst]. split; [exact Ht|]. split; [exact Hr|].
  apply published_stored.
Qed.

(** X24.  Every event of a batch ends in the events table, in the
    fallback file or is lost, and it can only be lost when both the
    database and the fallback file fail for it: with a writable
    fallback file the table and the file together grow by the size of
    the batch. *)
Theorem ingest_loses_nothing_with_fallback env now w req ev rest :
  req_events req = Some (ev :: rest) ->
  length (events_table (fst (ingest fromisoformat isoformat validation_error env now w req)))
  + length (fallback_log (fst (ingest fromisoformat isoformat validation_error env now w req)))
  + length (lost env 0 (ev :: rest)) =
    length (events_table w) + length (fallback_log w) + length (ev :: rest) /\
  ((forall i, fallback_ok (env i) = true) -> lost env 0 (ev :: rest) = []).
Proof.
  intros Hreq. split.
  - unfold ingest, events_of. rewrite Hreq.
    destruct (ingest_loop_trace env (ev :: rest) 0 w 0 0)
      as (w' & ins' & failed' & E & Ht & _ & Hf & Hn).
    rewrite E. cbn [fst].
    apply (f_equal length) in Ht. rewrite length_app, !length_map in Ht.
    rewrite Ht, Hf, length_app. lia.
  - intros Hfb. generalize 0. generalize (ev :: rest).
    induction l as [|e l IH]; intros i; [reflexivity|].
    cbn [lost]. rewrite Hfb. cbn [negb]. rewrite andb_false_r. apply IH.
Qed.

Lemma events_of_no_batch now req :
  no_batch req ->
  events_of isoformat now req =
    match single_event isoformat now req with
    | Some e => Some [e]
    | None => None
    end.
Proof. unfold events_of. now intros [-> | ->]. Qed.

(** X25.  A request without a batch, or with an empty one, is read as
    one event.  Without an emotion or without its confidence it is
    answered with status 400, the detail being [Invalid event data: ]
    followed by the text of the validation error, and nothing is
    stored, written or published.  Otherwise the event gets the device name default and
    the current time where the request has none, and the answer counts
    it as inserted or as written to the fallback file. *)
Theorem single_event_request env now w req :
  no_batch req ->
  (req_emotion req = None \/ req_emotion_confidence req = None ->
   snd (ingest fromisoformat isoformat validation_error env now w req) =
     BadRequest ("Invalid event data: " +:+ validation_error req) /\
   events_table (fst (ingest fromisoformat isoformat validation_error env now w req)) =
     events_table w /\
   fallback_log (fst (ingest fromisoformat isoformat validation_error env now w req)) =
     fallback_log w /\
   relay (fst (ingest fromisoformat isoformat validation_error env now w req)) = relay w) /\
  (forall emo conf,
      req_emotion req = Some emo -> req_emotion_confidence req = Some conf ->
      exists ev,
        single_event isoformat now req = Some ev /\
        source_device ev = or_string (req_source_device req) "default" /\
        timestamp ev = or_string (req_timestamp req) (isoformat now) /\
        snd (ingest fromisoformat isoformat validation_error env now w req) =
          Ok {| status := "ok";
                inserted := if db_ok (env 0%nat) then 1 else 0;
                message :=
                  if db_ok (env 0%nat) then None
                  else Some "1 events written to fallback" |} /\
        map snd (events_table (fst (ingest fromisoformat isoformat validation_error env now w req))) =
          map snd (events_table w) ++ (if db_ok (env 0%nat) then [ev] else [])).
Proof.
  intros Hnb. pose proof (events_of_no_batch now req Hnb) as Hev.
  split.
  - intros Hmiss. unfold ingest. rewrite Hev.
    assert (single_event isoformat now req = None) as ->.
    { unfold single_event. destruct Hmiss as [-> | ->]; [reflexivity|].
      now destruct (req_emotion req). }
    now repeat split.
  - intros emo conf Hemo Hconf. unfold ingest. rewrite Hev.
    unfold single_event. rewrite Hemo, Hconf.
    eexists. split; [reflexivity|]. split; [reflexivity|].
    split; [reflexivity|].
    cbn [ingest_loop]. unfold insert_event.
    destruct (db_ok (env 0%nat)); cbn [fst snd].
    + split; [reflexivity|].
      unfold publish_event, log_error.
      destruct (publish_ok (env 0%nat)); cbn; now rewrite map_app.
    + split; [reflexivity|].
      unfold write_to_fallback, log_error.
      destruct (fallback_ok (env 0%nat)); cbn; now rewrite app_nil_r.
Qed.

End facts.

Lemma single_event_request_witness :
  no_batch (single_request None) /\
  snd (ingest (fun _ => None) (fun _ => "2024-01-01T00:00:00") (fun _ => EmptyString) all_up 0
         empty_world (single_request None)) =
    Ok {| status := "ok"; inserted := 1; message := None |} /\
  exists ev,
    single_event (fun _ => "2024-01-01T00:00:00") 0 (single_request None) = Some ev /\
    source_device ev = "default".
Proof.
  assert (Hnb : no_batch (single_request None)) by now right.
  split; [exact Hnb|].
  destruct (single_event_request (fun _ => None) (fun _ => "2024-01-01T00:00:00") (fun _ => EmptyString)
              all_up 0 empty_world (single_request None) Hnb) as [_ H].
  destruct (H "Happy" 1%R eq_refl eq_refl) as (ev & Hev & Hdev & _ & Hreply & _).
  split; [exact Hreply|]. exists ev. split; [exact Hev|exact Hdev].
Defined.

Lemma ingest_keeps_batch_order_witness :
  relay (fst (ingest (fun _ => None) (fun _ => EmptyString) (fun _ => EmptyString) all_up 0 empty_world
                (batch_request [sample_event "cam-1"; sample_event "cam-2"]))) =
    [("live:cam-1", sample_event "cam-1"); ("live:cam-2", sample_event "cam-2")].
Proof.
  destruct (ingest_keeps_batch_order (fun _ => None) (fun _ => EmptyString) (fun _ => EmptyString)
              all_up 0 empty_world
              (batch_request [sample_event "cam-1"; sample_event "cam-2"])
              (sample_event "cam-1") [sample_event "cam-2"] eq_refl)
    as (_ & Hr & _).
  rewrite Hr. reflexivity.
Defined.

Lemma ingest_loses_nothing_with_fallback_witness :
  length (events_table
            (fst (ingest (fun _ => None) (fun _ => EmptyString) (fun _ => EmptyString) first_only 0
                    empty_world
                    (batch_request [sample_event "cam-1"; sample_event "cam-2"]))))
  + length (fallback_log
              (fst (ingest (fun _ => None) (fun _ => EmptyString) (fun _ => EmptyString) first_only 0
                      empty_world
                      (batch_request [sample_event "cam-1"; sample_event "cam-2"]))))
  = 2.
Proof.
  destruct (ingest_loses_nothing_with_fallback (fun _ => None)
              (fun _ => EmptyString) (fun _ => EmptyString) first_only 0 empty_world
              (batch_request [sample_event "cam-1"; sample_event "cam-2"])
              (sample_event "cam-1") [sample_event "cam-2"] eq_refl)
    as (Hsum & Hnone).
  rewrite Hnone in Hsum by reflexivity. cbn [length] in Hsum.
  cbn [empty_world events_table fallback_log length] in Hsum. lia.
Defined.

End IngestExtFacts.

Module FanoutExtFacts.
Import Fanout FanoutFacts FanoutExt.

#[local] Set Warnings "-clear-no-such-hyp".

Lemma connect_no_empty ac ws room :
  no_empty_room ac -> no_empty_room (connect ac ws room).
Proof.
  intros H room' s. unfold connect.
  destruct (decide (room = room')) as [<-|Hne].
  - rewrite lookup_insert_eq. intros [= <-]. set_solver.
  - rewrite lookup_insert_ne by exact Hne. apply H.
Qed.

Lemma disconnect_no_empty ac ws room :
  no_empty_room ac -> no_empty_room (disconnect ac ws room).
Proof.
  intros H room' s. unfold disconnect.
  destruct (ac !! room) as [s0|] eqn:E; [|apply H].
  case_decide as Hs.
  - intros Hl. apply lookup_delete_Some in Hl as [_ Hl]. eapply H; eauto.
  - destruct (decide (room = room')) as [<-|Hne].
    + rewrite lookup_insert_eq. now intros [= <-].
    + rewrite lookup_insert_ne by exact Hne. apply H.
Qed.

Lemma drop_all_no_empty room l : forall sv,
  no_empty_room (active_connections sv) ->
  no_empty_room (active_connections (drop_all sv room l)).
Proof.
  induction l as [|c rest IH]; intros sv H; [exact H|].
  cbn [drop_all]. apply IH. cbn [registry_disconnect active_connections].
  now apply disconnect_no_empty.
Qed.

Lemma continue_loop_no_empty sv tid room message it d pick :
  no_empty_room (active_connections sv) ->
  no_empty_room (active_connections (continue_loop sv tid room message it d pick)).
Proof.
  intros H. unfold continue_loop, after_item, set_task_state.
  destruct (iter_next _ _ _ _); cbn [active_connections]; try exact H.
  now apply drop_all_no_empty.
Qed.

Lemma wake_no_empty sv tid w pick :
  no_empty_room (active_connections sv) ->
  no_empty_room (active_connections (subscribe_and_forward sv tid w pick)).
Proof.
  intros H. unfold subscribe_and_forward. destruct (tasks sv !! tid) as [t|]; [|exact H].
  destruct (cancel_requested t).
  - destruct w as [item| | |]; try exact H.
    destruct (state t); try exact H.
    now apply continue_loop_no_empty.
  - destruct w as [[data|]| | |]; destruct (state t); try exact H;
      unfold broadcast_to_room, after_item, set_task_state;
      try destruct (active_connections sv !! task_room t);
      try (apply continue_loop_no_empty); exact H.
Qed.

Lemma step_no_empty sv a :
  no_empty_room (active_connections sv) ->
  no_empty_room (active_connections (step sv a)).
Proof.
  intros H. destruct a as [ws room | tid w pick | tid]; cbn [step].
  - cbn [active_connections registry_connect]. now apply connect_no_empty.
  - now apply wake_no_empty.
  - destruct (tasks sv !! tid) as [t|]; [|exact H].
    destruct (handler_done t); [exact H|].
    cbn [active_connections registry_disconnect]. now apply disconnect_no_empty.
Qed.

(** X26.  The registry never keeps a room without a socket: whatever
    connects, disconnects and broadcasts have happened, every room that
    is a key has at least one socket. *)
Theorem registry_has_no_empty_room trace :
  no_empty_room (active_connections (run empty_server trace)).
Proof.
  unfold run.
  assert (H : forall sv, no_empty_room (active_connections sv) ->
                         no_empty_room (active_connections (foldl step sv trace))).
  { induction trace as [|a l IH]; intros sv Hsv; [exact Hsv|].
    cbn [foldl]. apply IH. now apply step_no_empty. }
  apply H. intros room s Hl. cbn in Hl. now rewrite lookup_empty in Hl.
Qed.

(** X27.  Connecting a socket that is not in the room and disconnecting
    it again gives back the registry as it was, and disconnecting a
    socket that is not in the room changes nothing. *)
Theorem connect_disconnect_round_trip ac ws room :
  no_empty_room ac -> ws ∉ subscribers ac room ->
  disconnect (connect ac ws room) ws room = ac /\
  disconnect ac ws room = ac.
Proof.
  intros Hne Hnot. unfold connect, disconnect, subscribers in *.
  rewrite lookup_insert_eq.
  destruct (ac !! room) as [s|] eqn:E; cbn in *.
  - assert (Hs : s <> ∅) by (eapply Hne; eauto).
    assert (H1 : (s ∪ {[ws]}) ∖ {[ws]} = s) by set_solver.
    assert (H2 : s ∖ {[ws]} = s) by set_solver.
    rewrite H1, H2. case_decide; [contradiction|].
    split; [rewrite insert_insert_eq|]; now apply insert_id.
  - split; [|reflexivity].
    case_decide as H; [|exfalso; apply H; set_solver].
    rewrite delete_insert_eq. now apply delete_id.
Qed.

Lemma connect_disconnect_round_trip_witness :
  disconnect (connect (connect ∅ 1 "cam-1") 2 "cam-1") 2 "cam-1" =
    connect ∅ 1 "cam-1".
Proof.
  apply (connect_disconnect_round_trip (connect ∅ 1 "cam-1") 2 "cam-1").
  - apply connect_no_empty. intros room s H. now rewrite lookup_empty in H.
  - vm_compute. set_solver.
Defined.

Lemma drop_all_spec room l : forall sv,
  effects (drop_all sv room l) = effects sv ++ map Removed l /\
  subscribers (active_connections (drop_all sv room l)) room =
    subscribers (active_connections sv) room ∖ list_to_set l /\
  (forall room', room' <> room ->
     active_connections (drop_all sv room l) !! room' =
     active_connections sv !! room').
Proof.
  induction l as [|c rest IH]; intros sv; cbn [drop_all map].
  - rewrite app_nil_r. split; [reflexivity|]. split; [set_solver|reflexivity].
  - destruct (IH (registry_disconnect sv c room)) as (He & Hs & Ho).
    cbn [registry_disconnect effects active_connections] in He, Hs, Ho.
    split; [|split].
    + rewrite He, <- app_assoc. reflexivity.
    + rewrite Hs, subscribers_disconnect. set_solver.
    + intros room' Hne. rewrite (Ho room' Hne). now apply disconnect_other.
Qed.

Lemma alter_state_lookup (l : list task) tid t st :
  l !! tid = Some t ->
  alter (fun t => set_state t st) tid l !! tid = Some (set_state t st).
Proof. intros H. now rewrite list_lookup_alter_eq, H. Qed.

Lemma iter_next_untouched ac room (s : gset nat) todo pick :
  ac !! room = Some s ->
  iter_next ac room (Iter (size s) todo true false) pick =
    match todo with
    | [] => StopIteration
    | c :: rest => Yield c (Iter (size s) rest true false)
    end.
Proof.
  intros Hs. unfold iter_next, iterated_set, subscribers.
  cbn [it_attached it_used it_changed it_todo].
  rewrite Hs. cbn [default]. now rewrite Nat.eqb_refl.
Qed.

(** The first loop of a broadcast that nothing interrupts, from any
    point of the walk through the set. *)
Lemma solitary_loop tid room message (s : gset nat) todo :
  forall outcomes d sv t,
    length outcomes = length todo ->
    tasks sv !! tid = Some t -> task_room t = room ->
    cancel_requested t = false ->
    active_connections sv !! room = Some s ->
    effects (run (continue_loop sv tid room message
                    (Iter (size s) todo true false) d None)
               (map (fun ok => Wake tid (outcome_wakeup ok) None) outcomes)) =
      effects sv ++ zip_with (fun c ok => Sent c message ok) todo outcomes
      ++ map Removed (elements (d ∪ failed_of todo outcomes)) /\
    subscribers
      (active_connections
         (run (continue_loop sv tid room message
                 (Iter (size s) todo true false) d None)
            (map (fun ok => Wake tid (outcome_wakeup ok) None) outcomes)))
      room = s ∖ (d ∪ failed_of todo outcomes) /\
    (forall room', room' <> room ->
       active_connections
         (run (continue_loop sv tid room message
                 (Iter (size s) todo true false) d None)
            (map (fun ok => Wake tid (outcome_wakeup ok) None) outcomes))
       !! room' = active_connections sv !! room') /\
    state <$>
      tasks (run (continue_loop sv tid room message
                    (Iter (size s) todo true false) d None)
               (map (fun ok => Wake tid (outcome_wakeup ok) None) outcomes))
      !! tid =
      Some (if bool_decide (s ∖ (d ∪ failed_of todo outcomes) = ∅)
            then Unsubscribing else Listening).
Proof.
  induction todo as [|c rest IH]; intros outcomes d sv t Hlen Ht Hroom Hc Hs.
  - destruct outcomes; [|discriminate]. cbn [map run foldl failed_of zip_with].
    assert (Hd : d ∪ (∅ : gset nat) = d) by set_solver. rewrite Hd.
    unfold continue_loop. rewrite (iter_next_untouched _ _ _ _ _ Hs).
    destruct (drop_all_spec room (elements d) sv) as (He & Hsub & Ho).
    assert (Hsub' : subscribers (active_connections (drop_all sv room (elements d)))
                      room = s ∖ d).
    { rewrite Hsub, list_to_set_elements_L. unfold subscribers. now rewrite Hs. }
    unfold after_item, set_task_state. cbn [effects active_connections tasks].
    rewrite Hsub'.
    split; [exact He|]. split; [reflexivity|]. split; [exact Ho|].
    rewrite list_lookup_alter_eq.
    destruct (lookup_lt_is_Some_2 (tasks (drop_all sv room (elements d))) tid)
      as [t' Ht'].
    { rewrite drop_all_tasks_length. now apply lookup_lt_Some in Ht. }
    rewrite Ht'. reflexivity.
  - destruct outcomes as [|ok oks]; [discriminate|].
    cbn [length] in Hlen. injection Hlen as Hlen.
    cbn [map run foldl zip_with failed_of].
    unfold continue_loop at 1 2 3 4.
    rewrite (iter_next_untouched _ _ _ _ _ Hs).
    set (b := {| bc_message := message; bc_connection := c;
                 bc_iter := Iter (size s) rest true false;
                 bc_disconnected := d |}).
    set (sv1 := set_task_state sv tid (Sending b)).
    assert (Ht1 : tasks sv1 !! tid = Some (set_state t (Sending b))).
    { unfold sv1, set_task_state. cbn [tasks]. now apply alter_state_lookup. }
    assert (Hstep : step sv1 (Wake tid (outcome_wakeup ok) None) =
              continue_loop (add_effect sv1 (Sent c message ok)) tid room message
                (Iter (size s) rest true false)
                (if ok then d else d ∪ {[c]}) None).
    { cbn [step]. unfold subscribe_and_forward. rewrite Ht1.
      cbn [cancel_requested set_state state task_room]. rewrite Hc, Hroom.
      destruct ok; reflexivity. }
    rewrite Hstep.
    assert (Hset : (if ok then d else d ∪ {[c]}) ∪ failed_of rest oks =
                   d ∪ ((if ok then ∅ else {[c]}) ∪ failed_of rest oks)).
    { destruct ok; set_solver. }
    destruct (IH oks (if ok then d else d ∪ {[c]})
                (add_effect sv1 (Sent c message ok))
                (set_state t (Sending b)) Hlen Ht1 Hroom Hc Hs)
      as (He & Hsub & Ho & Hst).
    rewrite Hset in He, Hsub, Hst.
    fold (run (continue_loop (add_effect sv1 (Sent c message ok)) tid room
                 message (Iter (size s) rest true false)
                 (if ok then d else d ∪ {[c]}) None)
            (map (fun ok => Wake tid (outcome_wakeup ok) None) oks)).
    split; [|split; [|split]].
    + rewrite He. cbn [add_effect effects sv1 set_task_state].
      now rewrite <- app_assoc.
    + exact Hsub.
    + exact Ho.
    + exact Hst.
Qed.

(** X28.  A broadcast during which nothing else runs sends the message
    to every socket of the room in turn, whatever the sends before it
    did; the sockets whose send raised are removed after the last send,
    and only they; the other rooms are left alone; and the task goes
    back to listening unless the room is left without a socket. *)
Theorem solitary_broadcast_isolates_failures sv tid t s message outcomes :
  tasks sv !! tid = Some t -> state t = Listening ->
  cancel_requested t = false ->
  active_connections sv !! task_room t = Some s ->
  length outcomes = size s ->
  effects (run sv (solitary_broadcast tid message outcomes)) =
    effects sv
    ++ zip_with (fun c ok => Sent c message ok) (elements s) outcomes
    ++ map Removed (elements (failed_of (elements s) outcomes)) /\
  subscribers (active_connections (run sv (solitary_broadcast tid message outcomes)))
    (task_room t) = s ∖ failed_of (elements s) outcomes /\
  (forall room', room' <> task_room t ->
     active_connections (run sv (solitary_broadcast tid message outcomes)) !! room'
     = active_connections sv !! room') /\
  state <$> tasks (run sv (solitary_broadcast tid message outcomes)) !! tid =
    Some (if bool_decide (s ∖ failed_of (elements s) outcomes = ∅)
          then Unsubscribing else Listening).
Proof.
  intros Ht Hst Hc Hs Hlen.
  unfold solitary_broadcast. cbn [run foldl].
  assert (Hstep : step sv (Wake tid (Item (Message message)) None) =
            continue_loop sv tid (task_room t) message
              (Iter (size s) (elements s) true false) ∅ None).
  { cbn [step]. unfold subscribe_and_forward. rewrite Ht, Hc, Hst.
    unfold broadcast_to_room. now rewrite Hs. }
  rewrite Hstep.
  fold (run (continue_loop sv tid (task_room t) message
               (Iter (size s) (elements s) true false) ∅ None)
          (map (fun ok => Wake tid (outcome_wakeup ok) None) outcomes)).
  destruct (solitary_loop tid (task_room t) message s (elements s) outcomes ∅
              sv t Hlen Ht eq_refl Hc Hs) as (He & Hsub & Ho & Hstate).
  assert (Hset : ∅ ∪ failed_of (elements s) outcomes =
                 failed_of (elements s) outcomes) by set_solver.
  rewrite Hset in He, Hsub, Hstate.
  split; [exact He|]. split; [exact Hsub|]. split; [exact Ho|exact Hstate].
Qed.

Lemma two_clients_lookup :
  active_connections two_clients !! "cam-1" = Some ({[1; 2]} : gset nat).
Proof. vm_compute. reflexivity. Defined.

Lemma solitary_broadcast_isolates_failures_witness :
  tasks two_clients !! 0 = Some (Task "cam-1" 1 Listening false false) /\
  active_connections two_clients !! "cam-1" = Some ({[1; 2]} : gset nat) /\
  effects (run two_clients (solitary_broadcast 0 "m" [false; true])) =
    [Sent 2 "m" false; Sent 1 "m" true; Removed 2] /\
  elements (subscribers
              (active_connections
                 (run two_clients (solitary_broadcast 0 "m" [false; true])))
              "cam-1") = [1].
Proof.
  split; [reflexivity|]. split; [exact two_clients_lookup|].
  destruct (solitary_broadcast_isolates_failures two_clients 0
              (Task "cam-1" 1 Listening false false) {[1; 2]} "m" [false; true]
              eq_refl eq_refl eq_refl two_clients_lookup eq_refl)
    as (He & Hsub & _).
  split.
  - rewrite He. vm_compute. reflexivity.
  - cbn [task_room] in Hsub. rewrite Hsub. vm_compute. reflexivity.
Defined.

End FanoutExtFacts.

Module BlinkFacts.
Import Blink.
Local Open Scope R_scope.

Lemma recent_app now w l1 l2 :
  recent now w (l1 ++ l2) = recent now w l1 ++ recent now w l2.
Proof. unfold recent. apply List.filter_app. Qed.

Lemma recent_all now w l :
  Forall (fun t => now - t <= w) l -> recent now w l = l.
Proof.
  induction 1 as [|t l Ht _ IH]; [reflexivity|].
  unfold recent in *. cbn [List.filter].
  destruct (Rgt_dec (now - t) w) as [Hgt|_]; [lra|]. now rewrite IH.
Qed.

Lemma recent_within now w l :
  Forall (fun t => now - t <= w) (recent now w l).
Proof.
  induction l as [|t l IH]; [constructor|].
  unfold recent in *. cbn [List.filter].
  destruct (Rgt_dec (now - t) w) as [Hgt|Hle]; [exact IH|].
  constructor; [lra|exact IH].
Qed.

Lemma recent_recent n1 n2 w l :
  n1 <= n2 -> recent n2 w (recent n1 w l) = recent n2 w l.
Proof.
  intros Hn. induction l as [|t l IH]; [reflexivity|].
  unfold recent in *. cbn [List.filter].
  destruct (Rgt_dec (n1 - t) w) as [H1|H1].
  - rewrite IH. destruct (Rgt_dec (n2 - t) w) as [_|H2]; [reflexivity|lra].
  - cbn [List.filter]. now rewrite IH.
Qed.

Lemma purge_recent now w l :
  ascending l -> purge now w l = recent now w l.
Proof.
  induction l as [|t l IH]; [reflexivity|].
  intros [Ht Hl]. cbn [purge]. unfold recent in *. cbn [List.filter].
  destruct (Rgt_dec (now - t) w) as [Hgt|Hle]; [now apply IH|].
  f_equal. symmetry. apply (recent_all now w).
  eapply Forall_impl; [exact Ht|]. intros t' Ht'. cbn beta in Ht'. lra.
Qed.

Lemma Forall_recent (P : R -> Prop) now w l :
  Forall P l -> Forall P (recent now w l).
Proof.
  induction 1 as [|t l Ht _ IH]; [constructor|].
  unfold recent in *. cbn [List.filter].
  destruct (Rgt_dec (now - t) w); [exact IH|now constructor].
Qed.

Lemma ascending_recent now w l : ascending l -> ascending (recent now w l).
Proof.
  induction l as [|t l IH]; [trivial|].
  intros [Ht Hl]. unfold recent in *. cbn [List.filter].
  destruct (Rgt_dec (now - t) w); [now apply IH|].
  split; [now apply (Forall_recent _ now w)|now apply IH].
Qed.

Lemma ascending_snoc l now :
  ascending l -> Forall (fun t => t <= now) l -> ascending (l ++ [now]).
Proof.
  induction l as [|t l IH]; intros Ha Hb.
  - cbn. split; [constructor|trivial].
  - destruct Ha as [Ht Hl]. inversion Hb as [|? ? Htn Hln]; subst.
    cbn [app ascending]. split; [|now apply IH].
    apply Forall_app. split; [exact Ht|]. constructor; [exact Htn|constructor].
Qed.

Lemma last_cons (a d : R) l : List.last (a :: l) d = List.last l a.
Proof.
  revert a d. induction l as [|b l IH]; intros a d; [reflexivity|].
  change (List.last (a :: b :: l) d) with (List.last (b :: l) d).
  now rewrite (IH b d), (IH b a).
Qed.

Lemma nondecreasing_last now l :
  nondecreasing_from now l -> now <= List.last l now.
Proof.
  revert now. induction l as [|t l IH]; intros now H; [cbn; lra|].
  destruct H as [Hnt Hl]. rewrite last_cons.
  specialize (IH _ Hl). lra.
Qed.

(** What one [update] does to the stored readings. *)
Lemma update_ts bt now ear_value :
  _last_blink_ts (fst (update bt now ear_value)) =
    purge now (window_seconds bt)
      (_last_blink_ts bt ++ (if snd (update bt now ear_value) then [now] else []))
  /\ window_seconds (fst (update bt now ear_value)) = window_seconds bt.
Proof.
  unfold update.
  destruct (Rlt_dec ear_value (ear_thresh bt));
    [|destruct (debounce_frames bt <=? _frame_below bt)%Z];
    cbn [fst snd _last_blink_ts window_seconds];
    rewrite ?app_nil_r; split; reflexivity.
Qed.

Lemma run_cons_ts rest : forall bt now ear_value,
  ascending (_last_blink_ts bt) ->
  Forall (fun t => t <= now) (_last_blink_ts bt) ->
  nondecreasing_from now (map fst rest) ->
  _last_blink_ts (fst (run bt ((now, ear_value) :: rest))) =
    recent (List.last (map fst rest) now) (window_seconds bt)
      (_last_blink_ts bt ++
       registered ((now, ear_value) :: rest)
         (snd (run bt ((now, ear_value) :: rest)))).
Proof.
  induction rest as [|[now2 ear2] rest IH]; intros bt now ear_value Ha Hb Hm.
  - cbn [run map List.last].
    destruct (update_ts bt now ear_value) as [Hts _].
    destruct (update bt now ear_value) as [bt1 r].
    cbn [fst snd registered] in *. rewrite Hts.
    destruct r.
    + apply purge_recent. now apply ascending_snoc.
    + rewrite app_nil_r. now apply purge_recent.
  - cbn [map fst] in Hm. destruct Hm as [Hle Hm].
    change (run bt ((now, ear_value) :: (now2, ear2) :: rest))
      with (let '(bt1, r) := update bt now ear_value in
            let '(bt2, rs) := run bt1 ((now2, ear2) :: rest) in
            (bt2, r :: rs)).
    destruct (update_ts bt now ear_value) as [Hts Hw].
    destruct (update bt now ear_value) as [bt1 r].
    cbn [fst snd] in Hts, Hw.
    assert (Ha1 : ascending (_last_blink_ts bt ++ (if r then [now] else []))).
    { destruct r; [now apply ascending_snoc|now rewrite app_nil_r]. }
    assert (Hb1 : Forall (fun t => t <= now)
                    (_last_blink_ts bt ++ (if r then [now] else []))).
    { apply Forall_app. split; [exact Hb|].
      destruct r; [constructor; [lra|constructor]|constructor]. }
    rewrite (purge_recent _ _ _ Ha1) in Hts.
    assert (Ha2 : ascending (_last_blink_ts bt1)).
    { rewrite Hts. now apply ascending_recent. }
    assert (Hb2 : Forall (fun t => t <= now2) (_last_blink_ts bt1)).
    { rewrite Hts. apply Forall_recent.
      eapply Forall_impl; [exact Hb1|]. intros t Ht. cbn beta in Ht. lra. }
    specialize (IH bt1 now2 ear2 Ha2 Hb2 Hm).
    destruct (run bt1 ((now2, ear2) :: rest)) as [bt2 rs].
    cbn [fst snd] in IH |- *. rewrite IH, Hw, Hts.
    cbn [map fst]. rewrite last_cons.
    assert (Hlast : now <= List.last (map fst rest) now2).
    { pose proof (nondecreasing_last _ _ Hm). lra. }
    rewrite recent_app, (recent_recent _ _ _ _ Hlast), <- recent_app.
    f_equal. rewrite <- app_assoc. f_equal.
    change (registered ((now, ear_value) :: (now2, ear2) :: rest) (r :: rs))
      with (if r then now :: registered ((now2, ear2) :: rest) rs
            else registered ((now2, ear2) :: rest) rs).
    now destruct r.
Qed.

(** X30.  With a clock that does not go back, the readings a tracker
    that started without any holds after a run of updates are exactly
    the clock readings of the updates that registered a blink and lie
    at most [window_seconds] before the last update, in order.  With a
    window of at most 60 seconds, [blinks_per_minute] asked at the time
    of the last update is then the plain count of those readings. *)
Theorem stored_blinks_are_the_recent_registered bt frames :
  _last_blink_ts bt = [] ->
  frames <> [] ->
  nondecreasing (map fst frames) ->
  let now := List.last (map fst frames) 0 in
  let bt' := fst (run bt frames) in
  _last_blink_ts bt' =
    recent now (window_seconds bt) (registered frames (snd (run bt frames))) /\
  (window_seconds bt <= 60 ->
   blinks_per_minute bt' now = INR (recent_blinks_count bt')).
Proof.
  intros Hts Hne Hm. destruct frames as [|[now0 ear0] rest]; [easy|].
  cbn [map fst nondecreasing] in Hm. cbn zeta.
  cbn [map fst]. rewrite last_cons.
  assert (Heq := run_cons_ts rest bt now0 ear0).
  rewrite Hts in Heq. cbn [app ascending] in Heq.
  specialize (Heq I (Forall_nil_2 _) Hm).
  split; [exact Heq|].
  intros Hw. unfold blinks_per_minute, recent_blinks_count.
  pose proof (recent_within (List.last (map fst rest) now0) (window_seconds bt)
                (registered ((now0, ear0) :: rest)
                   (snd (run bt ((now0, ear0) :: rest))))) as Hin.
  rewrite <- Heq in Hin.
  destruct (_last_blink_ts (fst (run bt ((now0, ear0) :: rest))))
    as [|t0 ts]; [reflexivity|].
  inversion Hin as [|? ? Ht0 _]; subst.
  rewrite Rmax_right by lra. now rewrite Rdiv_1_r.
Qed.

Lemma stored_blinks_are_the_recent_registered_witness :
  nondecreasing (map fst one_blink) /\
  _last_blink_ts (fst (run default_tracker one_blink)) =
    recent 100 60 (registered one_blink (snd (run default_tracker one_blink))) /\
  blinks_per_minute (fst (run default_tracker one_blink)) 100 =
    INR (recent_blinks_count (fst (run default_tracker one_blink))).
Proof.
  assert (Hm : nondecreasing (map fst one_blink)).
  { cbn. repeat split; lra. }
  split; [exact Hm|].
  destruct (stored_blinks_are_the_recent_registered default_tracker one_blink
              eq_refl ltac:(discriminate) Hm) as [H1 H2].
  split; [exact H1|]. apply H2. cbn. lra.
Defined.

End BlinkFacts.
